(** * The space-colonisation growth engine of add_mesh_space_tree/scanew.py

    A shallow embedding of the pure-Python helpers [closest] and [direction],
    of the class [SCA] (its constructor, [addBranchPoint], [addEndPoint],
    [closestBranchPoint], [shootSupressed], [growBranches], [iterate]) and of
    the class [Branchpoint].

    Numbers are Python floats, that is IEEE binary64 values: they are the
    kernel's primitive floats here, so every definition below evaluates to
    the very value the interpreter computes.  Python exceptions are results
    of type [outcome]; attributes of [self] and the process-wide state (the
    [random] module's generator, the class attribute [Branchpoint.count],
    the wall clock) are threaded explicitly. *)

From Stdlib Require Import ZArith List Bool Lia Permutation.
From Stdlib Require Import Floats.
Import ListNotations.

Set Warnings "-inexact-float".
Set Implicit Arguments.
Local Open Scope Z_scope.

(** ** Outcomes of a call *)

Inductive exn : Type :=
| IndexError
| UnboundLocalError
| ZeroDivisionError
| ValueError
| OverflowError
| StopIteration.

(** [Diverged] is not an exception: it marks a loop of the source that
    never ends (the model's bound on it ran out). *)
Inductive outcome (A : Type) : Type :=
| Returned (a : A)
| Raised (e : exn)
| Diverged.

Arguments Returned {A} a.
Arguments Raised {A} e.
Arguments Diverged {A}.

Definition obind {A B} (o : outcome A) (k : A -> outcome B) : outcome B :=
  match o with
  | Returned a => k a
  | Raised e => Raised e
  | Diverged => Diverged
  end.

Declare Scope outcome_scope.
Delimit Scope outcome_scope with outcome.
Notation "x <~ o ;; k" := (obind o (fun x => k))
  (at level 61, o at next level, right associativity) : outcome_scope.
Notation "' p <~ o ;; k" := (obind o (fun x => match x with p => k end))
  (at level 61, p pattern, o at next level, right associativity) : outcome_scope.

(** ** Python sequences *)

Definition len {A} (l : list A) : Z := Z.of_nat (length l).

(** The position a subscript denotes: negative subscripts count from the
    end, anything else out of [0, n) is an IndexError. *)
Definition py_index (n i : Z) : option nat :=
  if (0 <=? i) && (i <? n) then Some (Z.to_nat i)
  else if (i <? 0) && (0 <=? i + n) then Some (Z.to_nat (i + n))
  else None.

Fixpoint replace_nth {A} (l : list A) (k : nat) (a : A) : list A :=
  match l, k with
  | [], _ => []
  | _ :: t, O => a :: t
  | h :: t, S k' => h :: replace_nth t k' a
  end.

(** [l[i]] *)
Definition getitem {A} (l : list A) (i : Z) : outcome A :=
  match py_index (len l) i with
  | Some k =>
      match nth_error l k with
      | Some a => Returned a
      | None => Raised IndexError
      end
  | None => Raised IndexError
  end.

(** [l[i] = a] *)
Definition setitem {A} (l : list A) (i : Z) (a : A) : outcome (list A) :=
  match py_index (len l) i with
  | Some k => Returned (replace_nth l k a)
  | None => Raised IndexError
  end.

(** [range(n)] *)
Definition range (n : Z) : list Z := map Z.of_nat (seq 0 (Z.to_nat n)).

(** [enumerate(l)] *)
Definition enumerate {A} (l : list A) : list (Z * A) :=
  combine (range (len l)) l.

(** ** Python float arithmetic that can raise *)

(** [a / b] *)
Definition truediv (a b : float) : outcome float :=
  if (b =? 0)%float then Raised ZeroDivisionError else Returned (a / b)%float.

(** [math.sqrt(a)] *)
Definition math_sqrt (a : float) : outcome float :=
  if (a <? 0)%float then Raised ValueError else Returned (sqrt a).

(** An [int] used where a float is expected. *)
Definition float_of_int (z : Z) : float :=
  if z <? 0 then (- of_uint63 (Uint63.of_Z (- z)))%float
  else of_uint63 (Uint63.of_Z z).

Definition vec3 : Type := float * float * float.

(** ** The pure-Python fallbacks [closest] and [direction] *)

Section Closest.
Variables (pos : list float) (count : list Z) (x y z : float).

(** The body of [for i in range(n)], started with [d2] bound and [ci], [v]
    bound or not ([best]). *)
Fixpoint closest_scan (idx : list Z) (d2 : float) (best : option (Z * vec3))
  : outcome (float * option (Z * vec3)) :=
  match idx with
  | [] => Returned (d2, best)
  | i :: rest =>
      (c <~ getitem count i ;;
       if c >? 1 then closest_scan rest d2 best
       else
         px <~ getitem pos (i * 3) ;;
         py <~ getitem pos (i * 3 + 1) ;;
         pz <~ getitem pos (i * 3 + 2) ;;
         let dx := (x - px)%float in
         let dy := (y - py)%float in
         let dz := (z - pz)%float in
         let d := (dx * dx + dy * dy + dz * dz)%float in
         if (d <? d2)%float
         then closest_scan rest d (Some (i, (dx, dy, dz)))
         else closest_scan rest d2 best)%outcome
  end.

Definition closest (n : Z) : outcome (float * Z * vec3) :=
  ('(d2, best) <~ closest_scan (range n) 1e30%float None ;;
   match best with
   | Some (ci, v) => Returned (d2, ci, v)
   | None => Raised UnboundLocalError
   end)%outcome.
End Closest.

Fixpoint direction_sum (v : list float) (idx : list Z) (acc : vec3)
  : outcome vec3 :=
  match idx with
  | [] => Returned acc
  | i :: rest =>
      let '(x, y, z) := acc in
      (a <~ getitem v (i * 3) ;;
       b <~ getitem v (i * 3 + 1) ;;
       c <~ getitem v (i * 3 + 2) ;;
       direction_sum v rest ((x + a)%float, (y + b)%float, (z + c)%float))%outcome
  end.

Definition direction (v : list float) : outcome (vec3 * float) :=
  ('(x, y, z) <~ direction_sum v (range (len v / 3)) (0%float, 0%float, 0%float) ;;
   Returned ((x, y, z), (x * x + y * y + z * z)%float))%outcome.

(** ** The host: what the interpreter and the imported modules provide *)

(** The [random] module ([seed], [random], [expovariate]), generators made by
    [volume()] (they may draw from the same [random] state, as [sphere]
    does), float exponentiation (which raises OverflowError), the order in
    which a [set] of ints is enumerated (any order without repetition: the
    language fixes none), and [mathutils.Vector]. *)
Class Host : Type := {
  rng : Type;
  seed : Z -> rng;
  random : rng -> float * rng;
  expovariate : float -> rng -> float * rng;
  generator : Type;
  next : generator -> rng -> outcome (vec3 * generator) * rng;
  pow : float -> float -> outcome float;
  set_iter : list Z -> list Z;
  set_iter_NoDup : forall l, NoDup (set_iter l);
  set_iter_In : forall l b, In b (set_iter l) <-> In b l;
  Vector : vec3 -> vec3
}.

(** ** class Branchpoint *)

(** [apex] and [shoot] refer to other [Branchpoint] objects; every such object
    lives in [self.branchpoints], so a reference is a position in that list.
    [index] is the value of the class attribute [Branchpoint.count] when the
    object was made. *)
Module Branchpoint.
Record t : Type := {
  v : vec3;
  parent : option Z;
  connections : Z;
  generation : Z;
  apex : option nat;
  shoot : option nat;
  index : Z
}.

Definition set_apex (r : nat) (b : t) : t :=
  {| v := v b; parent := parent b; connections := connections b;
     generation := generation b; apex := Some r; shoot := shoot b;
     index := index b |}.

Definition set_shoot (r : nat) (b : t) : t :=
  {| v := v b; parent := parent b; connections := connections b;
     generation := generation b; apex := apex b; shoot := Some r;
     index := index b |}.

Definition incr_connections (b : t) : t :=
  {| v := v b; parent := parent b; connections := connections b + 1;
     generation := generation b; apex := apex b; shoot := shoot b;
     index := index b |}.
End Branchpoint.

(** ** class SCA: the attributes of [self] *)

Section Engine.
Context {H : Host}.

Record SCA : Type := {
  killdistance : float;
  branchlength : float;
  maxiterations : Z;
  tropism : float;
  influence : float;
  apicalcontrol : float;
  apicalcontrolfalloff : float;
  apicaltiming : float;
  apicalstep : float;
  bp : list float;  (* position of the branchpoints, three floats each (array of doubles) *)
  bpg : list Z;  (* last generation touching this bp *)
  bpp : list (option Z);  (* the index of its parent *)
  bpc : list Z;  (* the number of connected shoots (array of ints) *)
  bpa : list Z;  (* the apical control factor *)
  ep : list vec3;  (* position of an endpoint *)
  epb : list Z;  (* index of closest branchpoint, -1 dead, -2 out of range *)
  epv : list vec3;  (* normalized direction of closest bp to this ep *)
  epd : list float;  (* distance to closest bp *)
  volumepoint : generator;
  exclude : vec3 -> bool;
  branchpoints : list Branchpoint.t;  (* result arrays, filled after the iterations *)
  endpoints : list vec3
}.

Definition set_apicalcontrol (a : float) (s : SCA) : SCA :=
  {| killdistance := killdistance s; branchlength := branchlength s;
     maxiterations := maxiterations s; tropism := tropism s;
     influence := influence s; apicalcontrol := a;
     apicalcontrolfalloff := apicalcontrolfalloff s;
     apicaltiming := apicaltiming s; apicalstep := apicalstep s; bp := bp s;
     bpg := bpg s; bpp := bpp s; bpc := bpc s; bpa := bpa s; ep := ep s;
     epb := epb s; epv := epv s; epd := epd s; volumepoint := volumepoint s;
     exclude := exclude s; branchpoints := branchpoints s;
     endpoints := endpoints s |}.

Definition set_apicaltiming (a : float) (s : SCA) : SCA :=
  {| killdistance := killdistance s; branchlength := branchlength s;
     maxiterations := maxiterations s; tropism := tropism s;
     influence := influence s; apicalcontrol := apicalcontrol s;
     apicalcontrolfalloff := apicalcontrolfalloff s; apicaltiming := a;
     apicalstep := apicalstep s; bp := bp s; bpg := bpg s; bpp := bpp s;
     bpc := bpc s; bpa := bpa s; ep := ep s; epb := epb s; epv := epv s;
     epd := epd s; volumepoint := volumepoint s; exclude := exclude s;
     branchpoints := branchpoints s; endpoints := endpoints s |}.

Definition set_bp (a : list float) (s : SCA) : SCA :=
  {| killdistance := killdistance s; branchlength := branchlength s;
     maxiterations := maxiterations s; tropism := tropism s;
     influence := influence s; apicalcontrol := apicalcontrol s;
     apicalcontrolfalloff := apicalcontrolfalloff s;
     apicaltiming := apicaltiming s; apicalstep := apicalstep s; bp := a;
     bpg := bpg s; bpp := bpp s; bpc := bpc s; bpa := bpa s; ep := ep s;
     epb := epb s; epv := epv s; epd := epd s; volumepoint := volumepoint s;
     exclude := exclude s; branchpoints := branchpoints s;
     endpoints := endpoints s |}.

Definition set_bpg (a : list Z) (s : SCA) : SCA :=
  {| killdistance := killdistance s; branchlength := branchlength s;
     maxiterations := maxiterations s; tropism := tropism s;
     influence := influence s; apicalcontrol := apicalcontrol s;
     apicalcontrolfalloff := apicalcontrolfalloff s;
     apicaltiming := apicaltiming s; apicalstep := apicalstep s; bp := bp s;
     bpg := a; bpp := bpp s; bpc := bpc s; bpa := bpa s; ep := ep s;
     epb := epb s; epv := epv s; epd := epd s; volumepoint := volumepoint s;
     exclude := exclude s; branchpoints := branchpoints s;
     endpoints := endpoints s |}.

Definition set_bpp (a : list (option Z)) (s : SCA) : SCA :=
  {| killdistance := killdistance s; branchlength := branchlength s;
     maxiterations := maxiterations s; tropism := tropism s;
     influence := influence s; apicalcontrol := apicalcontrol s;
     apicalcontrolfalloff := apicalcontrolfalloff s;
     apicaltiming := apicaltiming s; apicalstep := apicalstep s; bp := bp s;
     bpg := bpg s; bpp := a; bpc := bpc s; bpa := bpa s; ep := ep s;
     epb := epb s; epv := epv s; epd := epd s; volumepoint := volumepoint s;
     exclude := exclude s; branchpoints := branchpoints s;
     endpoints := endpoints s |}.

Definition set_bpc (a : list Z) (s : SCA) : SCA :=
  {| killdistance := killdistance s; branchlength := branchlength s;
     maxiterations := maxiterations s; tropism := tropism s;
     influence := influence s; apicalcontrol := apicalcontrol s;
     apicalcontrolfalloff := apicalcontrolfalloff s;
     apicaltiming := apicaltiming s; apicalstep := apicalstep s; bp := bp s;
     bpg := bpg s; bpp := bpp s; bpc := a; bpa := bpa s; ep := ep s;
     epb := epb s; epv := epv s; epd := epd s; volumepoint := volumepoint s;
     exclude := exclude s; branchpoints := branchpoints s;
     endpoints := endpoints s |}.

Definition set_bpa (a : list Z) (s : SCA) : SCA :=
  {| killdistance := killdistance s; branchlength := branchlength s;
     maxiterations := maxiterations s; tropism := tropism s;
     influence := influence s; apicalcontrol := apicalcontrol s;
     apicalcontrolfalloff := apicalcontrolfalloff s;
     apicaltiming := apicaltiming s; apicalstep := apicalstep s; bp := bp s;
     bpg := bpg s; bpp := bpp s; bpc := bpc s; bpa := a; ep := ep s;
     epb := epb s; epv := epv s; epd := epd s; volumepoint := volumepoint s;
     exclude := exclude s; branchpoints := branchpoints s;
     endpoints := endpoints s |}.

Definition set_ep (a : list vec3) (s : SCA) : SCA :=
  {| killdistance := killdistance s; branchlength := branchlength s;
     maxiterations := maxiterations s; tropism := tropism s;
     influence := influence s; apicalcontrol := apicalcontrol s;
     apicalcontrolfalloff := apicalcontrolfalloff s;
     apicaltiming := apicaltiming s; apicalstep := apicalstep s; bp := bp s;
     bpg := bpg s; bpp := bpp s; bpc := bpc s; bpa := bpa s; ep := a;
     epb := epb s; epv := epv s; epd := epd s; volumepoint := volumepoint s;
     exclude := exclude s; branchpoints := branchpoints s;
     endpoints := endpoints s |}.

Definition set_epb (a : list Z) (s : SCA) : SCA :=
  {| killdistance := killdistance s; branchlength := branchlength s;
     maxiterations := maxiterations s; tropism := tropism s;
     influence := influence s; apicalcontrol := apicalcontrol s;
     apicalcontrolfalloff := apicalcontrolfalloff s;
     apicaltiming := apicaltiming s; apicalstep := apicalstep s; bp := bp s;
     bpg := bpg s; bpp := bpp s; bpc := bpc s; bpa := bpa s; ep := ep s;
     epb := a; epv := epv s; epd := epd s; volumepoint := volumepoint s;
     exclude := exclude s; branchpoints := branchpoints s;
     endpoints := endpoints s |}.

Definition set_epv (a : list vec3) (s : SCA) : SCA :=
  {| killdistance := killdistance s; branchlength := branchlength s;
     maxiterations := maxiterations s; tropism := tropism s;
     influence := influence s; apicalcontrol := apicalcontrol s;
     apicalcontrolfalloff := apicalcontrolfalloff s;
     apicaltiming := apicaltiming s; apicalstep := apicalstep s; bp := bp s;
     bpg := bpg s; bpp := bpp s; bpc := bpc s; bpa := bpa s; ep := ep s;
     epb := epb s; epv := a; epd := epd s; volumepoint := volumepoint s;
     exclude := exclude s; branchpoints := branchpoints s;
     endpoints := endpoints s |}.

Definition set_epd (a : list float) (s : SCA) : SCA :=
  {| killdistance := killdistance s; branchlength := branchlength s;
     maxiterations := maxiterations s; tropism := tropism s;
     influence := influence s; apicalcontrol := apicalcontrol s;
     apicalcontrolfalloff := apicalcontrolfalloff s;
     apicaltiming := apicaltiming s; apicalstep := apicalstep s; bp := bp s;
     bpg := bpg s; bpp := bpp s; bpc := bpc s; bpa := bpa s; ep := ep s;
     epb := epb s; epv := epv s; epd := a; volumepoint := volumepoint s;
     exclude := exclude s; branchpoints := branchpoints s;
     endpoints := endpoints s |}.

Definition set_volumepoint (a : generator) (s : SCA) : SCA :=
  {| killdistance := killdistance s; branchlength := branchlength s;
     maxiterations := maxiterations s; tropism := tropism s;
     influence := influence s; apicalcontrol := apicalcontrol s;
     apicalcontrolfalloff := apicalcontrolfalloff s;
     apicaltiming := apicaltiming s; apicalstep := apicalstep s; bp := bp s;
     bpg := bpg s; bpp := bpp s; bpc := bpc s; bpa := bpa s; ep := ep s;
     epb := epb s; epv := epv s; epd := epd s; volumepoint := a;
     exclude := exclude s; branchpoints := branchpoints s;
     endpoints := endpoints s |}.

Definition set_branchpoints (a : list Branchpoint.t) (s : SCA) : SCA :=
  {| killdistance := killdistance s; branchlength := branchlength s;
     maxiterations := maxiterations s; tropism := tropism s;
     influence := influence s; apicalcontrol := apicalcontrol s;
     apicalcontrolfalloff := apicalcontrolfalloff s;
     apicaltiming := apicaltiming s; apicalstep := apicalstep s; bp := bp s;
     bpg := bpg s; bpp := bpp s; bpc := bpc s; bpa := bpa s; ep := ep s;
     epb := epb s; epv := epv s; epd := epd s; volumepoint := volumepoint s;
     exclude := exclude s; branchpoints := a; endpoints := endpoints s |}.

Definition set_endpoints (a : list vec3) (s : SCA) : SCA :=
  {| killdistance := killdistance s; branchlength := branchlength s;
     maxiterations := maxiterations s; tropism := tropism s;
     influence := influence s; apicalcontrol := apicalcontrol s;
     apicalcontrolfalloff := apicalcontrolfalloff s;
     apicaltiming := apicaltiming s; apicalstep := apicalstep s; bp := bp s;
     bpg := bpg s; bpp := bpp s; bpc := bpc s; bpa := bpa s; ep := ep s;
     epb := epb s; epv := epv s; epd := epd s; volumepoint := volumepoint s;
     exclude := exclude s; branchpoints := branchpoints s; endpoints := a |}.

(** ** Calls that change state *)

Definition M (S A : Type) : Type := S -> outcome A * S.

Definition ret {S A} (a : A) : M S A := fun w => (Returned a, w).

Definition bind {S A B} (m : M S A) (k : A -> M S B) : M S B :=
  fun w =>
    match m w with
    | (Returned a, w') => k a w'
    | (Raised e, w') => (Raised e, w')
    | (Diverged, w') => (Diverged, w')
    end.

Definition liftO {S A} (o : outcome A) : M S A := fun w => (o, w).
Definition get {S} : M S S := fun w => (Returned w, w).
Definition modify {S} (f : S -> S) : M S unit := fun w => (Returned tt, f w).
Definition diverge {S A} : M S A := fun w => (Diverged, w).

(** A call on a part [S] of the state [T]. *)
Definition zoom {S T A} (proj : T -> S) (inj : S -> T -> T) (m : M S A)
  : M T A :=
  fun t => let (o, s') := m (proj t) in (o, inj s' t).

Declare Scope monad_scope.
Delimit Scope monad_scope with monad.
Notation "x <- m ;; k" := (bind m (fun x => k))
  (at level 61, m at next level, right associativity) : monad_scope.
Notation "' p <- m ;; k" := (bind m (fun x => match x with p => k end))
  (at level 61, p pattern, m at next level, right associativity) : monad_scope.
Notation "m ;; k" := (bind m (fun _ => k))
  (at level 61, right associativity) : monad_scope.
Local Open Scope monad_scope.

(** [for a in l: body(a)] *)
Fixpoint forM_ {S A} (l : list A) (body : A -> M S unit) : M S unit :=
  match l with
  | [] => ret tt
  | a :: rest => body a ;; forM_ rest body
  end.

(** *** closestBranchPoint *)

Definition closestBranchPoint (s : SCA) (p : vec3) : outcome (Z * vec3 * float) :=
  let '(p0, p1, p2) := p in
  ('(d2, bbi, bv) <~ closest (bp s) (bpc s) p0 p1 p2 (len (bp s) / 3) ;;
   let '(bv0, bv1, bv2) := bv in
   d <~ math_sqrt d2 ;;
   let bi := if (d <? influence s)%float then bbi else -2 in
   a <~ truediv bv0 d ;;
   b <~ truediv bv1 d ;;
   c <~ truediv bv2 d ;;
   Returned (bi, (a, b, c), d))%outcome.

(** *** addEndPoint *)

Definition addEndPoint (p : vec3) : M SCA unit :=
  modify (fun s => set_ep (ep s ++ [p]) s) ;;
  s <- get ;;
  '(bi, v, d) <- liftO (closestBranchPoint s p) ;;
  modify (fun s => set_epb (epb s ++ [bi]) s) ;;
  modify (fun s => set_epv (epv s ++ [v]) s) ;;
  modify (fun s => set_epd (epd s ++ [d]) s).

(** *** addBranchPoint *)

(** [while ppi is not None: self.bpg[ppi] = generation; ppi = self.bpp[ppi]].
    A walk that ends visits no position of [bpp] twice, so with
    [S (length bpp)] steps allowed the bound runs out only on a walk that
    never ends. *)
Fixpoint stamp_lineage (fuel : nat) (ppi : option Z) (generation : Z)
  : M SCA unit :=
  match ppi with
  | None => ret tt
  | Some i =>
      match fuel with
      | O => diverge
      | S fuel' =>
          s <- get ;;
          g <- liftO (setitem (bpg s) i generation) ;;
          modify (set_bpg g) ;;
          s <- get ;;
          ppi' <- liftO (getitem (bpp s) i) ;;
          stamp_lineage fuel' ppi' generation
      end
  end.

(** The body of the loop over [enumerate(zip(self.ep, self.epd, self.epb))]:
    [newbp] is the new branch point, [bi] its index. *)
Definition attract (newbp : vec3) (bi : Z) (item : Z * (vec3 * (float * Z)))
  : M SCA unit :=
  let '(epi, (e, (d0, b0))) := item in
  let '(e0, e1, e2) := e in
  let '(n0, n1, n2) := newbp in
  if b0 =? -1 then ret tt
  else
    let v0 := (e0 - n0)%float in
    let v1 := (e1 - n1)%float in
    let v2 := (e2 - n2)%float in
    let d2 := (v0 * v0 + v1 * v1 + v2 * v2)%float in
    d <- liftO (math_sqrt d2) ;;
    if (d <? d0)%float then
      s <- get ;;
      if (killdistance s <? d)%float then
        a <- liftO (truediv v0 d) ;;
        b <- liftO (truediv v1 d) ;;
        c <- liftO (truediv v2 d) ;;
        s <- get ;;
        l <- liftO (setitem (epv s) epi (a, b, c)) ;;
        modify (set_epv l) ;;
        s <- get ;;
        l <- liftO (setitem (epd s) epi d) ;;
        modify (set_epd l) ;;
        s <- get ;;
        l <- liftO (setitem (epb s) epi
                      (if (d <? influence s)%float then bi else -2)) ;;
        modify (set_epb l)
      else
        l <- liftO (setitem (epb s) epi (-1)) ;;
        modify (set_epb l)
    else ret tt.

(** The body of the loop over [enumerate(self.epb)] that re-resolves the
    endpoints of a parent that became full. *)
Definition reassign (parent : Z) (item : Z * Z) : M SCA unit :=
  let '(epi, b0) := item in
  if b0 =? parent then
    s <- get ;;
    e <- liftO (getitem (ep s) epi) ;;
    '(bi, v, d) <- liftO (closestBranchPoint s e) ;;
    l <- liftO (setitem (epb s) epi bi) ;;
    modify (set_epb l) ;;
    s <- get ;;
    l <- liftO (setitem (epv s) epi v) ;;
    modify (set_epv l) ;;
    s <- get ;;
    l <- liftO (setitem (epd s) epi d) ;;
    modify (set_epd l)
  else ret tt.

(** [self.bpc] is an [array('i')]: its items are C ints, and an item
    assignment with a value outside their range raises OverflowError. *)
Definition INT_MAX : Z := 2147483647.
Definition INT_MIN : Z := -2147483648.

Definition as_int (v : Z) : outcome Z :=
  if (INT_MIN <=? v) && (v <=? INT_MAX) then Returned v
  else Raised OverflowError.

(** [self.bpc[pi] += 1] and [self.bpa[pi] += 1]; [self.bpa] is a list. *)
Definition incr_bpc (parent : Z) : M SCA unit :=
  s <- get ;;
  c <- liftO (getitem (bpc s) parent) ;;
  v <- liftO (as_int (c + 1)) ;;
  l <- liftO (setitem (bpc s) parent v) ;;
  modify (set_bpc l).

Definition incr_bpa (parent : Z) : M SCA unit :=
  s <- get ;;
  c <- liftO (getitem (bpa s) parent) ;;
  l <- liftO (setitem (bpa s) parent (c + 1)) ;;
  modify (set_bpa l).

(** The first part of [addBranchPoint]: the appends, the walk up the
    parents and the parent's count. *)
Definition append_branchpoint (newbp : vec3) (parent : Z) (generation : Z) : M SCA unit :=
  let '(n0, n1, n2) := newbp in
  modify (fun s => set_bp (bp s ++ [n0; n1; n2]) s) ;;
  modify (fun s => set_bpg (bpg s ++ [generation]) s) ;;
  s <- get ;;
  stamp_lineage (S (length (bpp s))) (Some parent) generation ;;
  modify (fun s => set_bpp (bpp s ++ [Some parent]) s) ;;
  modify (fun s => set_bpc (bpc s ++ [0]) s) ;;
  modify (fun s => set_bpa (bpa s ++ [0]) s) ;;
  incr_bpc parent.

(** The loop that lets the new branch point attract, kill or leave alone
    every endpoint. *)
Definition attract_all (newbp : vec3) : M SCA unit :=
  s <- get ;;
  let bi := len (bp s) / 3 - 1 in
  forM_ (enumerate (combine (ep s) (combine (epd s) (epb s)))) (attract newbp bi).

(** The loop that runs when the parent has more than one child. *)
Definition reassign_all (parent : Z) : M SCA unit :=
  s <- get ;;
  c <- liftO (getitem (bpc s) parent) ;;
  if c >? 1 then
    s <- get ;;
    forM_ (enumerate (epb s)) (reassign parent)
  else ret tt.

Definition addBranchPoint (newbp : vec3) (parent : Z) (generation : Z)
  : M SCA unit :=
  append_branchpoint newbp parent generation ;;
  attract_all newbp ;;
  reassign_all parent ;;
  incr_bpa parent.

(** ** State shared with the [random] module *)

Record St : Type := { self : SCA; rand : rng }.

Definition set_self (s : SCA) (w : St) : St := {| self := s; rand := rand w |}.
Definition set_rand (r : rng) (w : St) : St := {| self := self w; rand := r |}.

(** A method that touches [self] only. *)
Definition on_self {A} (m : M SCA A) : M St A := zoom self set_self m.

(** [random()] and [expovariate(lambd)] *)
Definition draw_random : M St float :=
  fun w => let (u, r) := random (rand w) in (Returned u, set_rand r w).

Definition draw_expovariate (lambd : float) : M St float :=
  fun w => let (u, r) := expovariate lambd (rand w) in (Returned u, set_rand r w).

(** [next(self.volumepoint)] *)
Definition next_volumepoint : M St vec3 :=
  fun w =>
    match next (volumepoint (self w)) (rand w) with
    | (Returned (p, g), r) =>
        (Returned p, {| self := set_volumepoint g (self w); rand := r |})
    | (Raised e, r) => (Raised e, set_rand r w)
    | (Diverged, r) => (Diverged, set_rand r w)
    end.

(** *** shootSupressed *)

Definition shootSupressed (apicalcontrolfactor : float) : M St bool :=
  w <- get ;;
  if (apicalcontrol (self w) <=? 0)%float then ret false
  else
    let p := (1 - apicalcontrolfactor * apicalcontrol (self w))%float in
    if (p <=? 0)%float then ret true
    else
      p' <- liftO (pow p (apicalcontrolfalloff (self w))) ;;
      u <- draw_random ;;
      ret (p' <? u)%float.

(** *** growBranches *)

(** [bis]: the set of [self.epb] without -1 and -2, in the order the loop
    enumerates it. *)
Definition bis_of (epb_ : list Z) : list Z :=
  filter (fun b => negb (b =? -1) && negb (b =? -2)) (set_iter epb_).

(** [[c for epi,v in enumerate(self.epv) if self.epb[epi]==bpi for c in v]] *)
Fixpoint gather_epvs (epb_ : list Z) (bpi : Z) (items : list (Z * vec3))
  : outcome (list float) :=
  match items with
  | [] => Returned []
  | (epi, (c0, c1, c2)) :: rest =>
      (b <~ getitem epb_ epi ;;
       l <~ gather_epvs epb_ bpi rest ;;
       Returned (if b =? bpi then c0 :: c1 :: c2 :: l else l))%outcome
  end.

(** The position grown from branch point [bpi]. *)
Definition new_position (s : SCA) (bpi : Z) : outcome vec3 :=
  (epvs <~ gather_epvs (epb s) bpi (enumerate (epv s)) ;;
   '((v0, v1, v2), d2) <~ direction epvs ;;
   r <~ math_sqrt d2 ;;
   d <~ truediv r (branchlength s) ;;
   vd0 <~ truediv v0 d ;;
   vd1 <~ truediv v1 d ;;
   vd2 <~ truediv v2 d ;;
   b0 <~ getitem (bp s) (bpi * 3) ;;
   b1 <~ getitem (bp s) (bpi * 3 + 1) ;;
   b2 <~ getitem (bp s) (bpi * 3 + 2) ;;
   Returned ((b0 + vd0)%float, (b1 + vd1)%float,
             (b2 + vd2 + tropism s)%float))%outcome.

(** The first loop of [growBranches]: [newbps] and [newbpps] grow side by
    side. *)
Fixpoint grow_candidates (bis : list Z) (newbps : list vec3) (newbpps : list Z)
  : M St (list vec3 * list Z) :=
  match bis with
  | [] => ret (newbps, newbpps)
  | bpi :: rest =>
      w <- get ;;
      a <- liftO (getitem (bpa (self w)) bpi) ;;
      suppressed <- shootSupressed (float_of_int a) ;;
      if suppressed then grow_candidates rest newbps newbpps
      else
        w <- get ;;
        newbp <- liftO (new_position (self w) bpi) ;;
        grow_candidates rest (newbps ++ [newbp]) (newbpps ++ [bpi])
  end.

(** The second loop: the candidates that [exclude] lets through are added. *)
Definition commit (generation : Z) (cand : vec3 * Z) : M St unit :=
  let '(newbp, newbpp) := cand in
  w <- get ;;
  if exclude (self w) (Vector newbp) then ret tt
  else on_self (addBranchPoint newbp newbpp generation).

Definition growBranches (generation : Z) : M St unit :=
  w <- get ;;
  '(newbps, newbpps) <- grow_candidates (bis_of (epb (self w))) [] [] ;;
  forM_ (combine newbps newbpps) (commit generation).

(** ** The process: the engine, [Branchpoint.count] and the wall clock *)

(** [wall k] is what the [k]-th call of [time()] returns. *)
Record Proc : Type := {
  st : St;
  Branchpoint_count : Z;
  wall : nat -> float;
  now : nat
}.

Definition set_st (w : St) (p : Proc) : Proc :=
  {| st := w; Branchpoint_count := Branchpoint_count p; wall := wall p;
     now := now p |}.

Definition on_st {A} (m : M St A) : M Proc A := zoom st set_st m.

(** [time()] *)
Definition time : M Proc float :=
  fun p =>
    (Returned (wall p (now p)),
     {| st := st p; Branchpoint_count := Branchpoint_count p; wall := wall p;
        now := S (now p) |}).

(** [Branchpoint(p, parent, generation)] *)
Definition new_Branchpoint (pos : vec3) (parent : option Z) (generation : Z)
  : M Proc Branchpoint.t :=
  fun p =>
    let n := Branchpoint_count p + 1 in
    (Returned {| Branchpoint.v := Vector pos; Branchpoint.parent := parent;
                 Branchpoint.connections := 1;
                 Branchpoint.generation := generation;
                 Branchpoint.apex := None; Branchpoint.shoot := None;
                 Branchpoint.index := n |},
     {| st := st p; Branchpoint_count := n; wall := wall p; now := now p |}).

(** *** iterate *)

(** [while t < niterations: ...], the arrivals of new endpoints; the result
    is the new [t]. *)
Fixpoint arrivals (fuel : nat) (rate niterations t : float) : M St float :=
  if (t <? niterations)%float then
    match fuel with
    | O => diverge
    | S fuel' =>
        p <- next_volumepoint ;;
        on_self (addEndPoint p) ;;
        e <- draw_expovariate rate ;;
        arrivals fuel' rate niterations (t + e)%float
    end
  else ret t.

(** The reduction of apical control at the end of a generation. *)
Definition decay (s : SCA) : SCA :=
  if (0 <? apicaltiming s)%float then
    let s1 := set_apicaltiming (apicaltiming s - 1)%float s in
    let s2 := set_apicalcontrol (apicalcontrol s1 - apicalstep s1)%float s1 in
    if (apicalcontrol s2 <? 0)%float then set_apicalcontrol 0%float s2 else s2
  else s.

(** [for i in range(self.maxiterations)], with [break] when the time is up.
    [fuel] bounds each run of the inner [while]. *)
Fixpoint generations (fuel : nat) (gens : list Z)
  (starttime rate maxtime t niterations : float) : M Proc unit :=
  match gens with
  | [] => ret tt
  | i :: rest =>
      on_st (growBranches i) ;;
      stop <- (if (0 <? maxtime)%float
               then tnow <- time ;; ret (maxtime <? tnow - starttime)%float
               else ret false) ;;
      if (stop : bool) then ret tt
      else
        '(t', n') <-
          (if (0 <? rate)%float
           then let n := (niterations + 1)%float in
                t' <- on_st (arrivals fuel rate n t) ;; ret (t', n)
           else ret (t, niterations)) ;;
        on_st (on_self (modify decay)) ;;
        generations fuel rest starttime rate maxtime t' n'
  end.

Definition self_of (p : Proc) : SCA := self (st p).

Definition update_branchpoints (f : list Branchpoint.t -> list Branchpoint.t)
  : M Proc unit :=
  on_st (on_self (modify (fun s => set_branchpoints (f (branchpoints s)) s))).

(** The body of [for bi in range(len(self.bp)//3)]. *)
Definition materialize (bi : Z) : M Proc unit :=
  p <- get ;;
  let s := self_of p in
  b0 <- liftO (getitem (bp s) (bi * 3)) ;;
  b1 <- liftO (getitem (bp s) (bi * 3 + 1)) ;;
  b2 <- liftO (getitem (bp s) (bi * 3 + 2)) ;;
  bpp_ <- liftO (getitem (bpp s) bi) ;;
  gen <- liftO (getitem (bpg s) bi) ;;
  b <- new_Branchpoint (b0, b1, b2) bpp_ gen ;;
  update_branchpoints (fun l => l ++ [b]) ;;
  match bpp_ with
  | None => ret tt
  | Some pidx =>
      p <- get ;;
      let l := branchpoints (self_of p) in
      let last := Nat.pred (length l) in
      par <- liftO (getitem l pidx) ;;
      match Branchpoint.apex par with
      | None =>
          l' <- liftO (setitem l pidx (Branchpoint.set_apex last par)) ;;
          update_branchpoints (fun _ => l')
      | Some _ =>
          l' <- liftO (setitem l pidx (Branchpoint.set_shoot last par)) ;;
          update_branchpoints (fun _ => l')
      end
  end.

(** [while bpp.parent is not None: bpp = self.branchpoints[bpp.parent];
    bpp.connections += 1], started at the object [cur]. *)
Fixpoint count_up (fuel : nat) (cur : Branchpoint.t) : M Proc unit :=
  match Branchpoint.parent cur with
  | None => ret tt
  | Some pidx =>
      match fuel with
      | O => diverge
      | S fuel' =>
          p <- get ;;
          let l := branchpoints (self_of p) in
          par <- liftO (getitem l pidx) ;;
          let par' := Branchpoint.incr_connections par in
          l' <- liftO (setitem l pidx par') ;;
          update_branchpoints (fun _ => l') ;;
          count_up fuel' par'
      end
  end.

(** The body of [for bp in self.branchpoints], at position [k]. *)
Definition count_connections (k : Z) : M Proc unit :=
  p <- get ;;
  let l := branchpoints (self_of p) in
  b <- liftO (getitem l k) ;;
  count_up (S (length l)) b.

(** The part of [iterate] after the loop: the result lists are filled. *)
Definition fill_results : M Proc unit :=
  update_branchpoints (fun _ => []) ;;
  p <- get ;;
  forM_ (range (len (bp (self_of p)) / 3)) materialize ;;
  p <- get ;;
  forM_ (range (len (branchpoints (self_of p)))) count_connections ;;
  on_st (on_self (modify (fun s => set_endpoints (map Vector (ep s)) s))).

Definition iterate (newendpointsper1000 maxtime : float) (fuel : nat)
  : M Proc unit :=
  starttime <- time ;;
  let rate := (newendpointsper1000 / 1000)%float in
  t <- (if (0 <? rate)%float then on_st (draw_expovariate rate)
        else ret 1%float) ;;
  p <- get ;;
  generations fuel (range (maxiterations (self_of p)))
    starttime rate maxtime t 0%float ;;
  fill_results.

(** *** The constructor *)

(** The keyword arguments of [SCA(...)]; [kw_startingpoints] holds the [v]
    of each starting point, [kw_volume] the generator [volume()] returns. *)
Record Args : Type := {
  kw_NENDPOINTS : Z;
  kw_d : float;
  kw_NBP : Z;
  kw_KILLDIST : float;
  kw_INFLUENCE : float;
  kw_SEED : Z;
  kw_volume : generator;
  kw_TROPISM : float;
  kw_exclude : vec3 -> bool;
  kw_startingpoints : list vec3;
  kw_apicalcontrol : float;
  kw_apicalcontrolfalloff : float;
  kw_apicaltiming : float
}.

(** [self] after the assignments that precede the two loops. *)
Definition fresh (a : Args) : SCA :=
  {| killdistance := kw_KILLDIST a;
     branchlength := kw_d a;
     maxiterations := kw_NBP a;
     tropism := kw_TROPISM a;
     influence := if (0 <? kw_INFLUENCE a)%float then kw_INFLUENCE a
                  else 1e16%float;
     apicalcontrol := kw_apicalcontrol a;
     apicalcontrolfalloff := kw_apicalcontrolfalloff a;
     apicaltiming := kw_apicaltiming a;
     apicalstep := if (0 <? kw_apicaltiming a)%float
                   then (kw_apicalcontrol a / kw_apicaltiming a)%float
                   else 0%float;
     bp := [0%float; 0%float; 0%float];
     bpg := [0];
     bpp := [None];
     bpc := [0];
     bpa := [0];
     ep := []; epb := []; epv := []; epd := [];
     volumepoint := kw_volume a;
     exclude := kw_exclude a;
     branchpoints := [];
     endpoints := [] |}.

(** [for i in range(NENDPOINTS): self.addEndPoint(next(self.volumepoint))] *)
Definition seed_endpoints (n : Z) : M St unit :=
  forM_ (range n) (fun _ => p <- next_volumepoint ;; on_self (addEndPoint p)).

(** [if len(startingpoints)>0: ...] *)
Definition seed_branchpoints (startingpoints : list vec3) : M St unit :=
  if len startingpoints >? 0 then
    on_self (modify (fun s => set_bpc [] (set_bpp [] (set_bp [] s)))) ;;
    forM_ startingpoints (fun sp => on_self (addBranchPoint sp (-1) 0))
  else ret tt.

(** [SCA(...)]: the outcome of the constructor and the state it leaves. *)
Definition SCA_init (a : Args) : outcome unit * St :=
  (seed_endpoints (kw_NENDPOINTS a) ;;
   seed_branchpoints (kw_startingpoints a))
    {| self := fresh a; rand := seed (kw_SEED a) |}.

(** A complete run in a process: the engine is made, [iterate] is called, and
    the two result lists are read. *)
Definition new_SCA (a : Args) : M Proc unit :=
  fun p => let (o, w) := SCA_init a in (o, set_st w p).

Definition run (a : Args) (newendpointsper1000 maxtime : float) (fuel : nat)
  : M Proc (list Branchpoint.t * list vec3) :=
  new_SCA a ;;
  iterate newendpointsper1000 maxtime fuel ;;
  p <- get ;;
  ret (branchpoints (self_of p), endpoints (self_of p)).

End Engine.

(** ** Sessions: an engine is made, then methods are called on it *)

Inductive call : Type :=
| GrowBranches (generation : Z)
| Iterate (newendpointsper1000 maxtime : float) (fuel : nat)
| AddEndPoint (p : vec3)
| AddBranchPoint (newbp : vec3) (parent generation : Z).

(** The calls that grow the tree by generations or add endpoints. *)
Definition grows (c : call) : bool :=
  match c with
  | AddBranchPoint _ _ _ => false
  | _ => true
  end.

Definition perform {H : Host} (c : call) : M Proc unit :=
  match c with
  | GrowBranches generation => on_st (growBranches generation)
  | Iterate newendpointsper1000 maxtime fuel =>
      iterate newendpointsper1000 maxtime fuel
  | AddEndPoint p => on_st (on_self (addEndPoint p))
  | AddBranchPoint newbp parent generation =>
      on_st (on_self (addBranchPoint newbp parent generation))
  end.

(** The calls stop at the first one that does not return. *)
Definition session {H : Host} (a : Args) (calls : list call) : M Proc unit :=
  bind (new_SCA a) (fun _ => forM_ calls perform).

(** ** A host for the examples *)

(** CPython keeps a set of at most four ints in a table of eight slots, an
    int [b] in slot [hash(b) mod 8] when that slot is free, and enumerates
    the table slot by slot: [slot_order] is that order for keys that fall in
    different slots.  [hash(b)] is [b], except that [hash(-1)] is [-2]. *)
Definition slot (b : Z) : Z := (if b =? -1 then -2 else b) mod 8.

Fixpoint insert_by_slot (b : Z) (l : list Z) : list Z :=
  match l with
  | [] => [b]
  | h :: t => if slot b <? slot h then b :: h :: t else h :: insert_by_slot b t
  end.

Definition slot_order (l : list Z) : list Z :=
  fold_right insert_by_slot [] (nodup Z.eq_dec l).

Lemma insert_by_slot_In b l x : In x (insert_by_slot b l) <-> x = b \/ In x l.
Proof.
  induction l as [|h t IH]; simpl.
  - intuition.
  - destruct (slot b <? slot h); simpl; rewrite ?IH; intuition.
Qed.

Lemma insert_by_slot_NoDup b l :
  ~ In b l -> NoDup l -> NoDup (insert_by_slot b l).
Proof.
  induction l as [|h t IH]; simpl; intros Hb Hl.
  - constructor; [intros [] | constructor].
  - destruct (slot b <? slot h).
    + constructor; [simpl; exact Hb | exact Hl].
    + inversion Hl as [|? ? Hh Ht]; subst. constructor.
      * rewrite insert_by_slot_In. intros [->|Hin]; [apply Hb; now left | now apply Hh].
      * apply IH; [intro; apply Hb; now right | exact Ht].
Qed.

Lemma fold_insert_In l x : In x (fold_right insert_by_slot [] l) <-> In x l.
Proof.
  induction l as [|h t IH]; simpl; [tauto|].
  rewrite insert_by_slot_In, IH. intuition.
Qed.

Lemma slot_order_NoDup l : NoDup (slot_order l).
Proof.
  unfold slot_order.
  assert (Hnd : NoDup (nodup Z.eq_dec l)) by apply NoDup_nodup.
  induction Hnd as [|h t Hh Ht IH]; simpl; [constructor|].
  apply insert_by_slot_NoDup; [now rewrite fold_insert_In | exact IH].
Qed.

Lemma slot_order_In l b : In b (slot_order l) <-> In b l.
Proof. unfold slot_order. now rewrite fold_insert_In, nodup_In. Qed.

(** The rest of the example host: [random] and [expovariate] read their
    values off a tape that [seed] rewinds, a generator yields the points of
    a list and then raises StopIteration, [p ** 1.0] is [p] (no other
    exponent occurs in the examples), and [Vector] keeps the coordinates
    (the examples use coordinates that single precision holds exactly). *)
Definition pop (tape : list float) : float * list float :=
  match tape with
  | [] => (0%float, [])
  | u :: rest => (u, rest)
  end.

Definition list_next (g : list vec3) (r : list float)
  : outcome (vec3 * list vec3) * list float :=
  match g with
  | [] => (Raised StopIteration, r)
  | p :: rest => (Returned (p, rest), r)
  end.

Definition example_host (tape : list float) : Host :=
  {| rng := list float;
     seed := fun _ => tape;
     random := pop;
     expovariate := fun _ => pop;
     generator := list vec3;
     next := list_next;
     pow := fun p e => if (e =? 1)%float then Returned p
                       else Raised OverflowError;
     set_iter := slot_order;
     set_iter_NoDup := slot_order_NoDup;
     set_iter_In := slot_order_In;
     Vector := fun p => p |}.

Definition plain : Host := example_host [].

(** Two attractors, one far along the first axis and one close to the root;
    steps of length 1, nothing killed, unbounded influence. *)
Definition two_attractors : @Args plain :=
  @Build_Args plain 2 1%float 6 0%float 0%float 42
    [(100%float, 0%float, 0%float); (0%float, 0.125%float, 0%float)]
    0%float (fun _ => false) [] 0%float 1%float 0%float.

(** * Properties *)

Unset Implicit Arguments.

(** ** Subscripts and lists *)

Lemma len_app {A} (l l' : list A) : len (l ++ l') = len l + len l'.
Proof. unfold len. rewrite length_app. lia. Qed.

Lemma len_nonneg {A} (l : list A) : 0 <= len l.
Proof. unfold len. lia. Qed.

Lemma py_index_nonneg n i : 0 <= i < n -> py_index n i = Some (Z.to_nat i).
Proof.
  intros Hi. unfold py_index.
  destruct (Z.leb_spec 0 i), (Z.ltb_spec i n); simpl; try lia. reflexivity.
Qed.

Lemma py_index_inv n i k :
  py_index n i = Some k ->
  (0 <= i < n /\ k = Z.to_nat i) \/ (- n <= i < 0 /\ k = Z.to_nat (i + n)).
Proof.
  unfold py_index.
  destruct (Z.leb_spec 0 i), (Z.ltb_spec i n); simpl; intros E.
  - left. inversion E. lia.
  - destruct (Z.ltb_spec i 0), (Z.leb_spec 0 (i + n)); simpl in E;
      try discriminate. lia.
  - destruct (Z.ltb_spec i 0), (Z.leb_spec 0 (i + n)); simpl in E;
      try discriminate. inversion E. right. lia.
  - destruct (Z.ltb_spec i 0), (Z.leb_spec 0 (i + n)); simpl in E;
      try discriminate. inversion E. right. lia.
Qed.

Lemma py_index_lt n i k : py_index n i = Some k -> (Z.of_nat k < n).
Proof. intros E. apply py_index_inv in E. lia. Qed.

Lemma in_range n i : In i (range n) <-> 0 <= i < n.
Proof.
  unfold range. rewrite in_map_iff. split.
  - intros (k & <- & Hk). apply in_seq in Hk. lia.
  - intros Hi. exists (Z.to_nat i). split; [lia|]. apply in_seq. lia.
Qed.

Lemma getitem_nonneg {A} (l : list A) i :
  0 <= i < len l -> getitem l i =
    match nth_error l (Z.to_nat i) with
    | Some a => Returned a
    | None => Raised IndexError
    end.
Proof. intros Hi. unfold getitem. now rewrite py_index_nonneg. Qed.

Lemma getitem_inv {A} (l : list A) i a :
  getitem l i = Returned a ->
  exists k, py_index (len l) i = Some k /\ nth_error l k = Some a.
Proof.
  unfold getitem. destruct (py_index (len l) i) as [k|]; [|discriminate].
  destruct (nth_error l k) as [b|] eqn:E; [|discriminate].
  intros [= ->]. now exists k.
Qed.

Lemma getitem_In {A} (l : list A) i a : getitem l i = Returned a -> In a l.
Proof.
  intros E. apply getitem_inv in E as (k & _ & E). eapply nth_error_In, E.
Qed.

Lemma getitem_total {A} (l : list A) i :
  0 <= i < len l -> exists a, getitem l i = Returned a.
Proof.
  intros Hi. rewrite getitem_nonneg by exact Hi.
  destruct (nth_error l (Z.to_nat i)) as [a|] eqn:E; [now exists a|].
  apply nth_error_None in E. unfold len in Hi. lia.
Qed.

Lemma setitem_inv {A} (l : list A) i a l' :
  setitem l i a = Returned l' ->
  exists k, py_index (len l) i = Some k /\ l' = replace_nth l k a.
Proof.
  unfold setitem. destruct (py_index (len l) i) as [k|]; [|discriminate].
  intros [= <-]. now exists k.
Qed.

Lemma setitem_total {A} (l : list A) i a :
  0 <= i < len l -> setitem l i a = Returned (replace_nth l (Z.to_nat i) a).
Proof. intros Hi. unfold setitem. now rewrite py_index_nonneg. Qed.

Lemma replace_nth_length {A} (l : list A) k a :
  length (replace_nth l k a) = length l.
Proof.
  revert k. induction l as [|h t IH]; intros [|k]; simpl; auto.
Qed.

Lemma nth_error_replace_nth {A} (l : list A) k a j :
  nth_error (replace_nth l k a) j =
  if Nat.eqb j k then (if Nat.ltb k (length l) then Some a else None)
  else nth_error l j.
Proof.
  revert k j. induction l as [|h t IH]; intros k j; simpl.
  - destruct j, k; simpl; try reflexivity. now destruct (Nat.eqb j k).
  - destruct k as [|k], j as [|j]; simpl; try reflexivity.
    rewrite IH. reflexivity.
Qed.

Lemma Forall_replace_nth {A} (P : A -> Prop) (l : list A) k a :
  Forall P l -> P a -> Forall P (replace_nth l k a).
Proof.
  intros Hl Ha. revert k. induction Hl as [|h t Hh Ht IH]; intros [|k]; simpl;
    constructor; auto.
Qed.

Lemma setitem_length {A} (l : list A) i a l' :
  setitem l i a = Returned l' -> length l' = length l.
Proof.
  intros E. apply setitem_inv in E as (k & _ & ->). apply replace_nth_length.
Qed.

Lemma setitem_Forall {A} (P : A -> Prop) (l : list A) i a l' :
  setitem l i a = Returned l' -> Forall P l -> P a -> Forall P l'.
Proof.
  intros E Hl Ha. apply setitem_inv in E as (k & _ & ->).
  now apply Forall_replace_nth.
Qed.

(** ** Facts of binary64 arithmetic

    They are read off the specification of the primitive operations
    ([Prim2SF] and the [SF] functions of the standard library). *)

Definition nonneg (x : spec_float) : Prop :=
  match x with
  | S754_infinity true | S754_finite true _ _ => False
  | _ => True
  end.

Lemma round_aux_nonneg m e l : nonneg (binary_round_aux prec emax false m e l).
Proof.
  unfold binary_round_aux.
  destruct (shr_fexp prec emax m e l) as [mrs' e'].
  destruct (shr_fexp prec emax _ e' loc_Exact) as [mrs'' e''].
  destruct (shr_m mrs''); simpl; auto.
  match goal with |- context [if ?c then _ else _] => destruct c end;
    simpl; auto.
Qed.

Lemma round_nonneg m e : nonneg (binary_round prec emax false m e).
Proof.
  unfold binary_round. destruct (shl_align _ _ _). apply round_aux_nonneg.
Qed.

Lemma SFmul_self_nonneg x : nonneg (SFmul prec emax x x).
Proof.
  destruct x as [s|s| |s m e]; simpl; auto.
  - now destruct s.
  - replace (xorb s s) with false by now destruct s. apply round_aux_nonneg.
Qed.

Lemma SFadd_nonneg x y : nonneg x -> nonneg y -> nonneg (SFadd prec emax x y).
Proof.
  destruct x as [sx|sx| |sx mx ex], y as [sy|sy| |sy my ey]; simpl; auto;
    try (destruct sx; simpl; auto; fail);
    try (destruct sy; simpl; auto; fail);
    try (destruct sx, sy; simpl; auto; fail).
  destruct sx, sy; simpl; try tauto. intros _ _.
  apply round_nonneg.
Qed.

Lemma nonneg_not_lt_zero x : nonneg x -> SFltb x (S754_zero false) = false.
Proof.
  unfold SFltb, SFcompare.
  destruct x as [s|s| |s m e]; simpl; auto; destruct s; simpl; tauto.
Qed.

Lemma sumsq_not_neg (a b c : float) : (a * a + b * b + c * c <? 0)%float = false.
Proof.
  rewrite ltb_spec. change (Prim2SF 0) with (S754_zero false).
  apply nonneg_not_lt_zero.
  rewrite !add_spec, !mul_spec.
  repeat apply SFadd_nonneg; apply SFmul_self_nonneg.
Qed.

Lemma pos_not_le_zero (p : float) : (0 <? p)%float = true -> (p <=? 0)%float = false.
Proof.
  rewrite ltb_spec, leb_spec. change (Prim2SF 0) with (S754_zero false).
  unfold SFltb, SFleb, SFcompare.
  destruct (Prim2SF p) as [s|s| |s m e]; try congruence;
    try (destruct s; congruence).
Qed.

Lemma above_nonneg_not_zero (k d : float) :
  (k <? d)%float = true -> (0 <=? k)%float = true -> (d =? 0)%float = false.
Proof.
  rewrite ltb_spec, leb_spec, eqb_spec. change (Prim2SF 0) with (S754_zero false).
  unfold SFltb, SFleb, SFeqb, SFcompare.
  destruct (Prim2SF k) as [s|s| |s m e], (Prim2SF d) as [s'|s'| |s' m' e'];
    try congruence;
    try (destruct s; congruence); try (destruct s'; congruence);
    try (destruct s, s'; congruence).
Qed.

Definition finite (x : float) : Prop :=
  match Prim2SF x with S754_zero _ | S754_finite _ _ _ => True | _ => False end.

Lemma sub_self (x : float) : finite x -> (x - x)%float = 0%float.
Proof.
  unfold finite. intros Hx. apply Prim2SF_inj. rewrite sub_spec.
  change (Prim2SF 0) with (S754_zero false).
  destruct (Prim2SF x) as [s|s| |s m e]; simpl in *; try tauto.
  - now destruct s.
  - unfold SF64sub. simpl. 
    replace (cond_Zopp s (Z.pos (fst (shl_align m e (Z.min e e)))) - cond_Zopp s (Z.pos (fst (shl_align m e (Z.min e e))))) with 0 by lia.
    reflexivity.
Qed.

Definition ordered (x : float) : Prop := Prim2SF x <> S754_nan.
Lemma ltb_ordered_l x y : (x <? y)%float = true -> ordered x.
Proof.
  rewrite ltb_spec. unfold ordered, SFltb, SFcompare.
  destruct (Prim2SF x); congruence.
Qed.
Lemma leb_ordered_r x y : (x <=? y)%float = true -> ordered y.
Proof.
  rewrite leb_spec. unfold ordered, SFleb, SFcompare.
  destruct (Prim2SF x), (Prim2SF y); congruence.
Qed.

Lemma SFcompare_antisym x y : SFcompare y x = option_map CompOpp (SFcompare x y).
Proof.
  unfold SFcompare.
  destruct x as [s|s| |s m e], y as [s'|s'| |s' m' e']; simpl; auto;
    try (destruct s; reflexivity); try (destruct s'; reflexivity);
    try (destruct s, s'; reflexivity).
  assert (Hm : PosDef.Pos.compare_cont Eq m' m
               = CompOpp (PosDef.Pos.compare_cont Eq m m'))
    by (symmetry; exact (Pos.compare_cont_antisym m m' Eq)).
  rewrite (Z.compare_antisym e' e), Hm.
  destruct s, s'; simpl; auto;
    destruct (e' ?= e); simpl; auto;
    destruct (Pos.compare_cont Eq m m'); reflexivity.
Qed.

Lemma leb_negb_ltb x y : ordered x -> ordered y -> (x <=? y)%float = negb (y <? x)%float.
Proof.
  unfold ordered. rewrite leb_spec, ltb_spec. unfold SFleb, SFltb.
  rewrite (SFcompare_antisym (Prim2SF x) (Prim2SF y)).
  intros Hx Hy.
  destruct (SFcompare (Prim2SF x) (Prim2SF y)) as [[]|] eqn:E; simpl; auto.
  unfold SFcompare in E.
  destruct (Prim2SF x), (Prim2SF y); congruence.
Qed.

(** ** Reasoning about calls: pre- and postconditions *)

(** Runs the plumbing of a call: binds, reads and writes of the state. *)
Ltac mrun := cbv beta iota zeta delta [bind get liftO modify ret diverge].

(** Splits on the first thing the goal matches on. *)
Ltac split_match :=
  match goal with
  | |- context [match ?x with _ => _ end] =>
      let E := fresh "E" in destruct x eqn:E
  end.


(** [hoare P m Q E]: from a state in [P], [m] ends in a state in [Q a] when
    it returns [a], and in a state in [E] when it raises or never ends. *)
Definition hoare {S A} (P : S -> Prop) (m : M S A) (Q : A -> S -> Prop)
  (E : S -> Prop) : Prop :=
  forall w, P w ->
    match m w with
    | (Returned a, w') => Q a w'
    | (_, w') => E w'
    end.

Lemma hoare_ret {S A} (P : S -> Prop) (a : A) (Q : A -> S -> Prop) E :
  (forall w, P w -> Q a w) -> hoare P (ret a) Q E.
Proof. intros HQ w Hw. simpl. auto. Qed.

Lemma hoare_bind {S A B} (P : S -> Prop) (m : M S A) (k : A -> M S B)
  (R : A -> S -> Prop) (Q : B -> S -> Prop) E :
  hoare P m R E -> (forall a, hoare (R a) (k a) Q E) ->
  hoare P (bind m k) Q E.
Proof.
  intros Hm Hk w Hw. unfold bind. specialize (Hm w Hw).
  destruct (m w) as [[a|e|] w']; auto. apply (Hk a w' Hm).
Qed.

Lemma hoare_conseq {S A} (P P' : S -> Prop) (m : M S A)
  (Q Q' : A -> S -> Prop) (E E' : S -> Prop) :
  hoare P' m Q' E' ->
  (forall w, P w -> P' w) -> (forall a w, Q' a w -> Q a w) ->
  (forall w, E' w -> E w) -> hoare P m Q E.
Proof.
  intros Hm HP HQ HE w Hw. specialize (Hm w (HP w Hw)).
  destruct (m w) as [[a|e|] w']; auto.
Qed.

Lemma hoare_liftO {S A} (P : S -> Prop) (o : outcome A) (Q : A -> S -> Prop) E :
  (forall w, P w ->
     match o with Returned a => Q a w | _ => E w end) ->
  hoare P (liftO o) Q E.
Proof. intros Ho w Hw. unfold liftO. specialize (Ho w Hw). now destruct o. Qed.

Lemma hoare_get {S} (P : S -> Prop) (Q : S -> S -> Prop) E :
  (forall w, P w -> Q w w) -> hoare P get Q E.
Proof. intros HQ w Hw. simpl. auto. Qed.

Lemma hoare_modify {S} (P : S -> Prop) (f : S -> S) (Q : unit -> S -> Prop) E :
  (forall w, P w -> Q tt (f w)) -> hoare P (modify f) Q E.
Proof. intros HQ w Hw. simpl. auto. Qed.

Lemma hoare_diverge {S A} (P : S -> Prop) (Q : A -> S -> Prop) (E : S -> Prop) :
  (forall w, P w -> E w) -> hoare P diverge Q E.
Proof. intros HE w Hw. simpl. auto. Qed.

Lemma hoare_forM {S A} (I : S -> Prop) (E : S -> Prop) (l : list A)
  (body : A -> M S unit) :
  (forall a, In a l -> hoare I (body a) (fun _ => I) E) ->
  hoare I (forM_ l body) (fun _ => I) E.
Proof.
  induction l as [|a rest IH]; intros Hb; simpl.
  - apply hoare_ret. auto.
  - eapply hoare_bind.
    + apply Hb. now left.
    + intros u. apply IH. intros b Hin. apply Hb. now right.
Qed.

Lemma bind_unfold {S A B} (m : M S A) (k : A -> M S B) w :
  bind m k w =
  match m w with
  | (Returned a, w') => k a w'
  | (Raised e, w') => (Raised e, w')
  | (Diverged, w') => (Diverged, w')
  end.
Proof. reflexivity. Qed.

Lemma forM_cons {S A} (a : A) (l : list A) (body : A -> M S unit) w :
  forM_ (a :: l) body w =
  match body a w with
  | (Returned _, w') => forM_ l body w'
  | (Raised e, w') => (Raised e, w')
  | (Diverged, w') => (Diverged, w')
  end.
Proof. reflexivity. Qed.

Lemma hoare_zoom {S T A} (proj : T -> S) (inj : S -> T -> T) (m : M S A)
  (P : S -> Prop) (Q : A -> S -> Prop) (E : S -> Prop) :
  (forall s t, proj (inj s t) = s) ->
  hoare P m Q E ->
  hoare (fun t => P (proj t)) (zoom proj inj m)
        (fun a t => Q a (proj t)) (fun t => E (proj t)).
Proof.
  intros Hpi Hm t Ht. unfold zoom. specialize (Hm (proj t) Ht).
  destruct (m (proj t)) as [[a|e|] s']; rewrite Hpi; exact Hm.
Qed.

(** More float facts: values that compare equal to zero. *)

Definition is_zero (d : float) : Prop := (d =? 0)%float = true.

Definition zero_sf (x : spec_float) : Prop :=
  match x with S754_zero _ => True | _ => False end.

Lemma is_zero_sf d : is_zero d <-> zero_sf (Prim2SF d).
Proof.
  unfold is_zero. rewrite eqb_spec. change (Prim2SF 0) with (S754_zero false).
  unfold SFeqb, SFcompare.
  destruct (Prim2SF d) as [s|s| |s m e]; simpl; split; try tauto;
    try discriminate; destruct s; discriminate.
Qed.

(** Neither a NaN nor below zero. *)
Definition proper (d : float) : Prop := ordered d /\ nonneg (Prim2SF d).

Lemma sumsq_nonneg (a b c : float) : nonneg (Prim2SF (a * a + b * b + c * c)).
Proof.
  rewrite !add_spec, !mul_spec.
  repeat apply SFadd_nonneg; apply SFmul_self_nonneg.
Qed.

Lemma proper_not_pos_zero d : proper d -> (0 <? d)%float = false -> is_zero d.
Proof.
  intros [Ho Hn]. rewrite is_zero_sf, ltb_spec.
  change (Prim2SF 0) with (S754_zero false). unfold ordered in Ho.
  unfold SFltb, SFcompare.
  destruct (Prim2SF d) as [s|s| |s m e]; simpl in *; try tauto;
    destruct s; simpl; try tauto; discriminate.
Qed.

Lemma proper_not_above_zero d z :
  proper d -> is_zero z -> (z <? d)%float = false -> is_zero d.
Proof.
  intros [Ho Hn] Hz. apply is_zero_sf in Hz. rewrite is_zero_sf, ltb_spec.
  unfold ordered in Ho. unfold SFltb, SFcompare.
  destruct (Prim2SF z) as [sz|sz| |sz mz ez]; simpl in Hz; try tauto.
  destruct (Prim2SF d) as [s|s| |s m e]; simpl in *; try tauto;
    destruct s; simpl; try tauto; discriminate.
Qed.

Lemma proper_bound : proper 1e30%float.
Proof. split; [unfold ordered; vm_compute; discriminate | vm_compute; exact I]. Qed.

Lemma bound_not_zero : ~ is_zero 1e30%float.
Proof. unfold is_zero. vm_compute. discriminate. Qed.

Lemma nonneg_not_lt_is_zero (d z : float) :
  nonneg (Prim2SF d) -> is_zero z -> (d <? z)%float = false.
Proof.
  intros Hd Hz. apply is_zero_sf in Hz. rewrite ltb_spec.
  unfold SFltb, SFcompare.
  destruct (Prim2SF z) as [sz|sz| |sz mz ez]; simpl in Hz; try tauto.
  destruct (Prim2SF d) as [s|s| |s m e]; simpl in *; try reflexivity;
    destruct s; simpl; tauto.
Qed.

Lemma is_zero_not_neg z : is_zero z -> (z <? 0)%float = false.
Proof.
  intros Hz. apply is_zero_sf in Hz. rewrite ltb_spec.
  change (Prim2SF 0) with (S754_zero false). unfold SFltb, SFcompare.
  destruct (Prim2SF z); simpl in *; tauto.
Qed.

Lemma is_zero_sqrt z : is_zero z -> is_zero (sqrt z).
Proof.
  intros Hz. apply is_zero_sf in Hz. apply is_zero_sf. rewrite sqrt_spec.
  destruct (Prim2SF z); simpl in *; tauto.
Qed.

Lemma math_sqrt_sumsq (a b c : float) :
  math_sqrt (a * a + b * b + c * c) = Returned (sqrt (a * a + b * b + c * c)).
Proof. unfold math_sqrt. now rewrite sumsq_not_neg. Qed.

(** ** The scan of [closest] *)

Lemma getitem_nth (l : list float) j :
  0 <= j < len l -> getitem l j = Returned (nth (Z.to_nat j) l 0%float).
Proof.
  intros Hj. rewrite getitem_nonneg by exact Hj.
  destruct (nth_error l (Z.to_nat j)) as [a|] eqn:E.
  - now rewrite (nth_error_nth _ _ _ E).
  - apply nth_error_None in E. unfold len in Hj. lia.
Qed.

Lemma getitem_nth_error {A} (l : list A) j a :
  0 <= j -> nth_error l (Z.to_nat j) = Some a -> getitem l j = Returned a.
Proof.
  intros Hj E. rewrite getitem_nonneg.
  - now rewrite E.
  - split; [exact Hj|]. unfold len.
    assert (Z.to_nat j < length l)%nat by (apply nth_error_Some; congruence).
    lia.
Qed.

Lemma getitem_nonneg_inv {A} (l : list A) j a :
  0 <= j -> getitem l j = Returned a -> nth_error l (Z.to_nat j) = Some a.
Proof.
  intros Hj E. apply getitem_inv in E as (k & Hk & E).
  apply py_index_inv in Hk as [[_ ->]|[? _]]; [exact E | lia].
Qed.

Section ClosestFacts.
Variables (pos : list float) (count : list Z) (x y z : float).

(** The offset of the query point from branch point [i], and the squared
    length the scan computes for it. *)
Definition offset (i : Z) : vec3 :=
  ((x - nth (Z.to_nat (i * 3)) pos 0)%float,
   (y - nth (Z.to_nat (i * 3 + 1)) pos 0)%float,
   (z - nth (Z.to_nat (i * 3 + 2)) pos 0)%float).

Definition norm2 (v : vec3) : float :=
  let '(a, b, c) := v in (a * a + b * b + c * c)%float.

(** Branch point [i] is scanned and has fewer than two children. *)
Definition open_at (i : Z) : Prop :=
  0 <= i < len pos / 3 /\
  exists c, nth_error count (Z.to_nat i) = Some c /\ c <= 1.

(** Every scanned branch point has a count. *)
Definition counted : Prop :=
  forall i, 0 <= i < len pos / 3 -> exists c, nth_error count (Z.to_nat i) = Some c.

Lemma closest_scan_step i rest d2 best c :
  0 <= i < len pos / 3 -> nth_error count (Z.to_nat i) = Some c ->
  closest_scan pos count x y z (i :: rest) d2 best =
  if c >? 1 then closest_scan pos count x y z rest d2 best
  else if (norm2 (offset i) <? d2)%float
       then closest_scan pos count x y z rest (norm2 (offset i))
              (Some (i, offset i))
       else closest_scan pos count x y z rest d2 best.
Proof.
  intros Hi Hc. simpl.
  rewrite (getitem_nth_error count i c) by (lia || exact Hc).
  simpl. destruct (c >? 1); [reflexivity|].
  assert (Hlen : i * 3 + 2 < len pos).
  { pose proof (Z.mul_div_le (len pos) 3 ltac:(lia)). lia. }
  rewrite !getitem_nth by lia. reflexivity.
Qed.

(** What the scan has bound so far: nothing and the initial bound, or an
    open branch point, its offset and its squared distance. *)
Definition scan_state (d2 : float) (best : option (Z * vec3)) : Prop :=
  match best with
  | None => d2 = 1e30%float
  | Some (i, v) => open_at i /\ v = offset i /\ d2 = norm2 v
  end.

Lemma closest_scan_returns idx d2 best :
  counted -> (forall i, In i idx -> 0 <= i < len pos / 3) ->
  exists d2' best',
    closest_scan pos count x y z idx d2 best = Returned (d2', best') /\
    (scan_state d2 best -> scan_state d2' best') /\
    (best <> None -> best' <> None) /\
    (proper d2 -> proper d2').
Proof.
  intros Hcnt. revert d2 best.
  induction idx as [|i rest IH]; intros d2 best Hidx.
  - exists d2, best. simpl. auto.
  - assert (Hi : 0 <= i < len pos / 3) by (apply Hidx; now left).
    destruct (Hcnt i Hi) as [c Hc].
    rewrite (closest_scan_step i rest d2 best c Hi Hc).
    assert (Hrest : forall j, In j rest -> 0 <= j < len pos / 3)
      by (intros j Hj; apply Hidx; now right).
    destruct (Z.gtb_spec c 1) as [Hfull|Hopen].
    + apply (IH d2 best Hrest).
    + destruct (norm2 (offset i) <? d2)%float eqn:Hlt.
      * destruct (IH (norm2 (offset i)) (Some (i, offset i)) Hrest)
          as (d2' & best' & E & Hst & Hsome & Hprop).
        exists d2', best'. split; [exact E|]. split; [|split].
        -- intros _. apply Hst. simpl. repeat split; try lia.
           exists c. split; [exact Hc | lia].
        -- intros _. apply Hsome. discriminate.
        -- intros _. apply Hprop. split.
           ++ eapply ltb_ordered_l, Hlt.
           ++ unfold norm2, offset. apply sumsq_nonneg.
      * apply (IH d2 best Hrest).
Qed.

(** Nothing is bound when no open branch point is nearer than the initial
    bound. *)
Lemma closest_scan_unbound idx :
  counted -> (forall i, In i idx -> 0 <= i < len pos / 3) ->
  (forall i, In i idx -> open_at i ->
             (norm2 (offset i) <? 1e30)%float = false) ->
  closest_scan pos count x y z idx 1e30%float None
  = Returned (1e30%float, None).
Proof.
  intros Hcnt. induction idx as [|i rest IH]; intros Hidx Hfar;
    [reflexivity|].
  assert (Hi : 0 <= i < len pos / 3) by (apply Hidx; now left).
  destruct (Hcnt i Hi) as [c Hc].
  rewrite (closest_scan_step i rest _ _ c Hi Hc).
  assert (E : closest_scan pos count x y z rest 1e30%float None
              = Returned (1e30%float, None)).
  { apply IH; intros j Hj; [apply Hidx | apply Hfar]; now right. }
  destruct (Z.gtb_spec c 1) as [Hfull|Hopen]; [exact E|].
  rewrite Hfar; [exact E | now left |].
  split; [exact Hi|]. exists c. split; [exact Hc | lia].
Qed.

(** Something is bound once an open branch point is nearer than the
    initial bound. *)
Lemma closest_scan_binds idx d2 best :
  counted -> (forall i, In i idx -> 0 <= i < len pos / 3) ->
  scan_state d2 best ->
  (exists i, In i idx /\ open_at i /\ (norm2 (offset i) <? 1e30)%float = true) ->
  exists d2' i' v',
    closest_scan pos count x y z idx d2 best = Returned (d2', Some (i', v')) /\
    scan_state d2' (Some (i', v')).
Proof.
  intros Hcnt. revert d2 best.
  induction idx as [|i rest IH]; intros d2 best Hidx Hst (j & Hj & Hopen & Hnear).
  - destruct Hj.
  - assert (Hi : 0 <= i < len pos / 3) by (apply Hidx; now left).
    destruct (Hcnt i Hi) as [c Hc].
    rewrite (closest_scan_step i rest d2 best c Hi Hc).
    assert (Hrest : forall k, In k rest -> 0 <= k < len pos / 3)
      by (intros k Hk; apply Hidx; now right).
    assert (Hdone : forall d b, scan_state d b -> b <> None ->
              exists d2' i' v',
                closest_scan pos count x y z rest d b
                = Returned (d2', Some (i', v')) /\
                scan_state d2' (Some (i', v'))).
    { intros d b Hs Hb.
      destruct (closest_scan_returns rest d b Hcnt Hrest)
        as (d2' & best' & E & Hst' & Hsome & _).
      specialize (Hst' Hs). specialize (Hsome Hb).
      destruct best' as [[i' v']|]; [|congruence].
      now exists d2', i', v'. }
    destruct (Z.gtb_spec c 1) as [Hfull|Hnotfull].
    + apply (IH d2 best Hrest Hst). exists j. destruct Hj as [->|Hj]; [|tauto].
      destruct Hopen as (_ & c' & Hc' & Hle). rewrite Hc in Hc'.
      inversion Hc'. lia.
    + destruct (norm2 (offset i) <? d2)%float eqn:Hlt.
      * apply Hdone; [|discriminate]. simpl. repeat split; try lia.
        exists c. split; [exact Hc | lia].
      * destruct Hj as [->|Hj].
        -- apply (Hdone d2 best Hst). intros ->. simpl in Hst. subst d2.
           congruence.
        -- apply (IH d2 best Hrest Hst). now exists j.
Qed.

(** A squared distance of zero, once met, is what the scan ends with. *)
Lemma closest_scan_zero idx d2 best :
  counted -> (forall i, In i idx -> 0 <= i < len pos / 3) ->
  scan_state d2 best -> proper d2 ->
  is_zero d2 \/
  (exists i, In i idx /\ open_at i /\ is_zero (norm2 (offset i))) ->
  exists d2' best',
    closest_scan pos count x y z idx d2 best = Returned (d2', best') /\
    scan_state d2' best' /\ is_zero d2'.
Proof.
  intros Hcnt. revert d2 best.
  induction idx as [|i rest IH]; intros d2 best Hidx Hst Hpr Hz.
  - exists d2, best. simpl. destruct Hz as [Hz|(j & [] & _)]. auto.
  - assert (Hi : 0 <= i < len pos / 3) by (apply Hidx; now left).
    destruct (Hcnt i Hi) as [c Hc].
    rewrite (closest_scan_step i rest d2 best c Hi Hc).
    assert (Hrest : forall k, In k rest -> 0 <= k < len pos / 3)
      by (intros k Hk; apply Hidx; now right).
    assert (Hnn : nonneg (Prim2SF (norm2 (offset i))))
      by (unfold norm2, offset; apply sumsq_nonneg).
    destruct (Z.gtb_spec c 1) as [Hfull|Hnotfull].
    + apply (IH d2 best Hrest Hst Hpr).
      destruct Hz as [Hz|(j & [->|Hj] & Hopen & Hzero)]; [now left | |].
      * destruct Hopen as (_ & c' & Hc' & Hle). rewrite Hc in Hc'.
        inversion Hc'. lia.
      * right. now exists j.
    + destruct (norm2 (offset i) <? d2)%float eqn:Hlt.
      * apply IH; [exact Hrest | | |].
        -- simpl. repeat split; try lia. exists c. split; [exact Hc | lia].
        -- split; [eapply ltb_ordered_l, Hlt | exact Hnn].
        -- destruct Hz as [Hz|(j & [->|Hj] & Hopen & Hzero)].
           ++ rewrite (nonneg_not_lt_is_zero _ _ Hnn Hz) in Hlt. discriminate.
           ++ now left.
           ++ right. now exists j.
      * apply (IH d2 best Hrest Hst Hpr).
        destruct Hz as [Hz|(j & [->|Hj] & Hopen & Hzero)]; [now left | |].
        -- left. eapply proper_not_above_zero; eauto.
        -- right. now exists j.
Qed.

(** Whatever the lists hold, an index the scan binds was scanned and had
    a count of at most one. *)
Lemma closest_scan_sound (G : Z -> Prop) idx :
  (forall i, In i idx ->
     (exists c, getitem count i = Returned c /\ c <= 1) -> G i) ->
  forall d2 best d2' best',
  closest_scan pos count x y z idx d2 best = Returned (d2', best') ->
  (forall i v, best = Some (i, v) -> G i) ->
  forall i v, best' = Some (i, v) -> G i.
Proof.
  induction idx as [|j rest IH]; intros HG d2 best d2' best' E Hb i v Hi.
  - simpl in E. injection E as <- <-. eapply Hb, Hi.
  - simpl in E.
    assert (HG' : forall k, In k rest ->
              (exists c, getitem count k = Returned c /\ c <= 1) -> G k)
      by (intros k Hk; apply HG; now right).
    destruct (getitem count j) as [c| |] eqn:Ec; simpl in E; try discriminate.
    destruct (Z.gtb_spec c 1) as [Hfull|Hopen].
    + eapply (IH HG' _ _ _ _ E Hb), Hi.
    + destruct (getitem pos (j * 3)) as [px| |]; simpl in E; try discriminate.
      destruct (getitem pos (j * 3 + 1)) as [py| |]; simpl in E;
        try discriminate.
      destruct (getitem pos (j * 3 + 2)) as [pz| |]; simpl in E;
        try discriminate.
      match type of E with
      | (if ?b then _ else _) = _ => destruct b
      end.
      * eapply (IH HG' _ _ _ _ E); [|exact Hi].
        intros i0 v0 Hs. injection Hs as <- _. apply HG; [now left|].
        exists c. split; [exact Ec | lia].
      * eapply (IH HG' _ _ _ _ E Hb), Hi.
Qed.

End ClosestFacts.

(** ** closestBranchPoint *)

Section EngineFacts.
Context {H : Host}.

(** Branch point [i] of the store has fewer than two children. *)
Definition growable (s : SCA) (i : Z) : Prop := open_at (bp s) (bpc s) i.

(** The squared distance from [p] to branch point [i], as the scan
    computes it. *)
Definition squared_distance (s : SCA) (p : vec3) (i : Z) : float :=
  let '(x, y, z) := p in norm2 (offset (bp s) x y z i).

(** Every branch point in [self.bp] has a count in [self.bpc]. *)
Definition store_counted (s : SCA) : Prop := counted (bp s) (bpc s).

(** Every branch point has two children or more (none, in an empty store). *)
Definition all_full (s : SCA) : Prop :=
  forall i, 0 <= i < len (bp s) / 3 ->
    exists c, nth_error (bpc s) (Z.to_nat i) = Some c /\ 1 < c.

(** Branch point [i] lies at [p], a point with finite coordinates. *)
Definition located (s : SCA) (i : Z) (p : vec3) : Prop :=
  let '(x, y, z) := p in
  nth (Z.to_nat (i * 3)) (bp s) 0%float = x /\
  nth (Z.to_nat (i * 3 + 1)) (bp s) 0%float = y /\
  nth (Z.to_nat (i * 3 + 2)) (bp s) 0%float = z /\
  finite x /\ finite y /\ finite z.

Lemma located_zero s i p : located s i p -> is_zero (squared_distance s p i).
Proof.
  destruct p as [[x y] z]. unfold located, squared_distance, offset, norm2.
  intros (-> & -> & -> & Hx & Hy & Hz).
  rewrite !sub_self by assumption. reflexivity.
Qed.

Lemma all_full_counted s : all_full s -> store_counted s.
Proof. intros Hf i Hi. destruct (Hf i Hi) as (c & Hc & _). now exists c. Qed.

(** The rest of [closestBranchPoint] once the scan has bound [i] and [v]. *)
Lemma closestBranchPoint_bound s x y z d2 i v :
  closest (bp s) (bpc s) x y z (len (bp s) / 3) = Returned (d2, i, v) ->
  d2 = norm2 v ->
  closestBranchPoint s (x, y, z) =
  if (sqrt d2 =? 0)%float then Raised ZeroDivisionError
  else let '(v0, v1, v2) := v in
       Returned (if (sqrt d2 <? influence s)%float then i else -2,
                 ((v0 / sqrt d2)%float, (v1 / sqrt d2)%float,
                  (v2 / sqrt d2)%float), sqrt d2).
Proof.
  intros E Hd. unfold closestBranchPoint. rewrite E. simpl.
  destruct v as [[v0 v1] v2]. simpl in Hd. subst d2.
  rewrite math_sqrt_sumsq. simpl. unfold truediv.
  destruct (sqrt (v0 * v0 + v1 * v1 + v2 * v2) =? 0)%float; reflexivity.
Qed.

Lemma closest_of_scan s x y z d2 i v :
  closest_scan (bp s) (bpc s) x y z (range (len (bp s) / 3)) 1e30%float None
  = Returned (d2, Some (i, v)) ->
  closest (bp s) (bpc s) x y z (len (bp s) / 3) = Returned (d2, i, v).
Proof. intros E. unfold closest. rewrite E. reflexivity. Qed.

Lemma closestBranchPoint_unbound s p :
  store_counted s ->
  (forall i, growable s i -> (squared_distance s p i <? 1e30)%float = false) ->
  closestBranchPoint s p = Raised UnboundLocalError.
Proof.
  destruct p as [[x y] z]. intros Hcnt Hfar.
  unfold closestBranchPoint, closest.
  rewrite closest_scan_unbound; [reflexivity | exact Hcnt | |].
  - intros i Hi. now apply in_range.
  - intros i _ Hopen. apply (Hfar i Hopen).
Qed.

Lemma closestBranchPoint_zero s p :
  store_counted s ->
  (exists i, growable s i /\ is_zero (squared_distance s p i)) ->
  closestBranchPoint s p = Raised ZeroDivisionError.
Proof.
  destruct p as [[x y] z]. intros Hcnt (j & Hopen & Hzero).
  destruct (closest_scan_zero (bp s) (bpc s) x y z
              (range (len (bp s) / 3)) 1e30%float None Hcnt)
    as (d2 & best & E & Hst & Hz).
  - intros i Hi. now apply in_range.
  - reflexivity.
  - exact proper_bound.
  - right. exists j. split; [|split; assumption].
    apply in_range. apply Hopen.
  - destruct best as [[i v]|].
    + destruct Hst as (_ & _ & Hd).
      rewrite (closestBranchPoint_bound s x y z d2 i v
                 (closest_of_scan s x y z d2 i v E) Hd).
      apply is_zero_sqrt in Hz. unfold is_zero in Hz. now rewrite Hz.
    + simpl in Hst. subst d2. now apply bound_not_zero in Hz.
Qed.

Lemma closestBranchPoint_returns s p :
  store_counted s ->
  (exists i, growable s i /\ (squared_distance s p i <? 1e30)%float = true) ->
  (forall i, growable s i ->
             (sqrt (squared_distance s p i) =? 0)%float = false) ->
  exists bi v d, closestBranchPoint s p = Returned (bi, v, d).
Proof.
  destruct p as [[x y] z]. intros Hcnt (j & Hopen & Hnear) Hnz.
  destruct (closest_scan_binds (bp s) (bpc s) x y z
              (range (len (bp s) / 3)) 1e30%float None Hcnt)
    as (d2 & i & v & E & Hi & Hv & Hd).
  - intros i Hi. now apply in_range.
  - reflexivity.
  - exists j. split; [|split; assumption]. apply in_range. apply Hopen.
  - rewrite (closestBranchPoint_bound s x y z d2 i v
               (closest_of_scan s x y z d2 i v E) Hd).
    specialize (Hnz i Hi). unfold squared_distance in Hnz.
    rewrite <- Hv, <- Hd in Hnz. rewrite Hnz.
    destruct v as [[v0 v1] v2]. eauto.
Qed.

(** Whatever the store holds, an index that is returned is -2 or the index
    of a branch point with at most one child. *)
Lemma closestBranchPoint_sound s p bi v d :
  closestBranchPoint s p = Returned (bi, v, d) -> bi = -2 \/ growable s bi.
Proof.
  destruct p as [[x y] z]. unfold closestBranchPoint, closest.
  destruct (closest_scan (bp s) (bpc s) x y z (range (len (bp s) / 3))
              1e30%float None) as [[d2 best]| |] eqn:E; simpl;
    try discriminate.
  destruct best as [[ci [[b0 b1] b2]]|]; simpl; [|discriminate].
  assert (Hci : growable s ci).
  { eapply (closest_scan_sound (bp s) (bpc s) x y z (growable s)).
    - intros i Hi (c & Hc & Hle). apply in_range in Hi.
      split; [exact Hi|]. exists c. split; [|exact Hle].
      apply getitem_nonneg_inv; [lia | exact Hc].
    - exact E.
    - discriminate.
    - reflexivity. }
  destruct (math_sqrt d2) as [r| |]; simpl; try discriminate.
  destruct (truediv b0 r); simpl; try discriminate.
  destruct (truediv b1 r); simpl; try discriminate.
  destruct (truediv b2 r); simpl; try discriminate.
  intros [= <- _ _]. destruct (r <? influence s)%float; auto.
Qed.

(** C7.  Whatever the query point and the store, what [closestBranchPoint]
    returns is the out-of-range sentinel -2 or the index of a branch point
    with at most one child, never the index of one with two or more; and it
    does return when every branch point has a count, some growable one lies
    at a squared distance under the scan's bound and none at distance
    zero. *)
Theorem closestBranchPoint_never_full (s : SCA) (p : vec3) :
  match closestBranchPoint s p with
  | Returned (bi, _, _) =>
      (bi = -2 \/ growable s bi) /\
      (forall c, 0 <= bi -> nth_error (bpc s) (Z.to_nat bi) = Some c -> c < 2)
  | _ => True
  end /\
  (store_counted s ->
   (exists i, growable s i /\ (squared_distance s p i <? 1e30)%float = true) ->
   (forall i, growable s i ->
              (sqrt (squared_distance s p i) =? 0)%float = false) ->
   exists bi v d, closestBranchPoint s p = Returned (bi, v, d)).
Proof.
  split; [|apply closestBranchPoint_returns].
  destruct (closestBranchPoint s p) as [[[bi v] d]| |] eqn:E; auto.
  pose proof (closestBranchPoint_sound s p bi v d E) as Hs.
  split; [exact Hs|].
  intros c Hpos Hc. destruct Hs as [->|(_ & c' & Hc' & Hle)]; [lia|].
  rewrite Hc in Hc'. inversion Hc'. lia.
Qed.

(** C10, as amended.  [closestBranchPoint] raises UnboundLocalError when
    every branch point is full or the store is empty, and more generally
    when no growable branch point lies at a squared distance under the
    scan's initial bound 1e30; it raises ZeroDivisionError when a growable
    branch point lies at the query point (any whose squared distance
    computes to zero); and it returns when some growable branch point lies
    under the bound and none at distance zero. *)
Theorem closestBranchPoint_defined (s : SCA) (p : vec3) :
  (all_full s -> closestBranchPoint s p = Raised UnboundLocalError) /\
  (store_counted s ->
   (forall i, growable s i ->
              (squared_distance s p i <? 1e30)%float = false) ->
   closestBranchPoint s p = Raised UnboundLocalError) /\
  (store_counted s ->
   (exists i, growable s i /\
              (located s i p \/ is_zero (squared_distance s p i))) ->
   closestBranchPoint s p = Raised ZeroDivisionError) /\
  (store_counted s ->
   (exists i, growable s i /\ (squared_distance s p i <? 1e30)%float = true) ->
   (forall i, growable s i ->
              (sqrt (squared_distance s p i) =? 0)%float = false) ->
   exists bi v d, closestBranchPoint s p = Returned (bi, v, d)).
Proof.
  split; [|split; [|split]].
  - intros Hfull. apply closestBranchPoint_unbound.
    + now apply all_full_counted.
    + intros i (Hi & c & Hc & Hle). destruct (Hfull i Hi) as (c' & Hc' & Hlt).
      rewrite Hc in Hc'. inversion Hc'. lia.
  - apply closestBranchPoint_unbound.
  - intros Hcnt (i & Hi & Hz). apply closestBranchPoint_zero; [exact Hcnt|].
    exists i. split; [exact Hi|]. destruct Hz as [Hz|Hz]; [|exact Hz].
    now apply located_zero.
  - apply closestBranchPoint_returns.
Qed.

End EngineFacts.

(** ** shootSupressed *)

Section ShootFacts.
Context {H : Host}.

(** C8.  With [apicalcontrol <= 0] the answer is False and nothing is drawn;
    otherwise, with [p = 1 - apicalcontrolfactor * apicalcontrol]: when
    [p <= 0] the answer is True and nothing is drawn; when [p > 0] and
    [p ** apicalcontrolfalloff] is [q], one number [u] is drawn and the
    answer is [u > q]; when the power overflows, so does the call. *)
Theorem shootSupressed_cases (apicalcontrolfactor : float) (w : St) :
  let control := apicalcontrol (self w) in
  let p := (1 - apicalcontrolfactor * control)%float in
  ((control <=? 0)%float = true ->
   shootSupressed apicalcontrolfactor w = (Returned false, w)) /\
  ((control <=? 0)%float = false ->
   ((p <=? 0)%float = true ->
    shootSupressed apicalcontrolfactor w = (Returned true, w)) /\
   ((0 <? p)%float = true ->
    forall q, pow p (apicalcontrolfalloff (self w)) = Returned q ->
    shootSupressed apicalcontrolfactor w =
    (Returned (q <? fst (random (rand w)))%float,
     set_rand (snd (random (rand w))) w)) /\
   ((0 <? p)%float = true ->
    forall e, pow p (apicalcontrolfalloff (self w)) = Raised e ->
    shootSupressed apicalcontrolfactor w = (Raised e, w))).
Proof.
  intros control p. unfold shootSupressed, bind, get. fold control.
  split; [intros ->; reflexivity|].
  intros ->. fold p. split; [intros ->; reflexivity|].
  split; intros Hp; rewrite (pos_not_le_zero p Hp); intros r Hr;
    unfold liftO; rewrite Hr; [|reflexivity].
  unfold draw_random. destruct (random (rand w)) as [u r']. reflexivity.
Qed.

End ShootFacts.

(** ** Loops over [enumerate] and [zip] *)

Lemma nth_error_combine {A B} (l1 : list A) (l2 : list B) k a b :
  nth_error (combine l1 l2) k = Some (a, b) <->
  nth_error l1 k = Some a /\ nth_error l2 k = Some b.
Proof.
  revert l2 k. induction l1 as [|h1 t1 IH]; intros [|h2 t2] [|k]; simpl;
    try (split; [discriminate | intros [? ?]; discriminate]).
  - split; [intros [= -> ->]; auto | intros [[= ->] [= ->]]; auto].
  - apply IH.
Qed.

Lemma nth_error_enumerate_from {A} (l : list A) j k :
  nth_error (combine (map Z.of_nat (seq j (length l))) l) k =
  match nth_error l k with
  | Some a => Some (Z.of_nat (j + k), a)
  | None => None
  end.
Proof.
  revert j k. induction l as [|h t IH]; intros j [|k]; simpl; try reflexivity.
  - now rewrite Nat.add_0_r.
  - rewrite IH. now rewrite Nat.add_succ_r.
Qed.

Lemma enumerate_unfold {A} (l : list A) :
  enumerate l = combine (map Z.of_nat (seq 0 (length l))) l.
Proof. unfold enumerate, range, len. now rewrite Nat2Z.id. Qed.

Lemma nth_error_enumerate {A} (l : list A) k :
  nth_error (enumerate l) k =
  match nth_error l k with
  | Some a => Some (Z.of_nat k, a)
  | None => None
  end.
Proof. rewrite enumerate_unfold. apply nth_error_enumerate_from. Qed.

Lemma in_enumerate {A} (l : list A) i a :
  In (i, a) (enumerate l) -> 0 <= i /\ nth_error l (Z.to_nat i) = Some a.
Proof.
  intros Hin. apply In_nth_error in Hin as [k Hk].
  rewrite nth_error_enumerate in Hk.
  destruct (nth_error l k) as [a'|] eqn:E; [|discriminate].
  injection Hk as <- <-. rewrite Nat2Z.id. split; [lia | exact E].
Qed.

(** A loop over [enumerate(l)] whose invariant counts the items done. *)
Lemma hoare_forM_enumerate {S A} (I : nat -> S -> Prop) (E : S -> Prop)
  (l : list A) (body : Z * A -> M S unit) :
  (forall k a, nth_error l k = Some a ->
     hoare (I k) (body (Z.of_nat k, a)) (fun _ => I (Datatypes.S k)) E) ->
  hoare (I O) (forM_ (enumerate l) body) (fun _ => I (length l)) E.
Proof.
  rewrite enumerate_unfold. intros Hbody.
  assert (Hgen : forall l' j,
    (forall k a, nth_error l' k = Some a ->
       hoare (I (j + k)%nat) (body (Z.of_nat (j + k), a))
             (fun _ => I (Datatypes.S (j + k))) E) ->
    hoare (I j) (forM_ (combine (map Z.of_nat (seq j (length l'))) l') body)
          (fun _ => I (j + length l')%nat) E).
  { induction l' as [|h t IH]; intros j Hb; simpl.
    - apply hoare_ret. intros w Hw. now rewrite Nat.add_0_r.
    - eapply hoare_bind.
      + specialize (Hb O h eq_refl). rewrite Nat.add_0_r in Hb. exact Hb.
      + intros u. eapply hoare_conseq.
        * apply (IH (Datatypes.S j)). intros k a Hk.
          specialize (Hb (Datatypes.S k) a Hk).
          now rewrite Nat.add_succ_r in Hb.
        * auto.
        * intros a w Hw. simpl in Hw. now rewrite Nat.add_succ_r.
        * auto. }
  apply (Hgen l O). intros k a Hk. simpl. now apply Hbody.
Qed.

(** ** addBranchPoint, part by part *)

Section BranchFacts.
Context {H : Host}.

(** [s'] is [s] but for the lists that describe the endpoints' ties. *)
Definition ep_frame (s s' : SCA) : Prop :=
  exists v' d' b', s' = set_epb b' (set_epd d' (set_epv v' s)).

(** [s'] is [s] but for the lists that describe the branch points. *)
Definition tree_frame (s s' : SCA) : Prop :=
  exists b g p c a,
    s' = set_bpa a (set_bpc c (set_bpp p (set_bpg g (set_bp b s)))).

Lemma ep_frame_refl s : ep_frame s s.
Proof. exists (epv s), (epd s), (epb s). now destruct s. Qed.

Lemma tree_frame_refl s : tree_frame s s.
Proof. exists (bp s), (bpg s), (bpp s), (bpc s), (bpa s). now destruct s. Qed.

Lemma ep_frame_trans s1 s2 s3 : ep_frame s1 s2 -> ep_frame s2 s3 -> ep_frame s1 s3.
Proof.
  intros (v & d & b & ->) (v' & d' & b' & ->). now exists v', d', b'.
Qed.

Lemma tree_frame_trans s1 s2 s3 :
  tree_frame s1 s2 -> tree_frame s2 s3 -> tree_frame s1 s3.
Proof.
  intros (b & g & p & c & a & ->) (b' & g' & p' & c' & a' & ->).
  now exists b', g', p', c', a'.
Qed.

Lemma ep_frame_tree s s' :
  ep_frame s s' ->
  bp s' = bp s /\ bpc s' = bpc s /\ bpp s' = bpp s /\ bpg s' = bpg s /\
  bpa s' = bpa s /\ ep s' = ep s /\ influence s' = influence s /\
  killdistance s' = killdistance s.
Proof. intros (v & d & b & ->). simpl. repeat split. Qed.

Lemma tree_frame_ep s s' :
  tree_frame s s' ->
  ep s' = ep s /\ epb s' = epb s /\ epv s' = epv s /\ epd s' = epd s /\
  influence s' = influence s /\ killdistance s' = killdistance s.
Proof. intros (b & g & p & c & a & ->). simpl. repeat split. Qed.

Lemma growable_frame s s' i :
  bp s' = bp s -> bpc s' = bpc s -> growable s' i <-> growable s i.
Proof. unfold growable. now intros -> ->. Qed.

Lemma closestBranchPoint_frame s s' p :
  bp s' = bp s -> bpc s' = bpc s -> influence s' = influence s ->
  closestBranchPoint s' p = closestBranchPoint s p.
Proof. unfold closestBranchPoint. now intros -> -> ->. Qed.

(** *** The walk up the parents *)

Lemma stamp_lineage_frame fuel ppi gen s :
  exists g, snd (stamp_lineage fuel ppi gen s) = set_bpg g s.
Proof.
  revert ppi s. induction fuel as [|fuel IH]; intros [i|] s; simpl;
    try (exists (bpg s); now destruct s).
  unfold bind, get, liftO, modify.
  destruct (setitem (bpg s) i gen) as [g| |]; simpl;
    try (exists (bpg s); now destruct s).
  destruct (getitem (bpp s) i) as [ppi'| |]; simpl; try now exists g.
  destruct (IH ppi' (set_bpg g s)) as [g' Hg']. exists g'.
  rewrite Hg'. reflexivity.
Qed.

(** *** The appends and the parent's count *)

Lemma as_int_inv v w :
  as_int v = Returned w -> w = v /\ INT_MIN <= v <= INT_MAX.
Proof.
  unfold as_int.
  destruct (Z.leb_spec INT_MIN v), (Z.leb_spec v INT_MAX); cbn [andb];
    intros [= <-]. split; [reflexivity | lia].
Qed.

Lemma as_int_in_range v :
  INT_MIN <= v <= INT_MAX -> as_int v = Returned v.
Proof.
  intros Hv. unfold as_int.
  destruct (Z.leb_spec INT_MIN v), (Z.leb_spec v INT_MAX); try lia.
  reflexivity.
Qed.

Lemma append_branchpoint_spec newbp parent gen s :
  let '(n0, n1, n2) := newbp in
  let '(o, s') := append_branchpoint newbp parent gen s in
  tree_frame s s' /\ bp s' = bp s ++ [n0; n1; n2] /\
  match o with
  | Returned _ =>
      exists c, getitem (bpc s ++ [0]) parent = Returned c /\
                setitem (bpc s ++ [0]) parent (c + 1) = Returned (bpc s')
  | _ => bpc s' = bpc s \/ bpc s' = bpc s ++ [0]
  end.
Proof.
  destruct newbp as [[n0 n1] n2].
  unfold append_branchpoint, incr_bpc. mrun.
  match goal with
  | |- context [stamp_lineage ?f ?p ?g ?w] =>
      destruct (stamp_lineage_frame f p g w) as [g' Hg'];
      destruct (stamp_lineage f p g w) as [[u|e|] w'] eqn:Est
  end; simpl in Hg'; subst w'; simpl.
  - assert (Hfail : tree_frame s
              (set_bpa (bpa s ++ [0])
                 (set_bpc (bpc s ++ [0])
                    (set_bpp (bpp s ++ [Some parent])
                       (set_bpg g' (set_bp (bp s ++ [n0; n1; n2]) s))))))
      by now exists (bp s ++ [n0; n1; n2]), g', (bpp s ++ [Some parent]),
           (bpc s ++ [0]), (bpa s ++ [0]).
    destruct (getitem (bpc s ++ [0]) parent) as [c| |] eqn:Ec; simpl;
      try (split; [exact Hfail | split; [reflexivity | now right]]).
    destruct (as_int (c + 1)) as [v| |] eqn:Ev; simpl;
      try (split; [exact Hfail | split; [reflexivity | now right]]).
    apply as_int_inv in Ev as [-> _].
    destruct (setitem (bpc s ++ [0]) parent (c + 1)) as [l| |] eqn:El; simpl;
      try (split; [exact Hfail | split; [reflexivity | now right]]).
    split; [|split; [reflexivity|]].
    + now exists (bp s ++ [n0; n1; n2]), g', (bpp s ++ [Some parent]),
        l, (bpa s ++ [0]).
    + now exists c.
  - split; [|split; [reflexivity | now left]].
    exists (bp s ++ [n0; n1; n2]), g', (bpp s), (bpc s), (bpa s).
    now destruct s.
  - split; [|split; [reflexivity | now left]].
    exists (bp s ++ [n0; n1; n2]), g', (bpp s), (bpc s), (bpa s).
    now destruct s.
Qed.

(** *** The loop that attracts the endpoints *)

(** [new] is [old] but at places that did not hold -1, where it may hold a
    value in [allowed]. *)
Definition epb_moved (allowed : Z -> Prop) (old new : list Z) : Prop :=
  length new = length old /\
  forall k, nth_error new k = nth_error old k \/
            (nth_error old k <> Some (-1) /\
             exists b, nth_error new k = Some b /\ allowed b).

Lemma epb_moved_refl allowed l : epb_moved allowed l l.
Proof. split; auto. Qed.

Lemma epb_moved_setitem allowed old cur epi b l :
  epb_moved allowed old cur -> setitem cur epi b = Returned l -> 0 <= epi ->
  nth_error old (Z.to_nat epi) <> Some (-1) -> allowed b ->
  epb_moved allowed old l.
Proof.
  intros [Hlen Hm] Hset Hpos Hold Hb.
  apply setitem_inv in Hset as (k & Hk & ->).
  apply py_index_inv in Hk as [[Hk ->]|[Hk _]]; [|lia].
  split; [now rewrite replace_nth_length|].
  intros j. rewrite nth_error_replace_nth.
  destruct (Nat.eqb_spec j (Z.to_nat epi)) as [->|Hne]; [|apply Hm].
  right. split; [exact Hold|]. exists b. split; [|exact Hb].
  destruct (Nat.ltb_spec (Z.to_nat epi) (length cur)); [reflexivity|].
  unfold len in Hk. lia.
Qed.

Lemma epb_moved_dead allowed old new k :
  epb_moved allowed old new -> nth_error old k = Some (-1) ->
  nth_error new k = Some (-1).
Proof.
  intros [_ Hm] Hk. destruct (Hm k) as [->|[Hne _]]; [exact Hk | congruence].
Qed.

Ltac reframe Hf :=
  destruct Hf as (? & ? & ? & ->);
  match goal with
  | |- ep_frame _ ?X => exists (epv X), (epd X), (epb X); reflexivity
  end.

Lemma attract_weak s0 newbp bi epi e d0 b0 s :
  0 <= epi -> nth_error (epb s0) (Z.to_nat epi) = Some b0 ->
  ep_frame s0 s ->
  epb_moved (fun b => b = bi \/ b = -1 \/ b = -2) (epb s0) (epb s) ->
  ep_frame s0 (snd (attract newbp bi (epi, (e, (d0, b0))) s)) /\
  epb_moved (fun b => b = bi \/ b = -1 \/ b = -2) (epb s0)
    (epb (snd (attract newbp bi (epi, (e, (d0, b0))) s))).
Proof.
  intros Hpos Hb0 Hf Hm. unfold attract.
  destruct e as [[e0 e1] e2], newbp as [[n0 n1] n2].
  destruct (Z.eqb_spec b0 (-1)) as [->|Hlive]; [now split|].
  assert (Hold : nth_error (epb s0) (Z.to_nat epi) <> Some (-1))
    by (rewrite Hb0; congruence).
  mrun. repeat (split_match; simpl in *);
    (split; [reframe Hf|]); simpl; try exact Hm;
    try (eapply epb_moved_setitem; eauto; fail).
  all: try (eapply epb_moved_setitem; eauto);
    destruct (_ <? influence _)%float; auto.
Qed.

Lemma hoare_snd {S A} (P Q : S -> Prop) (m : M S A) :
  hoare P m (fun _ => Q) Q -> forall w, P w -> Q (snd (m w)).
Proof.
  intros Hm w Hw. specialize (Hm w Hw). now destruct (m w) as [[a|e|] w'].
Qed.

Lemma attract_all_weak newbp s :
  ep_frame s (snd (attract_all newbp s)) /\
  epb_moved (fun b => b = len (bp s) / 3 - 1 \/ b = -1 \/ b = -2)
    (epb s) (epb (snd (attract_all newbp s))).
Proof.
  unfold attract_all. mrun.
  apply (hoare_snd
           (fun w => ep_frame s w /\
              epb_moved (fun b => b = len (bp s) / 3 - 1 \/ b = -1 \/ b = -2)
                (epb s) (epb w))
           (fun w => ep_frame s w /\
              epb_moved (fun b => b = len (bp s) / 3 - 1 \/ b = -1 \/ b = -2)
                (epb s) (epb w))).
  - apply hoare_forM. intros [epi [e [d0 b0]]] Hin w [Hf Hm].
    apply in_enumerate in Hin as [Hpos Hnth].
    apply nth_error_combine in Hnth as [_ Hnth].
    apply nth_error_combine in Hnth as [_ Hnth].
    pose proof (attract_weak s newbp (len (bp s) / 3 - 1) epi e d0 b0 w
                  Hpos Hnth Hf Hm) as Hw.
    destruct (attract newbp (len (bp s) / 3 - 1) (epi, (e, (d0, b0))) w)
      as [[u|x|] w']; exact Hw.
  - split; [apply ep_frame_refl | apply epb_moved_refl].
Qed.

(** *** The loop that re-resolves the endpoints of a full parent *)

(** The first [k] endpoints have been looked at: those tied to [parent]
    are now tied to -2 or to a growable branch point, the others and the
    rest are as they were. *)
Definition reassigned (s0 : SCA) (parent : Z) (k : nat) (s : SCA) : Prop :=
  ep_frame s0 s /\ length (epb s) = length (epb s0) /\
  forall j,
    ((j < k)%nat /\ nth_error (epb s0) j = Some parent /\
     exists b, nth_error (epb s) j = Some b /\ (b = -2 \/ growable s0 b)) \/
    (((k <= j)%nat \/ nth_error (epb s0) j <> Some parent) /\
     nth_error (epb s) j = nth_error (epb s0) j).

Lemma reassigned_start s parent : reassigned s parent O s.
Proof.
  split; [apply ep_frame_refl|]. split; [reflexivity|].
  intros j. right. split; [left; lia | reflexivity].
Qed.

Lemma reassigned_skip s0 parent k s :
  reassigned s0 parent k s -> nth_error (epb s0) k <> Some parent ->
  reassigned s0 parent (S k) s.
Proof.
  intros (Hf & Hlen & Hj) Hk. split; [exact Hf|]. split; [exact Hlen|].
  intros j. destruct (Hj j) as [(Hlt & Hp & Hb)|([Hge|Hne] & He)].
  - left. split; [lia | auto].
  - right. split; [|exact He].
    destruct (Nat.eq_dec j k) as [->|Hjk]; [now right | left; lia].
  - right. split; [now right | exact He].
Qed.

Lemma reassigned_set s0 parent k s b l s' :
  reassigned s0 parent k s -> nth_error (epb s0) k = Some parent ->
  setitem (epb s) (Z.of_nat k) b = Returned l ->
  b = -2 \/ growable s0 b ->
  ep_frame s0 s' -> epb s' = l ->
  reassigned s0 parent (S k) s'.
Proof.
  intros (Hf & Hlen & Hj) Hk Hset Hb Hf' Hl.
  apply setitem_inv in Hset as (k' & Hk' & ->).
  apply py_index_inv in Hk' as [[Hr ->]|[Hr _]]; [|lia].
  rewrite Nat2Z.id in *. unfold len in Hr.
  split; [exact Hf'|]. rewrite Hl, replace_nth_length.
  split; [exact Hlen|].
  intros j. rewrite nth_error_replace_nth.
  destruct (Nat.eqb_spec j k) as [->|Hjk].
  - left. split; [lia|]. split; [exact Hk|]. exists b. split; [|exact Hb].
    destruct (Nat.ltb_spec k (length (epb s))); [reflexivity | lia].
  - destruct (Hj j) as [(Hlt & Hp & Hbj)|([Hge|Hne] & He)].
    + left. split; [lia | auto].
    + right. split; [left; lia | exact He].
    + right. split; [now right | exact He].
Qed.

Lemma reassigned_dead s0 parent k s j :
  reassigned s0 parent k s -> parent <> -1 ->
  nth_error (epb s0) j = Some (-1) -> nth_error (epb s) j = Some (-1).
Proof.
  intros (_ & _ & Hj) Hp Hd. destruct (Hj j) as [(_ & Hpar & _)|(_ & He)].
  - congruence.
  - now rewrite He.
Qed.

Lemma reassign_step s0 parent k b0 :
  nth_error (epb s0) k = Some b0 ->
  hoare (reassigned s0 parent k) (reassign parent (Z.of_nat k, b0))
        (fun _ => reassigned s0 parent (S k))
        (fun s => exists k', reassigned s0 parent k' s).
Proof.
  intros Hk s Hs. unfold reassign.
  destruct (Z.eqb_spec b0 parent) as [->|Hne].
  - mrun.
    destruct (getitem (ep s) (Z.of_nat k)) as [e| |]; try now exists k.
    destruct (closestBranchPoint s e) as [[[bi v] d]| |] eqn:Ecl;
      try now exists k.
    assert (Hbi : bi = -2 \/ growable s0 bi).
    { destruct (closestBranchPoint_sound s e bi v d Ecl) as [?|Hg]; auto.
      right. destruct Hs as (Hf & _). apply ep_frame_tree in Hf.
      eapply growable_frame; [| |exact Hg]; symmetry; apply Hf. }
    destruct (setitem (epb s) (Z.of_nat k) bi) as [l| |] eqn:El;
      try now exists k.
    assert (Hnext : forall s', ep_frame s0 s' -> epb s' = l ->
                               reassigned s0 parent (S k) s')
      by (intros s'; eapply reassigned_set; eauto).
    assert (Hf : ep_frame s0 s) by apply Hs.
    simpl.
    destruct (setitem (epv s) (Z.of_nat k) v) as [lv| |]; simpl;
      try (exists (S k); apply Hnext; [reframe Hf | reflexivity]).
    destruct (setitem (epd s) (Z.of_nat k) d) as [ld| |]; simpl;
      try (exists (S k); apply Hnext; [reframe Hf | reflexivity]).
    apply Hnext; [reframe Hf | reflexivity].
  - simpl. apply reassigned_skip; [exact Hs | congruence].
Qed.

Lemma reassign_all_spec parent s :
  let '(o, s') := reassign_all parent s in
  ep_frame s s' /\
  ((s' = s /\
    forall c, getitem (bpc s) parent = Returned c -> o = Returned tt -> c <= 1)
   \/
   (exists c k, getitem (bpc s) parent = Returned c /\ 1 < c /\
                reassigned s parent k s' /\
                (o = Returned tt -> k = length (epb s)))).
Proof.
  unfold reassign_all. mrun.
  destruct (getitem (bpc s) parent) as [c| |] eqn:Ec;
    try (split; [apply ep_frame_refl | left; split; [reflexivity|]];
         intros; discriminate).
  destruct (Z.gtb_spec c 1) as [Hfull|Hopen].
  - pose proof (hoare_forM_enumerate (reassigned s parent)
                  (fun w => exists k', reassigned s parent k' w)
                  (epb s) (reassign parent)
                  (fun k a Hk => reassign_step s parent k a Hk)
                  s (reassigned_start s parent)) as Hloop.
    destruct (forM_ (enumerate (epb s)) (reassign parent) s)
      as [[u|x|] s'].
    + split; [apply Hloop|]. right. exists c, (length (epb s)).
      repeat split; auto; try lia; apply Hloop.
    + destruct Hloop as [k Hk]. split; [apply Hk|]. right. exists c, k.
      repeat split; auto; try lia; try apply Hk. discriminate.
    + destruct Hloop as [k Hk]. split; [apply Hk|]. right. exists c, k.
      repeat split; auto; try lia; try apply Hk. discriminate.
  - split; [apply ep_frame_refl|]. left. split; [reflexivity|].
    intros c' [= <-] _. lia.
Qed.

Lemma incr_bpa_frame parent s :
  exists a, snd (incr_bpa parent s) = set_bpa a s.
Proof.
  unfold incr_bpa. mrun.
  destruct (getitem (bpa s) parent) as [c| |]; simpl;
    try (exists (bpa s); now destruct s).
  destruct (setitem (bpa s) parent (c + 1)) as [l| |]; simpl;
    try (exists (bpa s); now destruct s).
  now exists l.
Qed.

Lemma addBranchPoint_unfold newbp parent gen s :
  addBranchPoint newbp parent gen s =
  match append_branchpoint newbp parent gen s with
  | (Returned _, s1) =>
      match attract_all newbp s1 with
      | (Returned _, s2) =>
          match reassign_all parent s2 with
          | (Returned _, s3) => incr_bpa parent s3
          | (Raised e, s3) => (Raised e, s3)
          | (Diverged, s3) => (Diverged, s3)
          end
      | (Raised e, s2) => (Raised e, s2)
      | (Diverged, s2) => (Diverged, s2)
      end
  | (Raised e, s1) => (Raised e, s1)
  | (Diverged, s1) => (Diverged, s1)
  end.
Proof.
  unfold addBranchPoint, bind.
  destruct (append_branchpoint newbp parent gen s) as [[u|e|] s1];
    reflexivity.
Qed.

(** *** Dead endpoints stay dead *)

Lemma py_index_neg n i : - n <= i < 0 -> py_index n i = Some (Z.to_nat (i + n)).
Proof.
  intros Hi. unfold py_index.
  destruct (Z.leb_spec 0 i); [lia|]. simpl.
  destruct (Z.ltb_spec i 0), (Z.leb_spec 0 (i + n)); simpl; try lia.
  reflexivity.
Qed.

Lemma py_index_last {A} (l : list A) a :
  py_index (len (l ++ [a])) (-1) = Some (length l).
Proof.
  pose proof (len_nonneg l). rewrite py_index_neg.
  - f_equal. rewrite len_app. change (len [a]) with 1. unfold len. lia.
  - rewrite len_app. change (len [a]) with 1. lia.
Qed.

Lemma getitem_last {A} (l : list A) a : getitem (l ++ [a]) (-1) = Returned a.
Proof.
  unfold getitem. rewrite py_index_last.
  rewrite nth_error_app2 by lia. now rewrite Nat.sub_diag.
Qed.

Lemma replace_nth_last {A} (l : list A) a b :
  replace_nth (l ++ [a]) (length l) b = l ++ [b].
Proof. induction l as [|h t IH]; simpl; [reflexivity | now rewrite IH]. Qed.

Lemma setitem_last {A} (l : list A) a b :
  setitem (l ++ [a]) (-1) b = Returned (l ++ [b]).
Proof.
  unfold setitem. rewrite py_index_last. now rewrite replace_nth_last.
Qed.

Lemma addBranchPoint_dead newbp parent gen s j :
  nth_error (epb s) j = Some (-1) ->
  nth_error (epb (snd (addBranchPoint newbp parent gen s))) j = Some (-1).
Proof.
  intros Hdead. rewrite addBranchPoint_unfold.
  pose proof (append_branchpoint_spec newbp parent gen s) as H1.
  destruct newbp as [[n0 n1] n2].
  destruct (append_branchpoint (n0, n1, n2) parent gen s) as [o1 s1].
  destruct H1 as (Hf1 & _ & Hc1).
  assert (Hd1 : nth_error (epb s1) j = Some (-1)).
  { apply tree_frame_ep in Hf1. destruct Hf1 as (_ & -> & _). exact Hdead. }
  destruct o1 as [u1|e|]; simpl; try exact Hd1.
  pose proof (attract_all_weak (n0, n1, n2) s1) as [Hf2 Hm2].
  destruct (attract_all (n0, n1, n2) s1) as [o2 s2]. simpl in Hf2, Hm2.
  assert (Hd2 : nth_error (epb s2) j = Some (-1))
    by (eapply epb_moved_dead; eauto).
  destruct o2 as [u2|e|]; simpl; try exact Hd2.
  pose proof (reassign_all_spec parent s2) as H3.
  destruct (reassign_all parent s2) as [o3 s3].
  destruct H3 as (Hf3 & H3).
  assert (Hd3 : nth_error (epb s3) j = Some (-1)).
  { destruct H3 as [[-> _]|(c & k & Hc & Hfull & Hre & _)]; [exact Hd2|].
    destruct (Z.eq_dec parent (-1)) as [->|Hp].
    - exfalso. destruct Hc1 as (c0 & Hc0 & Hset).
      rewrite getitem_last in Hc0. injection Hc0 as <-.
      rewrite setitem_last in Hset. injection Hset as Hset.
      apply ep_frame_tree in Hf2. destruct Hf2 as (_ & Hbpc & _).
      rewrite Hbpc, <- Hset, getitem_last in Hc. injection Hc as <-. lia.
    - eapply reassigned_dead; eauto. }
  destruct o3 as [u3|e|]; simpl; try exact Hd3.
  destruct (incr_bpa_frame parent s3) as [a ->]. exact Hd3.
Qed.

(** *** No branch point gets a third child *)

(** No count exceeds 2. *)
Definition bounded (s : SCA) : Prop := Forall (fun c => c <= 2) (bpc s).

(** What an endpoint may be tied to: -1 (dead), -2 (out of range) or a
    branch point with fewer than two children. *)
Definition tied (s : SCA) (b : Z) : Prop := b = -1 \/ b = -2 \/ growable s b.

(** The invariant of the engine. *)
Definition consistent (s : SCA) : Prop :=
  len (bp s) = 3 * len (bpc s) /\ bounded s /\ Forall (tied s) (epb s).

Lemma Forall_nth_error {A} (P : A -> Prop) (l : list A) :
  Forall P l <-> forall k a, nth_error l k = Some a -> P a.
Proof.
  rewrite Forall_forall. split.
  - intros Hl k a Hk. eapply Hl, nth_error_In, Hk.
  - intros Hl a Ha. apply In_nth_error in Ha as [k Hk]. eapply Hl, Hk.
Qed.

Lemma growable_range s i :
  len (bp s) = 3 * len (bpc s) -> growable s i -> 0 <= i < len (bpc s).
Proof.
  intros Hlen (Hi & _). rewrite Hlen in Hi.
  replace (3 * len (bpc s)) with (len (bpc s) * 3) in Hi by lia.
  now rewrite Z.div_mul in Hi by lia.
Qed.

Lemma addBranchPoint_consistent newbp parent gen s :
  consistent s -> growable s parent ->
  let '(o, s') := addBranchPoint newbp parent gen s in
  bounded s' /\
  (o = Returned tt ->
   consistent s' /\ forall q, q <> parent -> growable s q -> growable s' q).
Proof.
  intros (Hlen & Hbound & Htied) Hparent.
  pose proof (growable_range s parent Hlen Hparent) as Hrange.
  destruct Hparent as (_ & c & Hc & Hc1).
  rewrite addBranchPoint_unfold.
  pose proof (append_branchpoint_spec newbp parent gen s) as H1.
  destruct newbp as [[n0 n1] n2].
  destruct (append_branchpoint (n0, n1, n2) parent gen s) as [o1 s1].
  destruct H1 as (Hf1 & Hbp1 & Hc1').
  assert (Hb0 : Forall (fun c => c <= 2) (bpc s ++ [0]))
    by (apply Forall_app; split; [exact Hbound | constructor; [lia|constructor]]).
  destruct o1 as [u1|e|];
    try (split; [unfold bounded; destruct Hc1' as [-> | ->]; assumption
                | discriminate]).
  destruct Hc1' as (c0 & Hc0 & Hset).
  assert (Hlen0 : 0 <= parent < len (bpc s ++ [0]))
    by (rewrite len_app; change (len [0]) with 1; lia).
  apply (getitem_nonneg_inv _ _ _ (proj1 Hrange)) in Hc0.
  rewrite nth_error_app1 in Hc0 by (unfold len in Hrange; lia).
  rewrite Hc in Hc0. injection Hc0 as <-.
  rewrite (setitem_total _ _ _ Hlen0) in Hset. injection Hset as Hbpc1.
  assert (Hbound1 : bounded s1).
  { unfold bounded. rewrite <- Hbpc1. apply Forall_replace_nth; [exact Hb0 | lia]. }
  assert (Hlen1 : len (bp s1) = 3 * len (bpc s1)).
  { rewrite Hbp1, <- Hbpc1, len_app. unfold len at 3.
    rewrite replace_nth_length. fold (len (bpc s ++ [0])). rewrite len_app.
    change (len [n0; n1; n2]) with 3. change (len [0]) with 1. lia. }
  assert (Hn : len (bp s1) / 3 = len (bpc s) + 1).
  { rewrite Hlen1, <- Hbpc1. unfold len at 1. rewrite replace_nth_length.
    fold (len (bpc s ++ [0])). rewrite len_app. change (len [0]) with 1.
    replace (3 * (len (bpc s) + 1)) with ((len (bpc s) + 1) * 3) by lia.
    now rewrite Z.div_mul by lia. }
  assert (Hkeep : forall q, q <> parent -> growable s q -> growable s1 q).
  { intros q Hq Hg. pose proof (growable_range s q Hlen Hg) as Hqr.
    destruct Hg as (_ & cq & Hcq & Hle). split; [lia|].
    exists cq. split; [|exact Hle]. rewrite <- Hbpc1, nth_error_replace_nth.
    destruct (Nat.eqb_spec (Z.to_nat q) (Z.to_nat parent)); [lia|].
    rewrite nth_error_app1 by (unfold len in Hqr; lia). exact Hcq. }
  assert (Hnew : growable s1 (len (bp s1) / 3 - 1)).
  { rewrite Hn. split; [rewrite Hn; pose proof (len_nonneg (bpc s)); lia|].
    exists 0. split; [|lia]. rewrite <- Hbpc1, nth_error_replace_nth.
    replace (len (bpc s) + 1 - 1) with (len (bpc s)) by lia.
    destruct (Nat.eqb_spec (Z.to_nat (len (bpc s))) (Z.to_nat parent)); [lia|].
    unfold len. rewrite Nat2Z.id, nth_error_app2 by lia.
    now rewrite Nat.sub_diag. }
  assert (Hparent1 : nth_error (bpc s1) (Z.to_nat parent) = Some (c + 1)).
  { rewrite <- Hbpc1, nth_error_replace_nth, Nat.eqb_refl.
    destruct (Nat.ltb_spec (Z.to_nat parent) (length (bpc s ++ [0])));
      [reflexivity|]. unfold len in Hlen0. lia. }
  assert (Hepb1 : epb s1 = epb s) by (apply tree_frame_ep in Hf1; tauto).
  pose proof (attract_all_weak (n0, n1, n2) s1) as [Hf2 Hm2].
  destruct (attract_all (n0, n1, n2) s1) as [o2 s2]. simpl in Hf2, Hm2.
  pose proof (ep_frame_tree s1 s2 Hf2) as (Hbp2 & Hbpc2 & _).
  assert (Hbound2 : bounded s2) by (unfold bounded; now rewrite Hbpc2).
  destruct o2 as [u2|e|]; try (split; [assumption | discriminate]).
  assert (Htied2 : Forall (fun b => tied s1 b \/ b = parent) (epb s2)).
  { apply Forall_nth_error. intros k b Hk.
    destruct Hm2 as [_ Hm2]. destruct (Hm2 k) as [Hsame|(_ & b' & Hb' & Hall)].
    - rewrite Hsame, Hepb1 in Hk.
      pose proof (proj1 (Forall_nth_error _ _) Htied k b Hk) as [?|[?|Hg]].
      + left. now left.
      + left. right. now left.
      + destruct (Z.eq_dec b parent) as [->|Hne]; [now right|].
        left. right. right. now apply Hkeep.
    - rewrite Hk in Hb'. injection Hb' as <-. left.
      destruct Hall as [-> | [-> | ->]]; [|now left|right; now left].
      right. right. exact Hnew. }
  pose proof (reassign_all_spec parent s2) as H3.
  destruct (reassign_all parent s2) as [o3 s3].
  destruct H3 as (Hf3 & H3).
  pose proof (ep_frame_tree s2 s3 Hf3) as (Hbp3 & Hbpc3 & _).
  assert (Hbound3 : bounded s3) by (unfold bounded; now rewrite Hbpc3).
  destruct o3 as [[]|e|]; try (split; [assumption | discriminate]).
  assert (Hg13 : forall q, growable s1 q -> growable s3 q).
  { intros q Hq. eapply growable_frame; [| |exact Hq]; congruence. }
  assert (Htied3 : Forall (tied s3) (epb s3)).
  { assert (Hpc : getitem (bpc s2) parent = Returned (c + 1)).
    { rewrite Hbpc2. apply getitem_nth_error; [lia | exact Hparent1]. }
    destruct H3 as [[-> Hle]|(c' & k & Hc' & Hfull & Hre & Hk)].
    - specialize (Hle _ Hpc eq_refl).
      eapply Forall_impl; [|exact Htied2]. intros b [[?|[?|Hg]]| ->].
      + now left.
      + right. now left.
      + right. right. now apply Hg13.
      + right. right. apply Hg13. split; [rewrite Hn; lia|].
        exists (c + 1). split; [exact Hparent1 | lia].
    - rewrite (Hk eq_refl) in Hre. destruct Hre as (_ & _ & Hj).
      apply Forall_nth_error. intros j b Hb.
      destruct (Hj j) as [(_ & _ & b' & Hb' & Hgood)|([Hge|Hne] & He)].
      + rewrite Hb in Hb'. injection Hb' as <-.
        destruct Hgood as [->|Hg]; [right; now left|].
        right. right. eapply growable_frame; [| |exact Hg]; congruence.
      + apply nth_error_None in Hge. rewrite <- He in Hge. congruence.
      + rewrite He in Hb.
        pose proof (proj1 (Forall_nth_error _ _) Htied2 j b Hb)
          as [[?|[?|Hg]]| ->].
        * now left.
        * right. now left.
        * right. right. now apply Hg13.
        * congruence. }
  destruct (incr_bpa_frame parent s3) as [a Ha].
  destruct (incr_bpa parent s3) as [o4 s4]. simpl in Ha. subst s4.
  split; [exact Hbound3|]. intros _. split.
  - split; [|split; [exact Hbound3 | exact Htied3]].
    cbn [bp bpc set_bpa]. rewrite Hbp3, Hbp2, Hbpc3, Hbpc2. exact Hlen1.
  - intros q Hq Hg. apply (Hg13 q). now apply Hkeep.
Qed.

(** *** addEndPoint *)

Lemma addEndPoint_spec p s :
  let '(o, s') := addEndPoint p s in
  bp s' = bp s /\ bpc s' = bpc s /\
  match o with
  | Returned _ => exists bi, epb s' = epb s ++ [bi] /\ (bi = -2 \/ growable s bi)
  | _ => epb s' = epb s
  end.
Proof.
  unfold addEndPoint. mrun.
  destruct (closestBranchPoint (set_ep (ep s ++ [p]) s) p)
    as [[[bi v] d]| |] eqn:E; simpl; auto.
  repeat split. exists bi. split; [reflexivity|].
  apply closestBranchPoint_sound in E. exact E.
Qed.

Lemma addEndPoint_consistent p :
  hoare consistent (addEndPoint p) (fun _ => consistent) bounded.
Proof.
  intros s (Hlen & Hb & Ht). pose proof (addEndPoint_spec p s) as Hs.
  destruct (addEndPoint p s) as [[u|e|] s']; destruct Hs as (Hbp & Hbpc & He);
    try (unfold bounded; now rewrite Hbpc).
  destruct He as (bi & He & Hbi).
  split; [now rewrite Hbp, Hbpc|]. split; [unfold bounded; now rewrite Hbpc|].
  rewrite He. apply Forall_app. split.
  - eapply Forall_impl; [|exact Ht]. intros b [?|[?|Hg]];
      [now left | right; now left | right; right].
    eapply growable_frame; eauto.
  - constructor; [|constructor]. destruct Hbi as [->|Hg];
      [right; now left | right; right].
    eapply growable_frame; eauto.
Qed.

Lemma addEndPoint_dead p j :
  hoare (fun s => nth_error (epb s) j = Some (-1)) (addEndPoint p)
        (fun _ s => nth_error (epb s) j = Some (-1))
        (fun s => nth_error (epb s) j = Some (-1)).
Proof.
  intros s Hd. pose proof (addEndPoint_spec p s) as Hs.
  destruct (addEndPoint p s) as [[u|e|] s']; destruct Hs as (_ & _ & He);
    try now rewrite He.
  destruct He as (bi & He & _). rewrite He, nth_error_app1; [exact Hd|].
  apply nth_error_Some. congruence.
Qed.

End BranchFacts.

(** ** growBranches *)

Inductive subsequence {A : Type} : list A -> list A -> Prop :=
| sub_nil : subsequence [] []
| sub_skip x l l' : subsequence l l' -> subsequence l (x :: l')
| sub_keep x l l' : subsequence l l' -> subsequence (x :: l) (x :: l').

Lemma subsequence_In {A} (l l' : list A) x :
  subsequence l l' -> In x l -> In x l'.
Proof.
  induction 1 as [|y l l' _ IH|y l l' _ IH]; simpl; auto.
  intros [->|Hx]; auto.
Qed.

Lemma subsequence_NoDup {A} (l l' : list A) :
  subsequence l l' -> NoDup l' -> NoDup l.
Proof.
  induction 1 as [|y l l' Hs IH|y l l' Hs IH]; intros Hnd; auto.
  - inversion Hnd; auto.
  - inversion Hnd as [|? ? Hy Hl']; subst. constructor; auto.
    intros Hin. apply Hy. eapply subsequence_In; eauto.
Qed.

Section GrowFacts.
Context {H : Host}.

(** The candidates of a generation, computed from one snapshot [s0] of the
    store: for each index of [bis] in turn that [shootSupressed] lets
    through, the position grown from it and the index.  Only the state of
    [random] moves. *)
Fixpoint snapshot_candidates (s0 : SCA) (bis : list Z) (r : rng)
  : outcome (list (vec3 * Z)) * rng :=
  match bis with
  | [] => (Returned [], r)
  | bpi :: rest =>
      match getitem (bpa s0) bpi with
      | Returned a =>
          match shootSupressed (float_of_int a) {| self := s0; rand := r |} with
          | (Returned true, w) => snapshot_candidates s0 rest (rand w)
          | (Returned false, w) =>
              match new_position s0 bpi with
              | Returned p =>
                  match snapshot_candidates s0 rest (rand w) with
                  | (Returned l, r') => (Returned ((p, bpi) :: l), r')
                  | (Raised e, r') => (Raised e, r')
                  | (Diverged, r') => (Diverged, r')
                  end
              | Raised e => (Raised e, rand w)
              | Diverged => (Diverged, rand w)
              end
          | (Raised e, w) => (Raised e, rand w)
          | (Diverged, w) => (Diverged, rand w)
          end
      | Raised e => (Raised e, r)
      | Diverged => (Diverged, r)
      end
  end.

Lemma shootSupressed_self af s r :
  snd (shootSupressed af {| self := s; rand := r |})
  = {| self := s;
       rand := rand (snd (shootSupressed af {| self := s; rand := r |})) |}.
Proof.
  unfold shootSupressed. mrun. cbn [self rand].
  destruct (apicalcontrol s <=? 0)%float; [reflexivity|].
  destruct (_ <=? 0)%float; [reflexivity|].
  destruct (pow _ _) as [q| |]; try reflexivity.
  unfold draw_random. cbn [rand]. destruct (random r) as [u r'].
  reflexivity.
Qed.

(** The first loop of [growBranches] computes exactly the candidates of
    the snapshot taken when it starts, and leaves [self] as it was. *)
Lemma grow_candidates_snapshot bis newbps newbpps s r :
  grow_candidates bis newbps newbpps {| self := s; rand := r |} =
  match snapshot_candidates s bis r with
  | (Returned l, r') =>
      (Returned (newbps ++ map fst l, newbpps ++ map snd l),
       {| self := s; rand := r' |})
  | (Raised e, r') => (Raised e, {| self := s; rand := r' |})
  | (Diverged, r') => (Diverged, {| self := s; rand := r' |})
  end.
Proof.
  revert newbps newbpps r.
  induction bis as [|bpi rest IH]; intros newbps newbpps r; simpl.
  - now rewrite !app_nil_r.
  - mrun. simpl.
    destruct (getitem (bpa s) bpi) as [a| |]; try reflexivity.
    pose proof (shootSupressed_self (float_of_int a) s r) as Hself.
    destruct (shootSupressed (float_of_int a) {| self := s; rand := r |})
      as [[[|]|e|] [s1 r1]]; cbn [snd rand] in Hself;
      injection Hself as ->; simpl; try reflexivity.
    + apply IH.
    + destruct (new_position s bpi) as [p| |]; try reflexivity.
      rewrite IH.
      destruct (snapshot_candidates s rest _) as [[l|e|] r']; try reflexivity.
      simpl. now rewrite <- !app_assoc.
Qed.

Lemma snapshot_candidates_parents s0 bis r l r' :
  snapshot_candidates s0 bis r = (Returned l, r') ->
  subsequence (map snd l) bis /\
  Forall (fun c => new_position s0 (snd c) = Returned (fst c)) l.
Proof.
  revert r l r'. induction bis as [|bpi rest IH]; intros r l r'; simpl.
  - intros [= <- _]. split; constructor.
  - destruct (getitem (bpa s0) bpi) as [a| |]; try discriminate.
    destruct (shootSupressed (float_of_int a) {| self := s0; rand := r |})
      as [[[|]|e|] w]; try discriminate.
    + intros E. destruct (IH _ _ _ E) as [Hs Hf]. split; [|exact Hf].
      now constructor.
    + destruct (new_position s0 bpi) as [p| |] eqn:Ep; try discriminate.
      destruct (snapshot_candidates s0 rest (rand w)) as [[l0|e|] r0] eqn:E;
        try discriminate.
      intros [= <- <-]. destruct (IH _ _ _ E) as [Hs Hf]. split.
      * simpl. now constructor.
      * constructor; [exact Ep | exact Hf].
Qed.

Lemma combine_map_fst_snd {A B} (l : list (A * B)) :
  combine (map fst l) (map snd l) = l.
Proof. induction l as [|[a b] t IH]; simpl; [reflexivity | now rewrite IH]. Qed.

(** [growBranches] is the snapshot's candidates, then the commits. *)
Lemma growBranches_unfold gen s r :
  growBranches gen {| self := s; rand := r |} =
  match snapshot_candidates s (bis_of (epb s)) r with
  | (Returned l, r') => forM_ l (commit gen) {| self := s; rand := r' |}
  | (Raised e, r') => (Raised e, {| self := s; rand := r' |})
  | (Diverged, r') => (Diverged, {| self := s; rand := r' |})
  end.
Proof.
  unfold growBranches. unfold bind at 1. unfold get at 1.
  unfold bind at 1. cbn [self]. rewrite grow_candidates_snapshot.
  destruct (snapshot_candidates s (bis_of (epb s)) r) as [[l|e|] r'];
    try reflexivity.
  cbn [app]. now rewrite combine_map_fst_snd.
Qed.

Lemma bis_of_spec l b :
  In b (bis_of l) <-> In b l /\ b <> -1 /\ b <> -2.
Proof.
  unfold bis_of. rewrite filter_In, set_iter_In.
  destruct (Z.eqb_spec b (-1)), (Z.eqb_spec b (-2)); simpl;
    intuition (try discriminate; try lia).
Qed.

Lemma bis_of_NoDup l : NoDup (bis_of l).
Proof. unfold bis_of. apply NoDup_filter, set_iter_NoDup. Qed.

Lemma on_self_unfold {A} (m : M SCA A) s r :
  on_self m {| self := s; rand := r |} =
  (fst (m s), {| self := snd (m s); rand := r |}).
Proof. unfold on_self, zoom. simpl. now destruct (m s). Qed.

(** The commits keep the counts bounded and, when they all return, the
    invariant. *)
Lemma commit_loop_consistent gen l :
  forall s r, consistent s -> NoDup (map snd l) ->
  (forall c, In c l -> growable s (snd c)) ->
  let '(o, w') := forM_ l (commit gen) {| self := s; rand := r |} in
  bounded (self w') /\ (o = Returned tt -> consistent (self w')).
Proof.
  induction l as [|[p q] rest IH]; intros s r Hcons Hnd Hgrow; simpl.
  - split; [apply Hcons | auto].
  - unfold bind. unfold commit at 1. mrun. cbn [self].
    inversion Hnd as [|? ? Hq Hnd']; subst.
    destruct (exclude s (Vector p)).
    + apply IH; auto. intros c Hc. apply Hgrow. now right.
    + rewrite on_self_unfold.
      pose proof (addBranchPoint_consistent p q gen s Hcons
                    (Hgrow (p, q) (or_introl eq_refl))) as Hadd.
      destruct (addBranchPoint p q gen s) as [[[]|e|] s1]; simpl;
        destruct Hadd as [Hb Hc]; try (split; [exact Hb | discriminate]).
      destruct (Hc eq_refl) as [Hcons1 Hkeep].
      apply IH; auto. intros c Hin. apply Hkeep.
      * intros Heq. apply Hq. rewrite <- Heq. now apply in_map.
      * apply Hgrow. now right.
Qed.

Lemma growBranches_consistent gen :
  hoare (fun w => consistent (self w)) (growBranches gen)
        (fun _ w => consistent (self w)) (fun w => bounded (self w)).
Proof.
  intros [s r] Hcons. cbn [self] in Hcons. rewrite growBranches_unfold.
  destruct (snapshot_candidates s (bis_of (epb s)) r) as [[l|e|] r'] eqn:E;
    try apply Hcons.
  destruct (snapshot_candidates_parents _ _ _ _ _ E) as [Hsub _].
  assert (Hg : forall c, In c l -> growable s (snd c)).
  { intros c Hc.
    assert (Hin : In (snd c) (bis_of (epb s)))
      by (eapply subsequence_In; [exact Hsub | now apply in_map]).
    apply bis_of_spec in Hin as (Hin & Hn1 & Hn2).
    destruct Hcons as (_ & _ & Ht). rewrite Forall_forall in Ht.
    destruct (Ht _ Hin) as [?|[?|?]]; congruence || assumption. }
  pose proof (commit_loop_consistent gen l s r' Hcons
                (subsequence_NoDup _ _ Hsub (bis_of_NoDup _)) Hg) as Hloop.
  destruct (forM_ l (commit gen) {| self := s; rand := r' |})
    as [[[]|e|] w']; destruct Hloop as [Hb Hc]; auto.
Qed.

(** The commits never touch a dead endpoint. *)
Lemma growBranches_dead gen j :
  hoare (fun w => nth_error (epb (self w)) j = Some (-1)) (growBranches gen)
        (fun _ w => nth_error (epb (self w)) j = Some (-1))
        (fun w => nth_error (epb (self w)) j = Some (-1)).
Proof.
  intros [s r] Hd. cbn [self] in Hd. rewrite growBranches_unfold.
  destruct (snapshot_candidates s (bis_of (epb s)) r) as [[l|e|] r'];
    try exact Hd.
  apply (hoare_snd (fun w => nth_error (epb (self w)) j = Some (-1))
                   (fun w => nth_error (epb (self w)) j = Some (-1))
                   (forM_ l (commit gen))
           ) with (w := {| self := s; rand := r' |}) in Hd.
  - destruct (forM_ l (commit gen) {| self := s; rand := r' |})
      as [[u|e|] w']; exact Hd.
  - apply hoare_forM. intros [p q] _ [s1 r1] Hd1. cbn [self] in Hd1.
    unfold commit. mrun. cbn [self].
    destruct (exclude s1 (Vector p)); [exact Hd1|].
    rewrite on_self_unfold.
    pose proof (addBranchPoint_dead p q gen s1 j Hd1) as Hadd.
    destruct (addBranchPoint p q gen s1) as [[u|e|] s2]; exact Hadd.
Qed.

End GrowFacts.

(** ** The order of the commits *)

Section CommitOrder.
Context {H : Host}.

Lemma append_branchpoint_bpp newbp parent gen s s1 :
  append_branchpoint newbp parent gen s = (Returned tt, s1) ->
  bpp s1 = bpp s ++ [Some parent] /\ exclude s1 = exclude s.
Proof.
  destruct newbp as [[n0 n1] n2].
  unfold append_branchpoint, incr_bpc. mrun.
  match goal with
  | |- context [stamp_lineage ?f ?p ?g ?w] =>
      destruct (stamp_lineage_frame f p g w) as [g' Hg'];
      destruct (stamp_lineage f p g w) as [[u|e|] w'] eqn:Est
  end; simpl in Hg'; subst w'; simpl; try discriminate.
  destruct (getitem (bpc s ++ [0]) parent) as [c| |]; simpl;
    try discriminate.
  destruct (as_int (c + 1)) as [v| |]; simpl; try discriminate.
  destruct (setitem (bpc s ++ [0]) parent v) as [l| |]; simpl;
    try discriminate.
  intros [= <-]. split; reflexivity.
Qed.

Lemma ep_frame_bpp s s' :
  ep_frame s s' -> bpp s' = bpp s /\ exclude s' = exclude s.
Proof. intros (v & d & b & ->). split; reflexivity. Qed.

(** A call of [addBranchPoint] that returns has appended its parent to
    [self.bpp]. *)
Lemma addBranchPoint_bpp newbp parent gen s s' :
  addBranchPoint newbp parent gen s = (Returned tt, s') ->
  bpp s' = bpp s ++ [Some parent] /\ exclude s' = exclude s.
Proof.
  rewrite addBranchPoint_unfold.
  destruct (append_branchpoint newbp parent gen s) as [[[]|e|] s1] eqn:E1;
    try discriminate.
  apply append_branchpoint_bpp in E1 as [Hb1 Hx1].
  pose proof (attract_all_weak newbp s1) as [Hf2 _].
  destruct (attract_all newbp s1) as [[[]|e|] s2]; try discriminate.
  cbn [snd] in Hf2. apply ep_frame_bpp in Hf2 as [Hb2 Hx2].
  pose proof (reassign_all_spec parent s2) as H3.
  destruct (reassign_all parent s2) as [[[]|e|] s3]; try discriminate.
  destruct H3 as [Hf3 _]. apply ep_frame_bpp in Hf3 as [Hb3 Hx3].
  destruct (incr_bpa_frame parent s3) as [a Ha].
  destruct (incr_bpa parent s3) as [o4 s4]. cbn [snd] in Ha. subst s4.
  intros [= _ <-]. cbn [bpp exclude set_bpa].
  split; congruence.
Qed.

(** The candidates that [exclude] lets through. *)
Definition admitted (s : SCA) (l : list (vec3 * Z)) : list (vec3 * Z) :=
  filter (fun c => negb (exclude s (Vector (fst c)))) l.

(** When all the commits return, the parents of the admitted candidates
    have been appended to [self.bpp], in the order of the candidates. *)
Lemma commit_loop_bpp gen l :
  forall s r w',
  forM_ l (commit gen) {| self := s; rand := r |} = (Returned tt, w') ->
  bpp (self w') = bpp s ++ map Some (map snd (admitted s l)) /\
  exclude (self w') = exclude s.
Proof.
  induction l as [|[p q] rest IH]; intros s r w'.
  - intros [= <-]. cbn [admitted filter map self]. now rewrite app_nil_r.
  - rewrite forM_cons. unfold commit at 1. mrun. cbn [self].
    unfold admitted. cbn [filter fst].
    destruct (exclude s (Vector p)) eqn:Ex; cbn [negb].
    + apply IH.
    + rewrite on_self_unfold.
      destruct (addBranchPoint p q gen s) as [[[]|e|] s1] eqn:Eadd;
        cbn [fst snd]; try discriminate.
      apply addBranchPoint_bpp in Eadd as [Hb Hx].
      intros Hrest. apply IH in Hrest as [Hb' Hx'].
      split; [|congruence]. rewrite Hb', Hb. cbn [map snd].
      rewrite <- app_assoc. cbn [app]. unfold admitted. now rewrite Hx.
Qed.

(** C2, as amended.  A call of [growBranches] first computes all its
    candidates from the store as it is when the call starts (only the state
    of [random] moves, and a failure there leaves the store untouched);
    each candidate is the position grown from its parent in that store, and
    the parents are the indices that the loop over the set enumerates, in
    that order, without those that [shootSupressed] vetoes.  It then
    commits the candidates that [exclude] admits by [addBranchPoint], in
    that same order: when the commits return, those parents are what
    [self.bpp] has gained. *)
Theorem growBranches_snapshot_then_commit (gen : Z) (s : SCA) (r : rng) :
  match snapshot_candidates s (bis_of (epb s)) r with
  | (Returned l, r') =>
      growBranches gen {| self := s; rand := r |}
      = forM_ l (commit gen) {| self := s; rand := r' |} /\
      subsequence (map snd l) (bis_of (epb s)) /\
      Forall (fun c => new_position s (snd c) = Returned (fst c)) l /\
      (forall w', forM_ l (commit gen) {| self := s; rand := r' |}
                  = (Returned tt, w') ->
                  bpp (self w') = bpp s ++ map Some (map snd (admitted s l)))
  | (Raised e, r') =>
      growBranches gen {| self := s; rand := r |}
      = (Raised e, {| self := s; rand := r' |})
  | (Diverged, r') =>
      growBranches gen {| self := s; rand := r |}
      = (Diverged, {| self := s; rand := r' |})
  end.
Proof.
  pose proof (growBranches_unfold gen s r) as Hu.
  destruct (snapshot_candidates s (bis_of (epb s)) r) as [[l|e|] r'] eqn:E;
    try exact Hu.
  destruct (snapshot_candidates_parents _ _ _ _ _ E) as [Hsub Hpos].
  repeat split; auto.
  intros w' Hw'. now apply commit_loop_bpp in Hw'.
Qed.

End CommitOrder.

(** ** What a new branch point does to an endpoint *)

(** The claim's words for one endpoint at [e], tied so far by the
    direction [v0], the distance [d0] and the association [b0], when the
    branch point [newbp] of index [bi] is added: with [d] the distance from
    [newbp] to [e], a live endpoint with [d < d0] dies when [d <= kill],
    and else gets the unit vector towards it, [d], and [bi] when
    [d < infl], -2 when not; every other endpoint stays. *)
Definition attracted (kill infl : float) (newbp : vec3) (bi : Z) (e : vec3)
  (old : vec3 * float * Z) : vec3 * float * Z :=
  let '(v0, d0, b0) := old in
  let '(e0, e1, e2) := e in
  let '(n0, n1, n2) := newbp in
  let w0 := (e0 - n0)%float in
  let w1 := (e1 - n1)%float in
  let w2 := (e2 - n2)%float in
  let d := sqrt (w0 * w0 + w1 * w1 + w2 * w2) in
  if b0 =? -1 then old
  else if (d <? d0)%float then
    if (d <=? kill)%float then (v0, d0, -1)
    else ((w0 / d)%float, (w1 / d)%float, (w2 / d)%float, d,
          if (d <? infl)%float then bi else -2)
  else old.

Lemma replace_nth_same {A} (l : list A) k a :
  nth_error l k = Some a -> replace_nth l k a = l.
Proof.
  revert k. induction l as [|h t IH]; intros [|k]; simpl; try discriminate.
  - now intros [= ->].
  - intros Hk. now rewrite IH.
Qed.

Lemma setitem_nat {A} (l : list A) k a b :
  nth_error l k = Some b ->
  setitem l (Z.of_nat k) a = Returned (replace_nth l k a).
Proof.
  intros Hk. rewrite setitem_total, Nat2Z.id; [reflexivity|].
  assert (k < length l)%nat by (apply nth_error_Some; congruence).
  unfold len. lia.
Qed.

Section AttractFacts.
Context {H : Host}.

(** [s] with the tie of endpoint [k] replaced. *)
Definition retie (s : SCA) (k : nat) (t : vec3 * float * Z) : SCA :=
  let '(v, d, b) := t in
  set_epb (replace_nth (epb s) k b)
    (set_epd (replace_nth (epd s) k d)
       (set_epv (replace_nth (epv s) k v) s)).

Lemma retie_same s k v d b :
  nth_error (epv s) k = Some v -> nth_error (epd s) k = Some d ->
  nth_error (epb s) k = Some b -> retie s k (v, d, b) = s.
Proof.
  intros Hv Hd Hb. unfold retie.
  rewrite (replace_nth_same _ _ _ Hv), (replace_nth_same _ _ _ Hd),
    (replace_nth_same _ _ _ Hb).
  now destruct s.
Qed.

(** With a kill distance that is not negative, one turn of the loop
    returns and writes what the claim says. *)
Lemma attract_writes s newbp bi k e v0 d0 b0 :
  nth_error (epv s) k = Some v0 -> nth_error (epd s) k = Some d0 ->
  nth_error (epb s) k = Some b0 ->
  (0 <=? killdistance s)%float = true ->
  attract newbp bi (Z.of_nat k, (e, (d0, b0))) s =
  (Returned tt,
   retie s k (attracted (killdistance s) (influence s) newbp bi e (v0, d0, b0))).
Proof.
  intros Hv Hd Hb Hkill. unfold attract, attracted.
  destruct e as [[e0 e1] e2], newbp as [[n0 n1] n2].
  destruct (b0 =? -1); [now rewrite retie_same|].
  mrun. rewrite math_sqrt_sumsq. cbn iota beta.
  set (w0 := (e0 - n0)%float). set (w1 := (e1 - n1)%float).
  set (w2 := (e2 - n2)%float).
  set (d := sqrt (w0 * w0 + w1 * w1 + w2 * w2)).
  destruct (d <? d0)%float eqn:Hlt; [|now rewrite retie_same].
  rewrite (leb_negb_ltb d (killdistance s)
             (ltb_ordered_l _ _ Hlt) (leb_ordered_r _ _ Hkill)).
  destruct (killdistance s <? d)%float eqn:Hk; cbn [negb].
  - unfold truediv. rewrite (above_nonneg_not_zero _ _ Hk Hkill).
    cbn iota beta.
    rewrite (setitem_nat _ _ _ _ Hv). cbn iota beta.
    cbn [epd set_epv]. rewrite (setitem_nat _ _ _ _ Hd). cbn iota beta.
    cbn [epb set_epd set_epv influence].
    rewrite (setitem_nat _ _ _ _ Hb). reflexivity.
  - rewrite (setitem_nat _ _ _ _ Hb). cbn iota beta. unfold retie.
    rewrite (replace_nth_same _ _ _ Hv), (replace_nth_same _ _ _ Hd).
    now destruct s.
Qed.

(** The ties of endpoint [j]. *)
Definition tie (s : SCA) (j : nat)
  : option vec3 * option float * option Z :=
  (nth_error (epv s) j, nth_error (epd s) j, nth_error (epb s) j).

(** The ties of endpoint [j] of [s0] after the claim's update. *)
Definition attracted_at (s0 : SCA) (newbp : vec3) (bi : Z) (j : nat)
  : option vec3 * option float * option Z :=
  match nth_error (ep s0) j, nth_error (epv s0) j,
        nth_error (epd s0) j, nth_error (epb s0) j with
  | Some e, Some v0, Some d0, Some b0 =>
      let '(v, d, b) :=
        attracted (killdistance s0) (influence s0) newbp bi e (v0, d0, b0) in
      (Some v, Some d, Some b)
  | _, _, _, _ => tie s0 j
  end.

(** The first [k] endpoints have been updated, the others not yet. *)
Definition attracted_upto (s0 : SCA) (newbp : vec3) (bi : Z) (k : nat)
  (s : SCA) : Prop :=
  ep_frame s0 s /\
  forall j, tie s j = if (j <? k)%nat then attracted_at s0 newbp bi j
                      else tie s0 j.

Lemma tie_retie s k t j :
  (k < length (epv s))%nat -> (k < length (epd s))%nat ->
  (k < length (epb s))%nat ->
  tie (retie s k t) j =
  if Nat.eqb j k then (let '(v, d, b) := t in (Some v, Some d, Some b))
  else tie s j.
Proof.
  intros Hv Hd Hb. destruct t as [[v d] b]. unfold tie, retie.
  cbn [epv epd epb set_epb set_epd set_epv].
  rewrite !nth_error_replace_nth.
  destruct (Nat.eqb j k); [|reflexivity].
  destruct (Nat.ltb_spec k (length (epv s))); [|lia].
  destruct (Nat.ltb_spec k (length (epd s))); [|lia].
  destruct (Nat.ltb_spec k (length (epb s))); [|lia]. reflexivity.
Qed.

Lemma attract_step s0 newbp bi k e d0 b0 :
  length (epv s0) = length (ep s0) ->
  (0 <=? killdistance s0)%float = true ->
  nth_error (combine (ep s0) (combine (epd s0) (epb s0))) k
  = Some (e, (d0, b0)) ->
  hoare (attracted_upto s0 newbp bi k)
        (attract newbp bi (Z.of_nat k, (e, (d0, b0))))
        (fun _ => attracted_upto s0 newbp bi (S k)) (fun _ => False).
Proof.
  intros Hlen Hkill Hk s [Hf Ht].
  apply nth_error_combine in Hk as [He Hk].
  apply nth_error_combine in Hk as [Hd0 Hb0].
  assert (Hv0 : exists v0, nth_error (epv s0) k = Some v0).
  { destruct (nth_error (epv s0) k) as [v0|] eqn:E; [now exists v0|].
    apply nth_error_None in E.
    assert (k < length (ep s0))%nat by (apply nth_error_Some; congruence).
    lia. }
  destruct Hv0 as [v0 Hv0].
  pose proof (Ht k) as Htk. rewrite Nat.ltb_irrefl in Htk.
  unfold tie in Htk. rewrite Hv0, Hd0, Hb0 in Htk.
  injection Htk as Hv Hd Hb.
  pose proof (ep_frame_tree s0 s Hf) as (_ & _ & _ & _ & _ & _ & Hinf & Hkd).
  assert (Hkill' : (0 <=? killdistance s)%float = true) by now rewrite Hkd.
  rewrite (attract_writes s newbp bi k e v0 d0 b0 Hv Hd Hb Hkill').
  rewrite Hinf, Hkd. split.
  - destruct (attracted _ _ newbp bi e (v0, d0, b0)) as [[v d] b].
    unfold retie. destruct Hf as (v' & d' & b' & ->).
    match goal with
    | |- ep_frame _ ?X => exists (epv X), (epd X), (epb X); reflexivity
    end.
  - intros j. rewrite tie_retie
      by (apply nth_error_Some; congruence).
    destruct (Nat.eqb_spec j k) as [->|Hne].
    + destruct (Nat.ltb_spec k (S k)); [|lia].
      unfold attracted_at. now rewrite He, Hv0, Hd0, Hb0.
    + rewrite Ht. destruct (Nat.ltb_spec j k), (Nat.ltb_spec j (S k));
        try reflexivity; lia.
Qed.

(** The whole loop returns and leaves every endpoint as the claim says. *)
Lemma attract_all_writes newbp s :
  length (epv s) = length (ep s) -> length (epd s) = length (ep s) ->
  length (epb s) = length (ep s) ->
  (0 <=? killdistance s)%float = true ->
  exists s', attract_all newbp s = (Returned tt, s') /\ ep_frame s s' /\
    forall j, tie s' j = attracted_at s newbp (len (bp s) / 3 - 1) j.
Proof.
  intros Hv Hd Hb Hkill. unfold attract_all. mrun.
  pose proof (hoare_forM_enumerate
                (attracted_upto s newbp (len (bp s) / 3 - 1))
                (fun _ => False)
                (combine (ep s) (combine (epd s) (epb s)))
                (attract newbp (len (bp s) / 3 - 1))
                (fun k a Hk =>
                   match a as a0 return
                     nth_error _ k = Some a0 ->
                     hoare _ (attract newbp _ (Z.of_nat k, a0)) _ _
                   with
                   | (e, (d0, b0)) =>
                       attract_step s newbp _ k e d0 b0 Hv Hkill
                   end Hk) s) as Hloop.
  assert (Hstart : attracted_upto s newbp (len (bp s) / 3 - 1) O s)
    by (split; [apply ep_frame_refl | reflexivity]).
  specialize (Hloop Hstart).
  destruct (forM_ _ _ s) as [[[]|e|] s']; try contradiction.
  exists s'. split; [reflexivity|]. destruct Hloop as [Hf Ht].
  split; [exact Hf|]. intros j. rewrite Ht.
  rewrite !length_combine, Hd, Hb, !Nat.min_id.
  destruct (Nat.ltb_spec j (length (ep s))) as [Hlt|Hge]; [reflexivity|].
  unfold attracted_at.
  replace (nth_error (ep s) j) with (@None vec3); [reflexivity|].
  symmetry. now apply nth_error_None.
Qed.

(** The branch points are well formed: every list has an entry for each
    and a parent comes before its child. *)
Definition lineage_ok (s : SCA) : Prop :=
  length (bpg s) = length (bpp s) /\ length (bpc s) = length (bpp s) /\
  forall i q, nth_error (bpp s) i = Some (Some q) -> 0 <= q < Z.of_nat i.

(** On such a store the walk up the parents ends. *)
Lemma stamp_lineage_returns gen fuel :
  forall i s,
  (Z.to_nat i < fuel)%nat -> 0 <= i < len (bpp s) ->
  (length (bpp s) <= length (bpg s))%nat ->
  (forall k q, nth_error (bpp s) k = Some (Some q) -> 0 <= q < Z.of_nat k) ->
  exists g, stamp_lineage fuel (Some i) gen s = (Returned tt, set_bpg g s).
Proof.
  induction fuel as [|fuel IH]; intros i s Hfuel Hi Hlen Hdec; [lia|].
  cbn [stamp_lineage]. mrun.
  rewrite setitem_total by (unfold len in *; lia). cbn iota beta.
  cbn [bpp set_bpg].
  destruct (getitem_total (bpp s) i Hi) as [ppi Hppi]. rewrite Hppi.
  cbn iota beta. destruct ppi as [q|].
  - apply getitem_nonneg_inv in Hppi; [|lia].
    pose proof (Hdec _ _ Hppi) as Hq.
    destruct (IH q (set_bpg (replace_nth (bpg s) (Z.to_nat i) gen) s))
      as [g Hg].
    + lia.
    + cbn [bpp set_bpg]. lia.
    + cbn [bpp bpg set_bpg]. now rewrite replace_nth_length.
    + exact Hdec.
    + exists g. rewrite Hg. reflexivity.
  - exists (replace_nth (bpg s) (Z.to_nat i) gen). now destruct fuel.
Qed.

Lemma append_branchpoint_returns newbp parent gen s :
  lineage_ok s -> 0 <= parent < len (bpp s) ->
  INT_MIN <= nth (Z.to_nat parent) (bpc s) 0 < INT_MAX ->
  exists s1, append_branchpoint newbp parent gen s = (Returned tt, s1).
Proof.
  intros (Hg & Hc & Hdec) Hp Hint. destruct newbp as [[n0 n1] n2].
  unfold append_branchpoint, incr_bpc. mrun. cbn [bpp bpg set_bpg set_bp].
  destruct (stamp_lineage_returns gen (S (length (bpp s))) parent
              (set_bpg (bpg s ++ [gen]) (set_bp (bp s ++ [n0; n1; n2]) s)))
    as [g Hst].
  - unfold len in Hp. lia.
  - exact Hp.
  - cbn [bpp bpg set_bpg set_bp]. rewrite length_app. lia.
  - exact Hdec.
  - rewrite Hst. cbn iota beta. cbn [bpc set_bpa set_bpc set_bpp set_bpg set_bp].
    assert (Hr : 0 <= parent < len (bpc s ++ [0])).
    { rewrite len_app. unfold len in *. rewrite Hc. simpl. lia. }
    destruct (getitem_total _ _ Hr) as [c Hgc]. rewrite Hgc. cbn iota beta.
    assert (Hcount : c = nth (Z.to_nat parent) (bpc s) 0).
    { apply getitem_nonneg_inv in Hgc; [|lia].
      rewrite nth_error_app1 in Hgc by (unfold len in Hp; lia).
      symmetry. now apply nth_error_nth. }
    rewrite as_int_in_range by lia. cbn iota beta.
    rewrite setitem_total by exact Hr. cbn iota beta. now eexists.
Qed.

(** *** The second loop, endpoint by endpoint *)

Lemma setitem_nat_inv {A} (l : list A) k a l' :
  setitem l (Z.of_nat k) a = Returned l' ->
  l' = replace_nth l k a /\ (k < length l)%nat.
Proof.
  intros Hset. apply setitem_inv in Hset as (k' & Hk' & ->).
  apply py_index_inv in Hk' as [[Hr ->]|[Hr _]]; [|lia].
  rewrite Nat2Z.id. unfold len in Hr. split; [reflexivity | lia].
Qed.

(** Branch point [i] has more than one child. *)
Definition full (s : SCA) (i : Z) : bool :=
  match getitem (bpc s) i with
  | Returned c => c >? 1
  | _ => false
  end.

Definition tied_to (parent : Z) (b : option Z) : bool :=
  match b with
  | Some b => b =? parent
  | None => false
  end.

(** The ties of endpoint [j] of [s0] once re-resolved: those of the branch
    point that [closestBranchPoint] finds for its position. *)
Definition resolved_at (s0 : SCA) (j : nat)
  : option vec3 * option float * option Z :=
  match nth_error (ep s0) j with
  | Some e =>
      match closestBranchPoint s0 e with
      | Returned (bi, v, d) => (Some v, Some d, Some bi)
      | _ => tie s0 j
      end
  | None => tie s0 j
  end.

(** The first [k] endpoints have been looked at: those tied to [parent]
    are re-resolved, the others and the rest are as they were. *)
Definition resolved_upto (s0 : SCA) (parent : Z) (k : nat) (s : SCA) : Prop :=
  ep_frame s0 s /\
  forall j, tie s j =
    if (j <? k)%nat && tied_to parent (nth_error (epb s0) j)
    then resolved_at s0 j else tie s0 j.

Lemma resolve_step s0 parent k b0 :
  nth_error (epb s0) k = Some b0 ->
  hoare (resolved_upto s0 parent k) (reassign parent (Z.of_nat k, b0))
        (fun _ => resolved_upto s0 parent (S k)) (fun _ => True).
Proof.
  intros Hk s [Hf Ht]. unfold reassign.
  assert (Hother : forall j, j <> k ->
            ((j <? S k)%nat && tied_to parent (nth_error (epb s0) j))
            = ((j <? k)%nat && tied_to parent (nth_error (epb s0) j))).
  { intros j Hj. f_equal.
    destruct (Nat.ltb_spec j (S k)), (Nat.ltb_spec j k); try reflexivity; lia. }
  destruct (Z.eqb_spec b0 parent) as [->|Hne].
  - pose proof (ep_frame_tree s0 s Hf) as (Hbp & Hbpc & _ & _ & _ & Hep & Hinf & _).
    mrun. rewrite Hep.
    destruct (getitem (ep s0) (Z.of_nat k)) as [e| |] eqn:Ee; try exact I.
    apply getitem_nonneg_inv in Ee; [|lia]. rewrite Nat2Z.id in Ee.
    rewrite (closestBranchPoint_frame s0 s e Hbp Hbpc Hinf).
    destruct (closestBranchPoint s0 e) as [[[bi v] d]| |] eqn:Ecl;
      try exact I.
    destruct (setitem (epb s) (Z.of_nat k) bi) as [lb| |] eqn:Eb;
      try exact I.
    cbn [epv set_epb].
    destruct (setitem (epv s) (Z.of_nat k) v) as [lv| |] eqn:Ev;
      try exact I.
    cbn [epd set_epv set_epb].
    destruct (setitem (epd s) (Z.of_nat k) d) as [ld| |] eqn:Ed;
      try exact I.
    apply setitem_nat_inv in Eb as [-> Hlb], Ev as [-> Hlv], Ed as [-> Hld].
    split.
    + destruct Hf as (v' & d' & b' & ->).
      match goal with
      | |- ep_frame _ ?X => exists (epv X), (epd X), (epb X); reflexivity
      end.
    + intros j. unfold tie.
      cbn [epv epd epb set_epb set_epd set_epv].
      rewrite !nth_error_replace_nth.
      destruct (Nat.eqb_spec j k) as [->|Hjk].
      * destruct (Nat.ltb_spec k (length (epv s))); [|lia].
        destruct (Nat.ltb_spec k (length (epd s))); [|lia].
        destruct (Nat.ltb_spec k (length (epb s))); [|lia].
        destruct (Nat.ltb_spec k (S k)); [|lia].
        rewrite Hk. cbn [andb tied_to]. rewrite Z.eqb_refl.
        unfold resolved_at. now rewrite Ee, Ecl.
      * rewrite (Hother j Hjk). apply Ht.
  - cbn [ret]. split; [exact Hf|]. intros j.
    destruct (Nat.eq_dec j k) as [->|Hjk].
    + rewrite Ht, Hk. cbn [tied_to].
      destruct (Z.eqb_spec b0 parent); [contradiction|].
      now rewrite !andb_false_r.
    + rewrite (Hother j Hjk). apply Ht.
Qed.

(** When the second loop has run to its end, the endpoints that were tied
    to a full parent are re-resolved and the others are as they were. *)
Lemma reassign_all_resolves parent s s' :
  reassign_all parent s = (Returned tt, s') ->
  ep_frame s s' /\
  forall j, tie s' j =
    if tied_to parent (nth_error (epb s) j) && full s parent
    then resolved_at s j else tie s j.
Proof.
  unfold reassign_all, full. mrun.
  destruct (getitem (bpc s) parent) as [c| |]; try discriminate.
  destruct (c >? 1).
  - pose proof (hoare_forM_enumerate (resolved_upto s parent)
                  (fun _ => True) (epb s) (reassign parent)
                  (fun k a Hk => resolve_step s parent k a Hk) s) as Hloop.
    assert (Hstart : resolved_upto s parent O s)
      by (split; [apply ep_frame_refl | reflexivity]).
    specialize (Hloop Hstart).
    destruct (forM_ (enumerate (epb s)) (reassign parent) s) as [[[]|e|] s3];
      try discriminate.
    intros [= <-]. destruct Hloop as [Hf Ht]. split; [exact Hf|].
    intros j. rewrite Ht, andb_true_r.
    destruct (Nat.ltb_spec j (length (epb s))) as [Hlt|Hge]; [reflexivity|].
    apply nth_error_None in Hge. now rewrite Hge.
  - intros [= <-]. split; [apply ep_frame_refl|]. intros j.
    now rewrite andb_false_r.
Qed.

(** The amended words for one endpoint at [e], after the update [t] of the
    first loop: when it is then tied to [parent] and [parent] has more than
    one child, its ties are those that [closestBranchPoint] finds for [e] in
    the store [s1] that holds the new branch point; else they are [t]. *)
Definition re_resolved (s1 : SCA) (parent : Z) (e : vec3)
  (t : vec3 * float * Z) : vec3 * float * Z :=
  let '(_, _, b) := t in
  if (b =? parent) && full s1 parent then
    match closestBranchPoint s1 e with
    | Returned (bi, v, d) => (v, d, bi)
    | _ => t
    end
  else t.

(** C3, as amended.  On a well-formed store, with the index of a branch
    point as parent, the parent's count a C int below its maximum and a kill
    distance that is not negative, a call of [addBranchPoint] runs its
    appends and its loop over the endpoints to the end, and that loop leaves
    each endpoint as the claim says, with the new branch point's index
    [len(self.bp)//3]: dead ones and those not nearer than recorded are
    untouched, the others die within the kill distance and else get the new
    direction and distance and the new index or -2.  The second loop then
    re-resolves every endpoint that is tied to the parent when the parent has
    more than one child, nearer or not: when the call returns, each endpoint
    holds what the first loop left, replaced by the result of
    [closestBranchPoint] for it when it was tied to the full parent.
    Whatever the outcome of the call, an endpoint that the first loop left
    tied to something else than the parent keeps that association. *)
Theorem addBranchPoint_attracts (newbp : vec3) (parent gen : Z) (s : SCA) :
  lineage_ok s -> 0 <= parent < len (bpp s) ->
  INT_MIN <= nth (Z.to_nat parent) (bpc s) 0 < INT_MAX ->
  length (epv s) = length (ep s) -> length (epd s) = length (ep s) ->
  length (epb s) = length (ep s) ->
  (0 <=? killdistance s)%float = true ->
  exists s1 s2,
    append_branchpoint newbp parent gen s = (Returned tt, s1) /\
    attract_all newbp s1 = (Returned tt, s2) /\
    addBranchPoint newbp parent gen s
    = bind (reassign_all parent) (fun _ => incr_bpa parent) s2 /\
    (forall j e v0 d0 b0,
       nth_error (ep s) j = Some e -> nth_error (epv s) j = Some v0 ->
       nth_error (epd s) j = Some d0 -> nth_error (epb s) j = Some b0 ->
       tie s2 j =
       let '(v, d, b) :=
         attracted (killdistance s) (influence s) newbp (len (bp s) / 3) e
           (v0, d0, b0) in
       (Some v, Some d, Some b)) /\
    (forall s',
       addBranchPoint newbp parent gen s = (Returned tt, s') ->
       forall j e v0 d0 b0,
         nth_error (ep s) j = Some e -> nth_error (epv s) j = Some v0 ->
         nth_error (epd s) j = Some d0 -> nth_error (epb s) j = Some b0 ->
         tie s' j =
         let '(v, d, b) :=
           re_resolved s1 parent e
             (attracted (killdistance s) (influence s) newbp
                (len (bp s) / 3) e (v0, d0, b0)) in
         (Some v, Some d, Some b)) /\
    (forall j, nth_error (epb s2) j <> Some parent ->
       nth_error (epb (snd (addBranchPoint newbp parent gen s))) j
       = nth_error (epb s2) j).
Proof.
  intros Hok Hp Hint Hv Hd Hb Hkill.
  destruct (append_branchpoint_returns newbp parent gen s Hok Hp Hint)
    as [s1 E1].
  pose proof (append_branchpoint_spec newbp parent gen s) as Hspec.
  destruct newbp as [[n0 n1] n2]. rewrite E1 in Hspec.
  destruct Hspec as (Hf1 & Hbp1 & _).
  pose proof (tree_frame_ep s s1 Hf1) as (Hep & Hepb & Hepv & Hepd & Hinf & Hkd).
  destruct (attract_all_writes (n0, n1, n2) s1) as (s2 & E2 & Hf2 & Ht);
    try congruence.
  exists s1, s2. split; [exact E1|]. split; [exact E2|].
  assert (Hcall : addBranchPoint (n0, n1, n2) parent gen s
                  = bind (reassign_all parent) (fun _ => incr_bpa parent) s2).
  { rewrite addBranchPoint_unfold, E1, E2. reflexivity. }
  split; [exact Hcall|].
  assert (Hloop1 : forall j e v0 d0 b0,
            nth_error (ep s) j = Some e -> nth_error (epv s) j = Some v0 ->
            nth_error (epd s) j = Some d0 -> nth_error (epb s) j = Some b0 ->
            tie s2 j =
            let '(v, d, b) :=
              attracted (killdistance s) (influence s) (n0, n1, n2)
                (len (bp s) / 3) e (v0, d0, b0) in
            (Some v, Some d, Some b)).
  { intros j e v0 d0 b0 He Hv0 Hd0 Hb0. rewrite Ht. unfold attracted_at.
    rewrite Hep, Hepv, Hepd, Hepb, He, Hv0, Hd0, Hb0, Hinf, Hkd, Hbp1.
    rewrite len_app. change (len [n0; n1; n2]) with (1 * 3).
    rewrite Z.div_add by lia.
    replace (len (bp s) / 3 + 1 - 1) with (len (bp s) / 3) by lia.
    reflexivity. }
  split; [exact Hloop1|]. split.
  2:{ intros j Hj. rewrite Hcall. unfold bind.
      pose proof (reassign_all_spec parent s2) as H3.
      destruct (reassign_all parent s2) as [o3 s3]. destruct H3 as [_ H3].
      assert (H23 : nth_error (epb s3) j = nth_error (epb s2) j).
      { destruct H3 as [[-> _]|(c & k & _ & _ & (_ & _ & Hre) & _)];
          [reflexivity|].
        destruct (Hre j) as [(_ & Hpar & _)|(_ & He)];
          [congruence | exact He]. }
      destruct o3 as [u|e|]; cbn [snd]; try exact H23.
      destruct (incr_bpa_frame parent s3) as [a Ha]. rewrite Ha. exact H23. }
  intros s' Hret j e v0 d0 b0 He Hv0 Hd0 Hb0.
  rewrite Hcall in Hret. unfold bind in Hret.
  destruct (reassign_all parent s2) as [[[]|x|] s3] eqn:E3; try discriminate.
  apply reassign_all_resolves in E3 as [Hf3 Ht3].
  destruct (incr_bpa_frame parent s3) as [a Ha]. rewrite Hret in Ha.
  cbn [snd] in Ha. subst s'.
  change (tie (set_bpa a s3) j) with (tie s3 j). rewrite Ht3.
  pose proof (Hloop1 j e v0 d0 b0 He Hv0 Hd0 Hb0) as Hj.
  pose proof (ep_frame_tree s1 s2 Hf2) as (Hbp2 & Hbpc2 & _ & _ & _ & Hep2 & Hinf2 & _).
  destruct (attracted (killdistance s) (influence s) (n0, n1, n2)
              (len (bp s) / 3) e (v0, d0, b0)) as [[v d] b].
  assert (Hb2 : nth_error (epb s2) j = Some b)
    by (unfold tie in Hj; congruence).
  rewrite Hb2. cbn [tied_to re_resolved].
  replace (full s2 parent) with (full s1 parent)
    by (unfold full; now rewrite Hbpc2).
  destruct ((b =? parent) && full s1 parent); [|exact Hj].
  unfold resolved_at. rewrite Hep2, Hep, He.
  rewrite (closestBranchPoint_frame s1 s2 e Hbp2 Hbpc2 Hinf2).
  destruct (closestBranchPoint s1 e) as [[[bi v'] d']| |];
    [reflexivity | exact Hj | exact Hj].
Qed.

End AttractFacts.

(** ** iterate *)

(** What the two invariants below read of [self]. *)
Definition core {H : Host} (s : SCA) : list float * list Z * list Z :=
  (bp s, bpc s, epb s).

Section Materialize.
Context {H : Host}.

(** A call of the process that leaves the core of the engine alone. *)
Definition keeps_core {A} (m : M Proc A) : Prop :=
  forall p, core (self_of (snd (m p))) = core (self_of p).

Lemma keeps_core_ret {A} (a : A) : keeps_core (ret a).
Proof. intros p. reflexivity. Qed.

Lemma keeps_core_liftO {A} (o : outcome A) : keeps_core (liftO o).
Proof. intros p. reflexivity. Qed.

Lemma keeps_core_get : keeps_core get.
Proof. intros p. reflexivity. Qed.

Lemma keeps_core_diverge {A} : keeps_core (@diverge Proc A).
Proof. intros p. reflexivity. Qed.

Lemma keeps_core_bind {A B} (m : M Proc A) (k : A -> M Proc B) :
  keeps_core m -> (forall a, keeps_core (k a)) -> keeps_core (bind m k).
Proof.
  intros Hm Hk p. unfold bind. specialize (Hm p).
  destruct (m p) as [[a|e|] p']; simpl in *; try exact Hm.
  now rewrite Hk.
Qed.

Lemma keeps_core_forM {A} (l : list A) (body : A -> M Proc unit) :
  (forall a, keeps_core (body a)) -> keeps_core (forM_ l body).
Proof.
  intros Hb. induction l as [|a rest IH]; simpl.
  - apply keeps_core_ret.
  - apply keeps_core_bind; auto.
Qed.

Lemma keeps_core_update (f : list Branchpoint.t -> list Branchpoint.t) :
  keeps_core (update_branchpoints f).
Proof. intros p. reflexivity. Qed.

Lemma keeps_core_new pos parent gen : keeps_core (new_Branchpoint pos parent gen).
Proof. intros p. reflexivity. Qed.

Lemma keeps_core_time : keeps_core time.
Proof. intros p. reflexivity. Qed.

Ltac keeps :=
  repeat first
    [ apply keeps_core_ret | apply keeps_core_liftO | apply keeps_core_get
    | apply keeps_core_update | apply keeps_core_new | apply keeps_core_time
    | apply keeps_core_diverge
    | apply keeps_core_bind; [|intros ?] ].

Lemma keeps_core_materialize bi : keeps_core (materialize bi).
Proof.
  unfold materialize. keeps.
  match goal with |- keeps_core (match ?x with _ => _ end) => destruct x end;
    keeps.
  match goal with |- keeps_core (match ?x with _ => _ end) => destruct x end;
    keeps.
Qed.

Lemma keeps_core_count_up fuel cur : keeps_core (count_up fuel cur).
Proof.
  revert cur. induction fuel as [|fuel IH]; intros cur; simpl;
    destruct (Branchpoint.parent cur); keeps. apply IH.
Qed.

Lemma keeps_core_count_connections k : keeps_core (count_connections k).
Proof. unfold count_connections. keeps. apply keeps_core_count_up. Qed.

Lemma keeps_core_endpoints :
  keeps_core
    (on_st (on_self (modify (fun s => set_endpoints (map Vector (ep s)) s)))).
Proof. intros p. reflexivity. Qed.

End Materialize.

Section Layers.
Context {H : Host}.
Variables (Inv Err : SCA -> Prop).
Hypothesis Inv_Err : forall s, Inv s -> Err s.
Hypothesis Inv_core : forall s s', core s' = core s -> Inv s -> Inv s'.
Hypothesis Err_core : forall s s', core s' = core s -> Err s -> Err s'.
Hypothesis grow_Inv : forall gen,
  hoare (fun w => Inv (self w)) (growBranches gen)
        (fun _ w => Inv (self w)) (fun w => Err (self w)).
Hypothesis add_Inv : forall p, hoare Inv (addEndPoint p) (fun _ => Inv) Err.

Lemma on_self_Inv {A} (m : M SCA A) :
  hoare Inv m (fun _ => Inv) Err ->
  hoare (fun w => Inv (self w)) (on_self m)
        (fun _ w => Inv (self w)) (fun w => Err (self w)).
Proof.
  intros Hm. apply (hoare_zoom self set_self m Inv (fun _ => Inv) Err);
    [reflexivity | exact Hm].
Qed.

Lemma on_st_Inv {A} (m : M St A) :
  hoare (fun w => Inv (self w)) m (fun _ w => Inv (self w))
        (fun w => Err (self w)) ->
  hoare (fun p => Inv (self_of p)) (on_st m)
        (fun _ p => Inv (self_of p)) (fun p => Err (self_of p)).
Proof.
  intros Hm.
  apply (hoare_zoom st set_st m (fun w => Inv (self w))
           (fun _ w => Inv (self w)) (fun w => Err (self w)));
    [reflexivity | exact Hm].
Qed.

Lemma keeps_core_Inv {A} (m : M Proc A) :
  keeps_core m ->
  hoare (fun p => Inv (self_of p)) m
        (fun _ p => Inv (self_of p)) (fun p => Err (self_of p)).
Proof.
  intros Hm p Hp. specialize (Hm p).
  destruct (m p) as [[a|e|] p']; simpl in Hm.
  - eapply Inv_core; eauto.
  - eapply Err_core; eauto.
  - eapply Err_core; eauto.
Qed.

Lemma next_volumepoint_Inv :
  hoare (fun w => Inv (self w)) next_volumepoint
        (fun _ w => Inv (self w)) (fun w => Err (self w)).
Proof.
  intros w Hw. unfold next_volumepoint.
  destruct (next (volumepoint (self w)) (rand w)) as [[[p g]|e|] r];
    simpl; auto.
  eapply Inv_core; [|exact Hw]. reflexivity.
Qed.

Lemma draw_expovariate_Inv rate :
  hoare (fun w => Inv (self w)) (draw_expovariate rate)
        (fun _ w => Inv (self w)) (fun w => Err (self w)).
Proof.
  intros w Hw. unfold draw_expovariate.
  destruct (expovariate rate (rand w)). exact Hw.
Qed.

Lemma arrivals_Inv fuel rate n t :
  hoare (fun w => Inv (self w)) (arrivals fuel rate n t)
        (fun _ w => Inv (self w)) (fun w => Err (self w)).
Proof.
  revert t. induction fuel as [|fuel IH]; intros t; simpl;
    destruct (t <? n)%float;
    try (apply hoare_ret; auto); try (apply hoare_diverge; auto).
  eapply hoare_bind; [apply next_volumepoint_Inv|]. intros p.
  eapply hoare_bind; [apply on_self_Inv, add_Inv|]. intros u.
  eapply hoare_bind; [apply draw_expovariate_Inv|]. intros e. apply IH.
Qed.

Lemma decay_core s : core (decay s) = core s.
Proof.
  unfold decay. destruct (0 <? apicaltiming s)%float; [|reflexivity].
  match goal with |- context [if ?b then _ else _] => destruct b end;
    reflexivity.
Qed.

Lemma generations_Inv fuel gens starttime rate maxtime t n :
  hoare (fun p => Inv (self_of p))
        (generations fuel gens starttime rate maxtime t n)
        (fun _ p => Inv (self_of p)) (fun p => Err (self_of p)).
Proof.
  revert t n. induction gens as [|i rest IH]; intros t n; simpl.
  - apply hoare_ret. auto.
  - eapply hoare_bind; [apply on_st_Inv, grow_Inv|]. intros u.
    eapply hoare_bind with (R := fun _ p => Inv (self_of p)).
    + destruct (0 <? maxtime)%float.
      * apply keeps_core_Inv. apply keeps_core_bind;
          [apply keeps_core_time | intros; apply keeps_core_ret].
      * apply hoare_ret. auto.
    + intros [|]; [apply hoare_ret; auto|].
      eapply hoare_bind with (R := fun _ p => Inv (self_of p)).
      * destruct (0 <? rate)%float.
        -- eapply hoare_bind; [apply on_st_Inv, arrivals_Inv|].
           intros t'. apply hoare_ret. auto.
        -- apply hoare_ret. auto.
      * intros [t' n'].
        eapply hoare_bind with (R := fun _ p => Inv (self_of p)).
        -- intros p Hp. simpl. eapply Inv_core; [|exact Hp].
           apply decay_core.
        -- intros u'. apply IH.
Qed.

Lemma iterate_Inv newendpointsper1000 maxtime fuel :
  hoare (fun p => Inv (self_of p)) (iterate newendpointsper1000 maxtime fuel)
        (fun _ p => Inv (self_of p)) (fun p => Err (self_of p)).
Proof.
  unfold iterate.
  eapply hoare_bind; [apply keeps_core_Inv, keeps_core_time|]. intros t0.
  eapply hoare_bind with (R := fun _ p => Inv (self_of p)).
  { destruct (0 <? _)%float.
    - apply on_st_Inv, draw_expovariate_Inv.
    - apply hoare_ret. auto. }
  intros t. eapply hoare_bind with (R := fun _ p => Inv (self_of p)).
  { apply hoare_get. auto. }
  intros p0. eapply hoare_bind; [apply generations_Inv|]. intros u.
  apply keeps_core_Inv. unfold fill_results.
  apply keeps_core_bind; [apply keeps_core_update|]. intros u1.
  apply keeps_core_bind; [apply keeps_core_get|]. intros p1.
  apply keeps_core_bind;
    [apply keeps_core_forM, keeps_core_materialize|]. intros u2.
  apply keeps_core_bind; [apply keeps_core_get|]. intros p2.
  apply keeps_core_bind;
    [apply keeps_core_forM, keeps_core_count_connections|]. intros u3.
  apply keeps_core_endpoints.
Qed.

Lemma seed_endpoints_Inv n :
  hoare (fun w => Inv (self w)) (seed_endpoints n)
        (fun _ w => Inv (self w)) (fun w => Err (self w)).
Proof.
  unfold seed_endpoints. apply hoare_forM. intros i _.
  eapply hoare_bind; [apply next_volumepoint_Inv|]. intros p.
  apply on_self_Inv, add_Inv.
Qed.

End Layers.

(** ** The two invariants of a session *)

Section Sessions.
Context {H : Host}.

Lemma consistent_core s s' : core s' = core s -> consistent s -> consistent s'.
Proof.
  unfold core. intros [= Hbp Hbpc Hepb] (Hlen & Hb & Ht).
  split; [now rewrite Hbp, Hbpc|]. split; [unfold bounded; now rewrite Hbpc|].
  rewrite Hepb. eapply Forall_impl; [|exact Ht].
  intros b [?|[?|Hg]]; [now left | right; now left | right; right].
  eapply growable_frame; eauto.
Qed.

Lemma bounded_core s s' : core s' = core s -> bounded s -> bounded s'.
Proof. unfold core, bounded. now intros [= _ -> _]. Qed.

Lemma dead_core j s s' :
  core s' = core s -> nth_error (epb s) j = Some (-1) ->
  nth_error (epb s') j = Some (-1).
Proof. unfold core. now intros [= _ _ ->]. Qed.

Lemma consistent_bounded s : consistent s -> bounded s.
Proof. intros H0. apply H0. Qed.

Lemma perform_consistent c :
  grows c = true ->
  hoare (fun p => consistent (self_of p)) (perform c)
        (fun _ p => consistent (self_of p)) (fun p => bounded (self_of p)).
Proof.
  destruct c as [gen|n m fuel|p|newbp parent gen]; simpl; intros Hg;
    try discriminate.
  - apply (on_st_Inv consistent bounded), growBranches_consistent.
  - apply (iterate_Inv consistent bounded consistent_bounded consistent_core
             bounded_core growBranches_consistent addEndPoint_consistent).
  - apply (on_st_Inv consistent bounded), (on_self_Inv consistent bounded),
      addEndPoint_consistent.
Qed.

Lemma fresh_consistent a : consistent (fresh a).
Proof.
  split; [reflexivity|]. split; [|constructor].
  constructor; [lia | constructor].
Qed.

Lemma new_SCA_consistent a :
  kw_startingpoints a = [] ->
  hoare (fun _ => True) (new_SCA a)
        (fun _ p => consistent (self_of p)) (fun p => bounded (self_of p)).
Proof.
  intros Hsp p _. unfold new_SCA, SCA_init. rewrite Hsp.
  unfold seed_branchpoints. cbn [len length Z.of_nat Z.gtb Z.compare].
  pose proof (seed_endpoints_Inv consistent bounded consistent_bounded
                consistent_core addEndPoint_consistent (kw_NENDPOINTS a)
                {| self := fresh a; rand := seed (kw_SEED a) |}
                (fresh_consistent a)) as Hseed.
  unfold bind.
  destruct (seed_endpoints (kw_NENDPOINTS a) _) as [[u|e|] w]; exact Hseed.
Qed.

(** C1.  In a session whose engine is made without starting points and
    whose calls are [growBranches], [iterate] and [addEndPoint], in any
    number and order, no count of [self.bpc] exceeds 2 in the state
    reached, be it after the last call or at the call that raised. *)
Theorem children_never_exceed_two (a : Args) (calls : list call) (p : Proc) :
  kw_startingpoints a = [] -> forallb grows calls = true ->
  Forall (fun c => c <= 2) (bpc (self_of (snd (session a calls p)))).
Proof.
  intros Hsp Hcalls. unfold session.
  apply (hoare_snd (fun _ => True) (fun q => bounded (self_of q))); [|exact I].
  eapply hoare_bind with (R := fun _ q => consistent (self_of q)).
  - apply new_SCA_consistent, Hsp.
  - intros u. eapply hoare_conseq.
    + apply (hoare_forM (fun q => consistent (self_of q))
               (fun q => bounded (self_of q))).
      intros c Hc. apply perform_consistent.
      rewrite forallb_forall in Hcalls. now apply Hcalls.
    + auto.
    + intros u' q Hq. now apply consistent_bounded.
    + auto.
Qed.

(** C6.  Whatever the call ([addBranchPoint], [addEndPoint],
    [growBranches] or [iterate], with any arguments) and the state it starts
    from, an endpoint tied to -1 before the call is tied to -1 in the state
    the call leaves, whether it returns or raises. *)
Theorem dead_stays_dead (c : call) (p : Proc) (j : nat) :
  nth_error (epb (self_of p)) j = Some (-1) ->
  nth_error (epb (self_of (snd (perform c p)))) j = Some (-1).
Proof.
  apply (hoare_snd (fun q => nth_error (epb (self_of q)) j = Some (-1))
                   (fun q => nth_error (epb (self_of q)) j = Some (-1))).
  pose (dead := fun s : SCA => nth_error (epb s) j = Some (-1)).
  destruct c as [gen|n m fuel|e|newbp parent gen]; simpl.
  - apply (on_st_Inv dead dead), growBranches_dead.
  - apply (iterate_Inv dead dead (fun s Hs => Hs) (dead_core j) (dead_core j)
             (fun gen => growBranches_dead gen j)
             (fun e => addEndPoint_dead e j)).
  - apply (on_st_Inv dead dead), (on_self_Inv dead dead), addEndPoint_dead.
  - apply (on_st_Inv dead dead), (on_self_Inv dead dead).
    intros s Hs. pose proof (addBranchPoint_dead newbp parent gen s j Hs) as Hd.
    destruct (addBranchPoint newbp parent gen s) as [[u|x|] s']; exact Hd.
Qed.

End Sessions.

(** ** The constructor *)

Section Constructor.
Context {H : Host}.

(** With [self.bpp] empty, [addBranchPoint(bp, -1, generation)] raises
    IndexError: the walk up the parents reads [self.bpp[-1]]. *)
Lemma addBranchPoint_no_parent newbp gen s :
  bpp s = [] -> fst (addBranchPoint newbp (-1) gen s) = Raised IndexError.
Proof.
  intros Hbpp. destruct newbp as [[n0 n1] n2].
  unfold addBranchPoint, append_branchpoint. mrun. cbn [bpp set_bpg set_bp].
  rewrite Hbpp. cbn [length stamp_lineage]. mrun.
  cbn [bpg set_bpg set_bp bpp]. rewrite setitem_last, Hbpp. reflexivity.
Qed.

(** C4 fails on the code.  Whenever starting points are given the
    constructor does not return; when the endpoints were seeded it raises
    IndexError at the first starting point. *)
Theorem startingpoints_raise (a : Args) :
  kw_startingpoints a <> [] ->
  fst (SCA_init a) <> Returned tt /\
  (fst (seed_endpoints (kw_NENDPOINTS a)
          {| self := fresh a; rand := seed (kw_SEED a) |}) = Returned tt ->
   fst (SCA_init a) = Raised IndexError).
Proof.
  intros Hsp. unfold SCA_init, bind.
  destruct (seed_endpoints (kw_NENDPOINTS a) _) as [[[]|e|] [s r]];
    cbn [fst]; try (split; [discriminate | discriminate]).
  destruct (kw_startingpoints a) as [|sp rest]; [congruence|].
  assert (E : fst (seed_branchpoints (sp :: rest) {| self := s; rand := r |})
              = Raised IndexError).
  { unfold seed_branchpoints.
    replace (len (sp :: rest) >? 0) with true
      by (symmetry; apply Z.gtb_lt; unfold len; simpl length; lia).
    cbn [forM_]. unfold bind. rewrite !on_self_unfold. cbn [fst snd modify].
    now rewrite addBranchPoint_no_parent. }
  rewrite E. split; [discriminate | reflexivity].
Qed.

(** [s] with another step length and kill distance. *)
Definition retune (d k : float) (s : SCA) : SCA :=
  {| killdistance := k; branchlength := d;
     maxiterations := maxiterations s; tropism := tropism s;
     influence := influence s; apicalcontrol := apicalcontrol s;
     apicalcontrolfalloff := apicalcontrolfalloff s;
     apicaltiming := apicaltiming s; apicalstep := apicalstep s; bp := bp s;
     bpg := bpg s; bpp := bpp s; bpc := bpc s; bpa := bpa s; ep := ep s;
     epb := epb s; epv := epv s; epd := epd s; volumepoint := volumepoint s;
     exclude := exclude s; branchpoints := branchpoints s;
     endpoints := endpoints s |}.

Definition retune_args (d k : float) (a : Args) : Args :=
  {| kw_NENDPOINTS := kw_NENDPOINTS a; kw_d := d; kw_NBP := kw_NBP a;
     kw_KILLDIST := k; kw_INFLUENCE := kw_INFLUENCE a; kw_SEED := kw_SEED a;
     kw_volume := kw_volume a; kw_TROPISM := kw_TROPISM a;
     kw_exclude := kw_exclude a; kw_startingpoints := kw_startingpoints a;
     kw_apicalcontrol := kw_apicalcontrol a;
     kw_apicalcontrolfalloff := kw_apicalcontrolfalloff a;
     kw_apicaltiming := kw_apicaltiming a |}.

Definition retune_St (d k : float) (w : St) : St :=
  {| self := retune d k (self w); rand := rand w |}.

(** Seeding the endpoints never looks at the step length or the kill
    distance. *)
Lemma seed_one_retune d k (i : Z) w :
  bind next_volumepoint (fun p => on_self (addEndPoint p)) (retune_St d k w)
  = (fst (bind next_volumepoint (fun p => on_self (addEndPoint p)) w),
     retune_St d k
       (snd (bind next_volumepoint (fun p => on_self (addEndPoint p)) w))).
Proof.
  destruct w as [s r]. unfold bind, next_volumepoint, retune_St.
  cbn [self rand volumepoint retune].
  destruct (next (volumepoint s) r) as [[[p g]|e|] r']; try reflexivity.
  rewrite !on_self_unfold. unfold addEndPoint. mrun.
  change (closestBranchPoint
            (set_ep (ep (retune d k (set_volumepoint g s)) ++ [p])
               (retune d k (set_volumepoint g s))) p)
    with (closestBranchPoint
            (set_ep (ep (set_volumepoint g s) ++ [p]) (set_volumepoint g s))
            p).
  destruct (closestBranchPoint _ p) as [[[bi v] dist]| |]; reflexivity.
Qed.

Lemma seed_endpoints_retune d k n w :
  seed_endpoints n (retune_St d k w)
  = (fst (seed_endpoints n w), retune_St d k (snd (seed_endpoints n w))).
Proof.
  unfold seed_endpoints. revert w.
  induction (range n) as [|i rest IH]; intros w; [reflexivity|].
  rewrite !forM_cons. rewrite (seed_one_retune d k i w).
  destruct (bind next_volumepoint (fun p => on_self (addEndPoint p)) w)
    as [[u|e|] w']; cbn [fst snd]; try reflexivity.
  apply IH.
Qed.

(** With [self.bpp] empty the call raises before it looks at anything but
    the lists of the branch points. *)
Lemma addBranchPoint_no_parent_retune d k newbp gen s :
  bpp s = [] ->
  addBranchPoint newbp (-1) gen (retune d k s)
  = (fst (addBranchPoint newbp (-1) gen s),
     retune d k (snd (addBranchPoint newbp (-1) gen s))).
Proof.
  intros Hbpp. destruct newbp as [[n0 n1] n2].
  unfold addBranchPoint, append_branchpoint. mrun.
  cbn [bpp bpg bp set_bpg set_bp retune]. rewrite Hbpp.
  cbn [length stamp_lineage]. mrun.
  cbn [bpg set_bpg set_bp bpp retune]. rewrite !setitem_last, Hbpp.
  reflexivity.
Qed.

Lemma seed_branchpoints_first sp rest s r :
  seed_branchpoints (sp :: rest) {| self := s; rand := r |}
  = (Raised IndexError,
     {| self := snd (addBranchPoint sp (-1) 0
                       (set_bpc [] (set_bpp [] (set_bp [] s))));
        rand := r |}).
Proof.
  unfold seed_branchpoints.
  replace (len (sp :: rest) >? 0) with true
    by (symmetry; apply Z.gtb_lt; unfold len; simpl length; lia).
  cbn [forM_]. unfold bind. rewrite !on_self_unfold.
  cbn [fst snd modify self rand set_self]. rewrite ?on_self_unfold.
  cbn [fst snd self rand set_self].
  now rewrite (addBranchPoint_no_parent sp 0
                 (set_bpc [] (set_bpp [] (set_bp [] s))) eq_refl).
Qed.

Lemma seed_branchpoints_retune d k sps w :
  seed_branchpoints sps (retune_St d k w)
  = (fst (seed_branchpoints sps w), retune_St d k (snd (seed_branchpoints sps w))).
Proof.
  destruct w as [s r]. destruct sps as [|sp rest]; [reflexivity|].
  unfold retune_St at 1. cbn [self rand].
  rewrite !seed_branchpoints_first. cbn [fst snd retune_St self rand].
  change (set_bpc [] (set_bpp [] (set_bp [] (retune d k s))))
    with (retune d k (set_bpc [] (set_bpp [] (set_bp [] s)))).
  now rewrite addBranchPoint_no_parent_retune.
Qed.

(** The three settings that the claim names. *)
Definition same_settings (s s' : SCA) : Prop :=
  branchlength s' = branchlength s /\ killdistance s' = killdistance s /\
  influence s' = influence s.

Lemma same_settings_trans s1 s2 s3 :
  same_settings s1 s2 -> same_settings s2 s3 -> same_settings s1 s3.
Proof. unfold same_settings. intuition congruence. Qed.

Lemma addEndPoint_settings p s : same_settings s (snd (addEndPoint p s)).
Proof.
  unfold addEndPoint. mrun.
  destruct (closestBranchPoint _ p) as [[[bi v] dist]| |];
    repeat split.
Qed.

Lemma addBranchPoint_settings newbp parent gen s :
  same_settings s (snd (addBranchPoint newbp parent gen s)).
Proof.
  assert (Htree : forall s1 s2, tree_frame s1 s2 -> same_settings s1 s2)
    by (intros s1 s2 (b & g & p & c & a & ->); repeat split).
  assert (Hep : forall s1 s2, ep_frame s1 s2 -> same_settings s1 s2)
    by (intros s1 s2 (v & d & b & ->); repeat split).
  rewrite addBranchPoint_unfold.
  pose proof (append_branchpoint_spec newbp parent gen s) as H1.
  destruct newbp as [[n0 n1] n2].
  destruct (append_branchpoint (n0, n1, n2) parent gen s) as [o1 s1].
  destruct H1 as [H1 _]. apply Htree in H1.
  destruct o1 as [u1|e|]; try exact H1.
  pose proof (attract_all_weak (n0, n1, n2) s1) as [H2 _].
  destruct (attract_all (n0, n1, n2) s1) as [o2 s2]. cbn [snd] in H2.
  apply Hep in H2. pose proof (same_settings_trans _ _ _ H1 H2) as H12.
  destruct o2 as [u2|e|]; try exact H12.
  pose proof (reassign_all_spec parent s2) as H3.
  destruct (reassign_all parent s2) as [o3 s3]. destruct H3 as [H3 _].
  apply Hep in H3. pose proof (same_settings_trans _ _ _ H12 H3) as H13.
  destruct o3 as [u3|e|]; try exact H13.
  destruct (incr_bpa_frame parent s3) as [a Ha]. rewrite Ha.
  eapply same_settings_trans; [exact H13|]. repeat split.
Qed.

(** Whatever its outcome, the constructor leaves the settings as it stored
    them. *)
Lemma SCA_init_settings a : same_settings (fresh a) (self (snd (SCA_init a))).
Proof.
  unfold SCA_init.
  apply (hoare_snd (fun w => same_settings (fresh a) (self w))
                   (fun w => same_settings (fresh a) (self w)));
    [|repeat split].
  eapply hoare_bind.
  - unfold seed_endpoints. apply hoare_forM. intros i _.
    eapply hoare_bind with (R := fun _ w => same_settings (fresh a) (self w)).
    + intros w Hw. unfold next_volumepoint.
      destruct (next (volumepoint (self w)) (rand w)) as [[[p g]|e|] r];
        exact Hw.
    + intros p [s r] Hw. rewrite on_self_unfold. cbn [self] in Hw.
      pose proof (same_settings_trans _ _ _ Hw (addEndPoint_settings p s))
        as Hs.
      destruct (addEndPoint p s) as [[u|e|] s']; exact Hs.
  - intros u. unfold seed_branchpoints.
    destruct (len (kw_startingpoints a) >? 0); [|apply hoare_ret; auto].
    eapply hoare_bind with (R := fun _ w => same_settings (fresh a) (self w)).
    + intros [s r] Hw. rewrite on_self_unfold. exact Hw.
    + intros u'. apply hoare_forM. intros sp _ [s r] Hw.
      rewrite on_self_unfold. cbn [self] in Hw.
      pose proof (same_settings_trans _ _ _ Hw
                    (addBranchPoint_settings sp (-1) 0 s)) as Hs.
      destruct (addBranchPoint sp (-1) 0 s) as [[u''|e|] s']; exact Hs.
Qed.

(** [a] with another seed count, and with another influence radius. *)
Definition with_NENDPOINTS (n : Z) (a : Args) : Args :=
  {| kw_NENDPOINTS := n; kw_d := kw_d a; kw_NBP := kw_NBP a;
     kw_KILLDIST := kw_KILLDIST a; kw_INFLUENCE := kw_INFLUENCE a;
     kw_SEED := kw_SEED a; kw_volume := kw_volume a;
     kw_TROPISM := kw_TROPISM a; kw_exclude := kw_exclude a;
     kw_startingpoints := kw_startingpoints a;
     kw_apicalcontrol := kw_apicalcontrol a;
     kw_apicalcontrolfalloff := kw_apicalcontrolfalloff a;
     kw_apicaltiming := kw_apicaltiming a |}.

Definition with_INFLUENCE (i : float) (a : Args) : Args :=
  {| kw_NENDPOINTS := kw_NENDPOINTS a; kw_d := kw_d a; kw_NBP := kw_NBP a;
     kw_KILLDIST := kw_KILLDIST a; kw_INFLUENCE := i;
     kw_SEED := kw_SEED a; kw_volume := kw_volume a;
     kw_TROPISM := kw_TROPISM a; kw_exclude := kw_exclude a;
     kw_startingpoints := kw_startingpoints a;
     kw_apicalcontrol := kw_apicalcontrol a;
     kw_apicalcontrolfalloff := kw_apicalcontrolfalloff a;
     kw_apicaltiming := kw_apicaltiming a |}.

(** C5, as amended.  The constructor validates nothing.  Whatever its
    outcome, it leaves the step length and the kill distance as they were
    given, and the influence radius as given when above zero and 1e16 when
    not.  The step length and the kill distance are never looked at: with
    any other two values the constructor has the same outcome and leaves
    the same state but for them.  A seed count of zero or less is a seed
    count of zero, and an influence radius that is not above zero is an
    influence radius of 1e16: the constructor does the same.  With a seed
    count of zero or less and no starting points the constructor returns,
    with no endpoint. *)
Theorem constructor_validates_nothing (a : Args) :
  (branchlength (self (snd (SCA_init a))) = kw_d a /\
   killdistance (self (snd (SCA_init a))) = kw_KILLDIST a /\
   influence (self (snd (SCA_init a))) =
     (if (0 <? kw_INFLUENCE a)%float then kw_INFLUENCE a else 1e16%float)) /\
  (forall d k,
     SCA_init (retune_args d k a)
     = (fst (SCA_init a), retune_St d k (snd (SCA_init a)))) /\
  (forall n, n <= 0 ->
     SCA_init (with_NENDPOINTS n a) = SCA_init (with_NENDPOINTS 0 a)) /\
  (forall i, (0 <? i)%float = false ->
     SCA_init (with_INFLUENCE i a) = SCA_init (with_INFLUENCE 1e16 a)) /\
  (kw_NENDPOINTS a <= 0 -> kw_startingpoints a = [] ->
   SCA_init a = (Returned tt, {| self := fresh a; rand := seed (kw_SEED a) |})).
Proof.
  split; [exact (SCA_init_settings a)|]. split; [|split; [|split]].
  - intros d k. unfold SCA_init. cbn [kw_NENDPOINTS kw_SEED
      kw_startingpoints retune_args].
    change {| self := fresh (retune_args d k a); rand := seed (kw_SEED a) |}
      with (retune_St d k {| self := fresh a; rand := seed (kw_SEED a) |}).
    rewrite !(bind_unfold (seed_endpoints _)), seed_endpoints_retune.
    destruct (seed_endpoints (kw_NENDPOINTS a) _) as [[u|e|] w];
      cbn [fst snd]; try reflexivity.
    apply seed_branchpoints_retune.
  - intros n Hn. unfold SCA_init, seed_endpoints, range.
    cbn [kw_NENDPOINTS with_NENDPOINTS].
    now replace (Z.to_nat n) with (Z.to_nat 0) by lia.
  - intros i Hi. unfold SCA_init, fresh. cbn [kw_INFLUENCE with_INFLUENCE
      kw_NENDPOINTS kw_SEED kw_startingpoints kw_KILLDIST kw_d kw_NBP
      kw_TROPISM kw_apicalcontrol kw_apicalcontrolfalloff kw_apicaltiming
      kw_volume kw_exclude].
    rewrite Hi. reflexivity.
  - intros Hn Hsp. unfold SCA_init, seed_endpoints, range. rewrite Hsp.
    replace (Z.to_nat (kw_NENDPOINTS a)) with O by lia. reflexivity.
Qed.

End Constructor.

(** ** Two runs *)

(** [b] with its index moved by [delta]. *)
Definition reindex (delta : Z) (b : Branchpoint.t) : Branchpoint.t :=
  {| Branchpoint.v := Branchpoint.v b;
     Branchpoint.parent := Branchpoint.parent b;
     Branchpoint.connections := Branchpoint.connections b;
     Branchpoint.generation := Branchpoint.generation b;
     Branchpoint.apex := Branchpoint.apex b;
     Branchpoint.shoot := Branchpoint.shoot b;
     Branchpoint.index := Branchpoint.index b + delta |}.

Definition map_outcome {A B} (f : A -> B) (o : outcome A) : outcome B :=
  match o with
  | Returned a => Returned (f a)
  | Raised e => Raised e
  | Diverged => Diverged
  end.

Lemma len_map {A B} (f : A -> B) l : len (map f l) = len l.
Proof. unfold len. now rewrite length_map. Qed.

Lemma getitem_map {A B} (f : A -> B) l i :
  getitem (map f l) i = map_outcome f (getitem l i).
Proof.
  unfold getitem. rewrite len_map.
  destruct (py_index (len l) i) as [k|]; [|reflexivity].
  rewrite nth_error_map. now destruct (nth_error l k).
Qed.

Lemma replace_nth_map {A B} (f : A -> B) l k a :
  replace_nth (map f l) k (f a) = map f (replace_nth l k a).
Proof.
  revert k. induction l as [|h t IH]; intros [|k]; simpl; try reflexivity.
  now rewrite IH.
Qed.

Lemma setitem_map {A B} (f : A -> B) l i a :
  setitem (map f l) i (f a) = map_outcome (map f) (setitem l i a).
Proof.
  unfold setitem. rewrite len_map.
  destruct (py_index (len l) i) as [k|]; [|reflexivity].
  simpl. now rewrite replace_nth_map.
Qed.

Section TwoRuns.
Context {H : Host}.

(** [p] seen from a process whose counter is [delta] ahead and whose clock
    is [W], read [n] times: the objects of [self.branchpoints] carry
    indices [delta] higher. *)
Definition rebase (delta : Z) (W : nat -> float) (n : nat) (p : Proc) : Proc :=
  {| st := {| self := set_branchpoints
                        (map (reindex delta) (branchpoints (self_of p)))
                        (self_of p);
              rand := rand (st p) |};
     Branchpoint_count := Branchpoint_count p + delta;
     wall := W; now := n |}.

Section Rebased.
Variables (delta : Z) (W : nat -> float) (n : nat).

(** [m'] does in the rebased process what [m] does in the other, and
    returns the value [m] returns, seen through [f]. *)
Definition equi {A} (f : A -> A) (m' m : M Proc A) : Prop :=
  forall p,
    m' (rebase delta W n p)
    = (map_outcome f (fst (m p)), rebase delta W n (snd (m p))).

Lemma equi_ret {A} (f : A -> A) (a : A) : equi f (ret (f a)) (ret a).
Proof. intros p. reflexivity. Qed.

Lemma equi_liftO {A} (f : A -> A) (o : outcome A) :
  equi f (liftO (map_outcome f o)) (liftO o).
Proof. intros p. reflexivity. Qed.

Lemma equi_liftO_same {A} (o : outcome A) : equi (fun a => a) (liftO o) (liftO o).
Proof. intros p. unfold liftO. cbn [fst snd]. now destruct o. Qed.

Lemma equi_get : equi (rebase delta W n) get get.
Proof. intros p. reflexivity. Qed.

Lemma equi_diverge {A} (f : A -> A) : equi f diverge diverge.
Proof. intros p. reflexivity. Qed.

Lemma equi_bind {A B} (f : A -> A) (g : B -> B) (m' m : M Proc A)
  (k' k : A -> M Proc B) :
  equi f m' m -> (forall a, equi g (k' (f a)) (k a)) ->
  equi g (bind m' k') (bind m k).
Proof.
  intros Hm Hk p. unfold bind. rewrite Hm.
  destruct (m p) as [[a|e|] p']; cbn [fst snd map_outcome]; try reflexivity.
  apply Hk.
Qed.

Lemma equi_forM {A} (l : list A) (body : A -> M Proc unit) :
  (forall a, equi (fun u => u) (body a) (body a)) ->
  equi (fun u => u) (forM_ l body) (forM_ l body).
Proof.
  intros Hb. induction l as [|a rest IH]; cbn [forM_].
  - apply (equi_ret (fun u => u) tt).
  - eapply equi_bind; [apply Hb | intros u; exact IH].
Qed.

Lemma equi_update (f' f : list Branchpoint.t -> list Branchpoint.t) :
  (forall l, f' (map (reindex delta) l) = map (reindex delta) (f l)) ->
  equi (fun u => u) (update_branchpoints f') (update_branchpoints f).
Proof.
  intros Hf p. unfold update_branchpoints, on_st, on_self, zoom, modify,
    rebase, self_of.
  cbn [st self rand set_st set_self branchpoints set_branchpoints
       Branchpoint_count wall now fst snd map_outcome].
  now rewrite Hf.
Qed.

Lemma equi_new pos parent gen :
  equi (reindex delta) (new_Branchpoint pos parent gen)
       (new_Branchpoint pos parent gen).
Proof.
  intros p. unfold new_Branchpoint, rebase, self_of, reindex.
  cbn [st self rand branchpoints Branchpoint_count wall now fst snd
       map_outcome Branchpoint.v Branchpoint.parent Branchpoint.connections
       Branchpoint.generation Branchpoint.apex Branchpoint.shoot
       Branchpoint.index].
  replace (Branchpoint_count p + delta + 1)
    with (Branchpoint_count p + 1 + delta) by lia.
  reflexivity.
Qed.

Lemma equi_materialize bi :
  equi (fun u => u) (materialize bi) (materialize bi).
Proof.
  unfold materialize.
  eapply equi_bind; [apply equi_get|]. intros p. cbn beta zeta.
  change (self_of (rebase delta W n p))
    with (set_branchpoints (map (reindex delta) (branchpoints (self_of p)))
            (self_of p)).
  cbn [bp bpp bpg set_branchpoints].
  eapply equi_bind; [apply equi_liftO_same|]. intros b0.
  eapply equi_bind; [apply equi_liftO_same|]. intros b1.
  eapply equi_bind; [apply equi_liftO_same|]. intros b2.
  eapply equi_bind; [apply equi_liftO_same|]. intros bpp_.
  eapply equi_bind; [apply equi_liftO_same|]. intros gen.
  eapply equi_bind; [apply equi_new|]. intros b.
  eapply equi_bind.
  { apply equi_update. intros l. now rewrite map_app. }
  intros u. destruct bpp_ as [pidx|]; [|apply (equi_ret (fun u => u) tt)].
  eapply equi_bind; [apply equi_get|]. intros p1. cbn beta zeta.
  change (branchpoints (self_of (rebase delta W n p1)))
    with (map (reindex delta) (branchpoints (self_of p1))).
  rewrite getitem_map, length_map.
  eapply equi_bind; [apply equi_liftO|]. intros par.
  change (Branchpoint.apex (reindex delta par)) with (Branchpoint.apex par).
  destruct (Branchpoint.apex par).
  - change (Branchpoint.set_shoot ?r (reindex delta par))
      with (reindex delta (Branchpoint.set_shoot r par)).
    rewrite setitem_map.
    eapply equi_bind; [apply equi_liftO|]. intros l'.
    apply equi_update. reflexivity.
  - change (Branchpoint.set_apex ?r (reindex delta par))
      with (reindex delta (Branchpoint.set_apex r par)).
    rewrite setitem_map.
    eapply equi_bind; [apply equi_liftO|]. intros l'.
    apply equi_update. reflexivity.
Qed.

Lemma equi_count_up fuel :
  forall cur, equi (fun u => u) (count_up fuel (reindex delta cur))
                   (count_up fuel cur).
Proof.
  induction fuel as [|fuel IH]; intros cur; cbn [count_up];
    change (Branchpoint.parent (reindex delta cur))
      with (Branchpoint.parent cur);
    destruct (Branchpoint.parent cur) as [pidx|];
    try apply (equi_ret (fun u => u) tt); try apply equi_diverge.
  eapply equi_bind; [apply equi_get|]. intros p. cbn beta zeta.
  change (branchpoints (self_of (rebase delta W n p)))
    with (map (reindex delta) (branchpoints (self_of p))).
  rewrite getitem_map.
  eapply equi_bind; [apply equi_liftO|]. intros par.
  change (Branchpoint.incr_connections (reindex delta par))
    with (reindex delta (Branchpoint.incr_connections par)).
  rewrite setitem_map.
  eapply equi_bind; [apply equi_liftO|]. intros l'.
  eapply equi_bind; [apply equi_update; reflexivity|]. intros u.
  apply IH.
Qed.

Lemma equi_count_connections k :
  equi (fun u => u) (count_connections k) (count_connections k).
Proof.
  unfold count_connections.
  eapply equi_bind; [apply equi_get|]. intros p. cbn beta zeta.
  change (branchpoints (self_of (rebase delta W n p)))
    with (map (reindex delta) (branchpoints (self_of p))).
  rewrite getitem_map, length_map.
  eapply equi_bind; [apply equi_liftO|]. intros b. apply equi_count_up.
Qed.

Lemma equi_fill_results : equi (fun u => u) fill_results fill_results.
Proof.
  unfold fill_results.
  eapply equi_bind; [apply equi_update; reflexivity|]. intros u.
  eapply equi_bind; [apply equi_get|]. intros p. cbn beta.
  change (bp (self_of (rebase delta W n p))) with (bp (self_of p)).
  eapply equi_bind; [apply equi_forM, equi_materialize|]. intros u1.
  eapply equi_bind; [apply equi_get|]. intros p1. cbn beta.
  change (branchpoints (self_of (rebase delta W n p1)))
    with (map (reindex delta) (branchpoints (self_of p1))).
  rewrite len_map.
  eapply equi_bind; [apply equi_forM, equi_count_connections|]. intros u2.
  intros q. reflexivity.
Qed.

End Rebased.

(** *** Calls that act on the engine and [random] only *)

Lemma on_st_unfold {A} (m : M St A) p :
  on_st m p = (fst (m (st p)), set_st (snd (m (st p))) p).
Proof. unfold on_st, zoom. now destruct (m (st p)). Qed.

(** [m] is a call on the engine and [random], the same whatever the
    counter and the clock. *)
Definition st_only {A} (m : M Proc A) : Type :=
  { m' : M St A | forall p, m p = on_st m' p }.

Lemma set_st_st p : set_st (st p) p = p.
Proof. now destruct p. Qed.

Lemma st_only_ret {A} (a : A) : st_only (ret a).
Proof.
  exists (ret a). intros p. rewrite on_st_unfold. cbn [ret fst snd].
  now rewrite set_st_st.
Qed.

Lemma st_only_on_st {A} (m : M St A) : st_only (on_st m).
Proof. now exists m. Qed.

Lemma st_only_bind {A B} (m : M Proc A) (k : A -> M Proc B) :
  st_only m -> (forall a, st_only (k a)) -> st_only (bind m k).
Proof.
  intros [m' Hm] Hk. exists (bind m' (fun a => proj1_sig (Hk a))).
  intros p. unfold bind. rewrite Hm, !on_st_unfold.
  destruct (m' (st p)) as [[a|e|] w]; cbn [fst snd]; try reflexivity.
  destruct (Hk a) as [k' Hk']. cbn [proj1_sig]. rewrite Hk', on_st_unfold.
  reflexivity.
Qed.

Lemma st_only_get {A} (k : St -> M Proc A) :
  (forall w, st_only (k w)) -> st_only (bind get (fun p => k (st p))).
Proof.
  intros Hk. exists (bind get (fun w => proj1_sig (Hk w))).
  intros p. unfold bind, get. rewrite on_st_unfold.
  destruct (Hk (st p)) as [k' Hk']. cbn [proj1_sig fst snd].
  rewrite Hk', on_st_unfold. reflexivity.
Qed.

(** Without a time budget the loop of [iterate] never reads the clock:
    it is a call on the engine and [random], whatever [starttime]. *)
Lemma generations_st_only fuel rate maxtime :
  (0 <? maxtime)%float = false ->
  forall gens t n,
    { m' : M St unit
    | forall starttime p,
        generations fuel gens starttime rate maxtime t n p = on_st m' p }.
Proof.
  intros Hmax. induction gens as [|i rest IH]; intros t n.
  - destruct (@st_only_ret unit tt) as [m' Hm']. exists m'.
    intros starttime p. apply Hm'.
  - pose (after := fun tn : float * float =>
             bind (on_self (modify decay))
               (fun _ => proj1_sig (IH (fst tn) (snd tn)))).
    pose (arrive := if (0 <? rate)%float
                    then bind (arrivals fuel rate (n + 1)%float t)
                              (fun t' => ret (t', (n + 1)%float))
                    else ret (t, n)).
    exists (bind (growBranches i) (fun _ => bind arrive after)).
    intros starttime p. cbn [generations]. rewrite Hmax.
    rewrite on_st_unfold, !(bind_unfold (growBranches i)),
      (bind_unfold (on_st (growBranches i))), on_st_unfold.
    destruct (growBranches i (st p)) as [[u|e|] w1]; cbn [fst snd];
      try reflexivity.
    rewrite (bind_unfold (ret false)). cbn [ret].
    assert (Hafter : forall tn w,
      bind (on_st (on_self (modify decay)))
        (fun _ => generations fuel rest starttime rate maxtime
                    (fst tn) (snd tn)) (set_st w p)
      = (fst (after tn w), set_st (snd (after tn w)) p)).
    { intros tn w. unfold after.
      rewrite (bind_unfold (on_st (on_self (modify decay)))), on_st_unfold,
        !(bind_unfold (on_self (modify decay))).
      cbn [st set_st].
      destruct (on_self (modify decay) w) as [[u2|e|] w3]; cbn [fst snd];
        try reflexivity.
      destruct (IH (fst tn) (snd tn)) as [m' Hm']. cbn [proj1_sig].
      rewrite Hm', on_st_unfold. reflexivity. }
    unfold arrive. destruct (0 <? rate)%float.
    + rewrite (bind_unfold (bind (on_st (arrivals fuel rate (n + 1) t)) _)),
        (bind_unfold (on_st (arrivals fuel rate (n + 1) t))), on_st_unfold.
      rewrite !(bind_unfold (bind (arrivals fuel rate (n + 1) t) _)),
        !(bind_unfold (arrivals fuel rate (n + 1) t)).
      cbn [st set_st].
      destruct (arrivals fuel rate (n + 1)%float t w1) as [[t'|e|] w2];
        cbn [fst snd ret]; try reflexivity.
      apply (Hafter (t', (n + 1)%float) w2).
    + rewrite (bind_unfold (ret (t, n))), !(bind_unfold (ret (t, n))).
      cbn [ret]. apply (Hafter (t, n) w1).
Qed.

(** [iterate] reads the clock once, then, without a time budget, runs a
    call on the engine and [random], then fills the result lists. *)
Lemma iterate_unfold nep maxtime fuel :
  (0 <? maxtime)%float = false ->
  { m' : M St unit
  | forall p,
      iterate nep maxtime fuel p
      = bind (on_st m') (fun _ => fill_results) (snd (time p)) }.
Proof.
  intros Hmax.
  pose (rate := (nep / 1000)%float).
  pose (first := if (0 <? rate)%float then draw_expovariate rate
                 else ret 1%float).
  exists (bind first (fun t => bind get (fun w =>
            proj1_sig (generations_st_only fuel rate maxtime Hmax
                         (range (maxiterations (self w))) t 0%float)))).
  intros p. unfold iterate. fold rate.
  set (p1 := snd (time p)).
  rewrite (bind_unfold time).
  change (time p) with (Returned (wall p (now p)), p1).
  cbv iota beta.
  rewrite (bind_unfold (on_st _)), on_st_unfold, (bind_unfold first).
  assert (Hfirst :
    (if (0 <? rate)%float then on_st (draw_expovariate rate) else ret 1%float)
      p1 = (fst (first (st p1)), set_st (snd (first (st p1))) p1)).
  { unfold first. destruct (0 <? rate)%float.
    - apply on_st_unfold.
    - cbn [ret fst snd]. now rewrite set_st_st. }
  rewrite (bind_unfold (if (0 <? rate)%float then _ else _)), Hfirst.
  destruct (first (st p1)) as [[t|e|] w1]; cbn [fst snd]; try reflexivity.
  rewrite (bind_unfold get). cbn [get].
  rewrite (bind_unfold get). cbn [get].
  rewrite (bind_unfold (generations _ _ _ _ _ _ _)).
  destruct (generations_st_only fuel rate maxtime Hmax
              (range (maxiterations (self w1))) t 0%float) as [m' Hm'].
  cbn [proj1_sig].
  change (self_of (set_st w1 p1)) with (self w1).
  rewrite Hm', on_st_unfold. cbn [st set_st].
  destruct (m' w1) as [[u|e|] w2]; reflexivity.
Qed.

(** The result lists are emptied first, so what they held does not matter. *)
Definition cleared (p : Proc) : Proc :=
  snd (update_branchpoints (fun _ => []) p).

Lemma fill_results_cleared p : fill_results p = fill_results (cleared p).
Proof. reflexivity. Qed.

Lemma cleared_rebase pa pb :
  st pa = st pb ->
  cleared pb
  = rebase (Branchpoint_count pb - Branchpoint_count pa) (wall pb) (now pb)
      (cleared pa).
Proof.
  intros Hst. destruct pa as [wa ca Wa na], pb as [wb cb Wb nb].
  cbn [st] in Hst. subst wb.
  unfold cleared, rebase, update_branchpoints, on_st, on_self, zoom, modify,
    self_of.
  cbn [st self rand set_st set_self branchpoints set_branchpoints
       Branchpoint_count wall now fst snd map].
  unfold set_st, set_self, set_branchpoints.
  cbn [st self rand Branchpoint_count wall now killdistance branchlength
       maxiterations tropism influence apicalcontrol apicalcontrolfalloff
       apicaltiming apicalstep bp bpg bpp bpc bpa ep epb epv epd volumepoint
       exclude branchpoints endpoints].
  replace (ca + (cb - ca)) with cb by lia. reflexivity.
Qed.

(** Two processes that hold the same engine and generator fill the result
    lists alike, but for the indices. *)
Lemma fill_results_twin pa pb :
  st pa = st pb ->
  fill_results pb
  = (fst (fill_results pa),
     rebase (Branchpoint_count pb - Branchpoint_count pa) (wall pb) (now pb)
       (snd (fill_results pa))).
Proof.
  intros Hst.
  rewrite (fill_results_cleared pb), (cleared_rebase pa pb Hst),
    (fill_results_cleared pa).
  rewrite (equi_fill_results _ _ _ (cleared pa)).
  now destruct (fst (fill_results (cleared pa))).
Qed.

(** What a complete run hands back, seen from a process whose counter is
    [delta] ahead. *)
Definition shifted (delta : Z) (r : list Branchpoint.t * list vec3)
  : list Branchpoint.t * list vec3 :=
  (map (reindex delta) (fst r), snd r).

Lemma run_twin a nep maxtime fuel pa pb :
  (0 <? maxtime)%float = false ->
  fst (run a nep maxtime fuel pb)
  = map_outcome (shifted (Branchpoint_count pb - Branchpoint_count pa))
      (fst (run a nep maxtime fuel pa)).
Proof.
  intros Hmax. unfold run.
  rewrite !(bind_unfold (new_SCA a)). unfold new_SCA.
  destruct (SCA_init a) as [[u|e|] w]; try reflexivity.
  rewrite !(bind_unfold (iterate nep maxtime fuel)).
  destruct (iterate_unfold nep maxtime fuel Hmax) as [m' Hm'].
  rewrite !Hm'.
  rewrite !(bind_unfold (on_st m')), !on_st_unfold.
  change (st (snd (time (set_st w pa)))) with w.
  change (st (snd (time (set_st w pb)))) with w.
  destruct (m' w) as [[u1|e|] w1]; cbn [fst snd]; try reflexivity.
  set (qa := set_st w1 (snd (time (set_st w pa)))).
  set (qb := set_st w1 (snd (time (set_st w pb)))).
  rewrite (fill_results_twin qa qb eq_refl).
  change (Branchpoint_count qb) with (Branchpoint_count pb).
  change (Branchpoint_count qa) with (Branchpoint_count pa).
  destruct (fill_results qa) as [[u2|e|] q]; cbn [fst snd]; try reflexivity.
Qed.

Lemma reindex_0 b : reindex 0 b = b.
Proof. destruct b. unfold reindex. cbn. now rewrite Z.add_0_r. Qed.

Lemma shifted_0 r : shifted 0 r = r.
Proof.
  destruct r as [bs es]. unfold shifted. cbn [fst snd]. f_equal.
  induction bs as [|b bs IH]; cbn [map]; [reflexivity|].
  now rewrite reindex_0, IH.
Qed.

(** C9, as amended.  Without a time budget ([maxtime] not above zero), two
    complete runs with the same seed and configuration, in whatever
    processes, end alike: both return, or both raise the same exception, or
    both run forever; when they return, the endpoint positions are the same
    and the branch-point records are the same in position, parent,
    generation, apex, shoot and connections, while each index is higher in
    the second run by the difference of [Branchpoint.count] at the two
    starts.  Runs that start from the same count give the same records. *)
Theorem runs_agree_up_to_index (a : Args) (nep maxtime : float) (fuel : nat)
  (pa pb : Proc) :
  (0 <? maxtime)%float = false ->
  fst (run a nep maxtime fuel pb)
  = map_outcome (shifted (Branchpoint_count pb - Branchpoint_count pa))
      (fst (run a nep maxtime fuel pa)) /\
  (Branchpoint_count pb = Branchpoint_count pa ->
   fst (run a nep maxtime fuel pb) = fst (run a nep maxtime fuel pa)).
Proof.
  intros Hmax. split; [now apply run_twin|].
  intros Hc. rewrite (run_twin a nep maxtime fuel pa pb Hmax), Hc, Z.sub_diag.
  destruct (fst (run a nep maxtime fuel pa)) as [r|e|]; cbn [map_outcome];
    try reflexivity.
  now rewrite shifted_0.
Qed.

End TwoRuns.


(** * Further properties of the helpers and the methods *)

(** ** The order of binary64 values *)

(** A value that is not a NaN, as a triple compared lexicographically. *)
Definition sf_key (x : spec_float) : Z * Z * Z :=
  match x with
  | S754_zero _ | S754_nan => (0, 0, 0)
  | S754_infinity true => (-2, 0, 0)
  | S754_infinity false => (2, 0, 0)
  | S754_finite true m e => (-1, - e, Z.neg m)
  | S754_finite false m e => (1, e, Z.pos m)
  end.

Definition lex3 (a b : Z * Z * Z) : comparison :=
  let '(a1, a2, a3) := a in
  let '(b1, b2, b3) := b in
  match a1 ?= b1 with
  | Eq => match a2 ?= b2 with Eq => a3 ?= b3 | c => c end
  | c => c
  end.

Lemma SFcompare_key x y :
  x <> S754_nan -> y <> S754_nan ->
  SFcompare x y = Some (lex3 (sf_key x) (sf_key y)).
Proof.
  intros Hx Hy.
  destruct x as [s|s| |s m e], y as [s'|s'| |s' m' e']; try congruence;
    try (destruct s; reflexivity); try (destruct s'; reflexivity);
    try (destruct s, s'; reflexivity).
  destruct s, s'; try reflexivity; unfold SFcompare, sf_key, lex3.
  rewrite Z.compare_opp. cbn [Z.compare].
  rewrite (Z.compare_antisym e e').
  destruct (e ?= e') eqn:E; cbn [CompOpp]; reflexivity.
Qed.

Lemma lex3_Lt a b :
  lex3 a b = Lt <->
  (fst (fst a) < fst (fst b) \/
   (fst (fst a) = fst (fst b) /\
    (snd (fst a) < snd (fst b) \/
     (snd (fst a) = snd (fst b) /\ snd a < snd b)))).
Proof.
  destruct a as [[a1 a2] a3], b as [[b1 b2] b3]. cbn [lex3 fst snd].
  destruct (Z.compare_spec a1 b1), (Z.compare_spec a2 b2),
    (Z.compare_spec a3 b3); split; intros; try discriminate; try reflexivity;
    lia.
Qed.

Lemma lex3_Eq a b : lex3 a b = Eq <-> a = b.
Proof.
  destruct a as [[a1 a2] a3], b as [[b1 b2] b3]. cbn [lex3].
  destruct (Z.compare_spec a1 b1), (Z.compare_spec a2 b2),
    (Z.compare_spec a3 b3); split; intros Heq; try discriminate;
    try reflexivity; try (injection Heq; intros; lia); subst; reflexivity.
Qed.

Lemma lex3_Gt a b : lex3 a b = Gt <-> lex3 b a = Lt.
Proof.
  destruct a as [[a1 a2] a3], b as [[b1 b2] b3]. cbn [lex3].
  rewrite (Z.compare_antisym a1 b1), (Z.compare_antisym a2 b2),
    (Z.compare_antisym a3 b3).
  destruct (a1 ?= b1), (a2 ?= b2), (a3 ?= b3); cbn; split; congruence.
Qed.

(** [x < y] and [x <= y] on values that are not NaN, through the keys. *)
Lemma ltb_key x y :
  (x <? y)%float = true <->
  ordered x /\ ordered y /\ lex3 (sf_key (Prim2SF x)) (sf_key (Prim2SF y)) = Lt.
Proof.
  rewrite ltb_spec. unfold ordered, SFltb. split.
  - intros Hlt.
    assert (Hx : Prim2SF x <> S754_nan)
      by (intros E; rewrite E in Hlt; discriminate).
    assert (Hy : Prim2SF y <> S754_nan).
    { intros E; rewrite E in Hlt. destruct (Prim2SF x); discriminate. }
    rewrite (SFcompare_key _ _ Hx Hy) in Hlt.
    repeat split; auto. destruct (lex3 _ _); congruence.
  - intros (Hx & Hy & Hl). now rewrite (SFcompare_key _ _ Hx Hy), Hl.
Qed.

Lemma ltb_false_key x y :
  ordered x -> ordered y -> (x <? y)%float = false ->
  lex3 (sf_key (Prim2SF x)) (sf_key (Prim2SF y)) <> Lt.
Proof.
  intros Hx Hy Hf Hl.
  assert ((x <? y)%float = true) by (apply ltb_key; auto). congruence.
Qed.

Lemma ltb_trans x y z :
  (x <? y)%float = true -> (y <? z)%float = true -> (x <? z)%float = true.
Proof.
  rewrite !ltb_key. intros (Hx & Hy & Hxy) (_ & Hz & Hyz).
  repeat split; auto. rewrite lex3_Lt in *. lia.
Qed.

(** [x < z] once [x < y] fails for an ordered [x] and [y < z]... *)
Lemma not_ltb_ltb x y z :
  ordered x -> (y <? x)%float = false -> (y <? z)%float = true ->
  (x <? z)%float = true.
Proof.
  intros Hx Hyx Hyz. pose proof (ltb_ordered_l _ _ Hyz) as Hy.
  pose proof (ltb_false_key y x Hy Hx Hyx) as Hn.
  rewrite ltb_key in *. destruct Hyz as (_ & Hz & Hyz).
  repeat split; auto. rewrite lex3_Lt in *. lia.
Qed.

Lemma ltb_irrefl x : (x <? x)%float = false.
Proof.
  destruct (x <? x)%float eqn:E; [|reflexivity].
  apply ltb_key in E as (_ & _ & E). rewrite lex3_Lt in E. lia.
Qed.

Lemma ltb_asym x y : (x <? y)%float = true -> (y <? x)%float = false.
Proof.
  intros Hxy. destruct (y <? x)%float eqn:E; [|reflexivity].
  pose proof (ltb_trans _ _ _ Hxy E) as Hxx. now rewrite ltb_irrefl in Hxx.
Qed.

Lemma leb_false_nan x y : ~ ordered x -> (x <=? y)%float = false.
Proof.
  unfold ordered. intros Hx. rewrite leb_spec. unfold SFleb, SFcompare.
  destruct (Prim2SF x); try reflexivity; exfalso; apply Hx; discriminate.
Qed.

Lemma ordered_dec x : ordered x \/ ~ ordered x.
Proof.
  unfold ordered. destruct (Prim2SF x); try (left; discriminate).
  right. intros Hn. now apply Hn.
Qed.

(** [x <= y] fails once [y < z] and [x < z] fails. *)
Lemma above_not_leb x y z :
  (y <? z)%float = true -> (x <? z)%float = false -> (x <=? y)%float = false.
Proof.
  intros Hyz Hxz. destruct (ordered_dec x) as [Hx|Hx];
    [|now apply leb_false_nan].
  pose proof (ltb_ordered_l _ _ Hyz) as Hy.
  rewrite (leb_negb_ltb x y Hx Hy).
  assert (Hz : ordered z) by (apply ltb_key in Hyz; tauto).
  pose proof (ltb_false_key x z Hx Hz Hxz) as Hn.
  assert (Hlt : (y <? x)%float = true).
  { rewrite ltb_key in *. destruct Hyz as (_ & _ & Hyz).
    repeat split; auto.
    destruct (lex3 (sf_key (Prim2SF x)) (sf_key (Prim2SF z))) eqn:E;
      try congruence.
    - apply lex3_Eq in E. now rewrite E.
    - apply lex3_Gt in E. rewrite lex3_Lt in *. lia. }
  now rewrite Hlt.
Qed.

Lemma ltb_not_leb x y : (x <? y)%float = true -> (y <=? x)%float = false.
Proof.
  intros Hxy. apply (above_not_leb y x y Hxy). apply ltb_irrefl.
Qed.

(** [x < z] once [x < y] and [z < y] fails for an ordered [z]. *)
Lemma ltb_not_ltb x y z :
  (x <? y)%float = true -> (z <? y)%float = false -> ordered z ->
  (x <? z)%float = true.
Proof.
  intros Hxy Hzy Hz. 
  assert (Hy : ordered y) by (apply ltb_key in Hxy; tauto).
  pose proof (ltb_false_key z y Hz Hy Hzy) as Hn.
  rewrite ltb_key in *. destruct Hxy as (Hx & _ & Hxy).
  repeat split; auto.
  destruct (lex3 (sf_key (Prim2SF z)) (sf_key (Prim2SF y))) eqn:E;
    try congruence.
  - apply lex3_Eq in E. now rewrite E.
  - apply lex3_Gt in E. rewrite lex3_Lt in *. lia.
Qed.

Section ClosestLeast.
Variables (pos : list float) (count : list Z) (x y z : float).

(** What a scan of the indices [a, a + k) does to the bound and the
    binding it is started with. *)
Lemma closest_scan_least k :
  forall a d2 best d2' best',
  0 <= a -> a + Z.of_nat k <= len pos / 3 -> ordered d2 ->
  closest_scan pos count x y z (map Z.of_nat (seq (Z.to_nat a) k)) d2 best
  = Returned (d2', best') ->
  ordered d2' /\ (d2 <? d2')%float = false /\
  (forall i, a <= i < a + Z.of_nat k -> open_at pos count i -> (norm2 (offset pos x y z i) <? d2')%float = false) /\
  ((d2' = d2 /\ best' = best) \/
   (exists j, a <= j < a + Z.of_nat k /\ open_at pos count j /\
      best' = Some (j, offset pos x y z j) /\ d2' = norm2 (offset pos x y z j) /\
      (d2' <? d2)%float = true /\
      forall i, a <= i < j -> open_at pos count i -> (norm2 (offset pos x y z i) <=? d2')%float = false)).
Proof.
  induction k as [|k IH]; intros a d2 best d2' best' Ha Hk Hord E.
  - cbn in E. injection E as <- <-. split; [exact Hord|].
    split; [apply ltb_irrefl|]. split; [intros; lia | now left].
  - cbn [seq map] in E. rewrite Z2Nat.id in E by lia.
    assert (Hrange : 0 <= a < len pos / 3) by lia.
    assert (Hcnt : exists c, nth_error count (Z.to_nat a) = Some c).
    { cbn [closest_scan] in E.
      destruct (getitem count a) as [c| |] eqn:Ec; try discriminate.
      exists c. apply getitem_nonneg_inv; [lia | exact Ec]. }
    destruct Hcnt as [c Hc].
    rewrite (closest_scan_step pos count x y z a _ d2 best c Hrange Hc) in E.
    replace (S (Z.to_nat a)) with (Z.to_nat (a + 1)) in E by lia.
    assert (Hk' : a + 1 + Z.of_nat k <= len pos / 3) by lia.
    assert (Hopen : c <= 1 -> open_at pos count a).
    { intros Hle. split; [exact Hrange|]. now exists c. }
    assert (Hclosed : 1 < c -> ~ open_at pos count a).
    { intros Hlt Hoa. destruct Hoa as (_ & c' & Hc' & Hle). rewrite Hc in Hc'.
      injection Hc' as <-. lia. }
    destruct (Z.gtb_spec c 1) as [Hfull|Hnotfull].
    + destruct (IH (a + 1) d2 best d2' best' ltac:(lia) Hk' Hord E)
        as (Ho & Hle & Hall & Hbest).
      split; [exact Ho|]. split; [exact Hle|]. split.
      * intros i Hi Hoi. destruct (Z.eq_dec i a) as [->|Hne].
        -- now apply Hclosed in Hoi.
        -- apply Hall; [lia | exact Hoi].
      * destruct Hbest as [Hsame|(j & Hj & Hoj & Hb & Hd & Hlt & Hbefore)];
          [now left | right].
        exists j. split; [lia|]. split; [exact Hoj|]. split; [exact Hb|].
        split; [exact Hd|]. split; [exact Hlt|].
        intros i Hi Hoi. destruct (Z.eq_dec i a) as [->|Hne].
        -- now apply Hclosed in Hoi.
        -- apply Hbefore; [lia | exact Hoi].
    + destruct (norm2 (offset pos x y z a) <? d2)%float eqn:Hlt.
      * assert (Hord' : ordered (norm2 (offset pos x y z a))) by (eapply ltb_ordered_l, Hlt).
        destruct (IH (a + 1) (norm2 (offset pos x y z a)) (Some (a, offset pos x y z a)) d2' best'
                    ltac:(lia) Hk' Hord' E)
          as (Ho & Hle & Hall & Hbest).
        assert (Hd2 : (d2' <? d2)%float = true).
        { destruct Hbest as [[-> _]|(j & _ & _ & _ & _ & Hlt' & _)];
            [exact Hlt | eapply ltb_trans; eauto]. }
        split; [exact Ho|]. split; [now apply ltb_asym|]. split.
        -- intros i Hi Hoi. destruct (Z.eq_dec i a) as [->|Hne];
             [exact Hle | apply Hall; [lia | exact Hoi]].
        -- right.
           destruct Hbest as [[-> ->]|(j & Hj & Hoj & Hb & Hd & Hlt' & Hbefore)].
           ++ exists a. split; [lia|]. split; [apply Hopen; lia|].
              split; [reflexivity|]. split; [reflexivity|].
              split; [exact Hlt|]. intros; lia.
           ++ exists j. split; [lia|]. split; [exact Hoj|]. split; [exact Hb|].
              split; [exact Hd|]. split; [exact Hd2|].
              intros i Hi Hoi. destruct (Z.eq_dec i a) as [->|Hne].
              ** now apply ltb_not_leb.
              ** apply Hbefore; [lia | exact Hoi].
      * destruct (IH (a + 1) d2 best d2' best' ltac:(lia) Hk' Hord E)
          as (Ho & Hle & Hall & Hbest).
        split; [exact Ho|]. split; [exact Hle|]. split.
        -- intros i Hi Hoi. destruct (Z.eq_dec i a) as [->|Hne];
             [|apply Hall; [lia | exact Hoi]].
           destruct (norm2 (offset pos x y z a) <? d2')%float eqn:Hlt'; [|reflexivity].
           pose proof (ltb_not_ltb _ _ _ Hlt' Hle Hord) as Hcontra.
           congruence.
        -- destruct Hbest as [Hsame|(j & Hj & Hoj & Hb & Hd & Hlt' & Hbefore)];
             [now left | right].
           exists j. split; [lia|]. split; [exact Hoj|]. split; [exact Hb|].
           split; [exact Hd|]. split; [exact Hlt'|].
           intros i Hi Hoi. destruct (Z.eq_dec i a) as [->|Hne].
           ++ eapply above_not_leb; eauto.
           ++ apply Hbefore; [lia | exact Hoi].
Qed.

Lemma closest_first_least (n : Z) (d2 : float) (ci : Z) (v : vec3) :
  0 <= n <= len pos / 3 ->
  closest pos count x y z n = Returned (d2, ci, v) ->
  0 <= ci < n /\ open_at pos count ci /\
  v = offset pos x y z ci /\ d2 = norm2 v /\ (d2 <? 1e30)%float = true /\
  (forall i, 0 <= i < n -> open_at pos count i ->
             (norm2 (offset pos x y z i) <? d2)%float = false) /\
  (forall i, 0 <= i < ci -> open_at pos count i ->
             (norm2 (offset pos x y z i) <=? d2)%float = false).
Proof.
  intros Hn E. unfold closest in E.
  destruct (closest_scan pos count x y z (range n) 1e30%float None)
    as [[d2' best]| |] eqn:Es; cbn in E; try discriminate.
  destruct best as [[ci' v']|]; [|discriminate]. injection E as -> -> ->.
  unfold range in Es.
  destruct (closest_scan_least (Z.to_nat n) 0 1e30%float None d2
              (Some (ci, v)) ltac:(lia) ltac:(lia) (proj1 proper_bound) Es)
    as (_ & _ & Hall & [[_ Hb]|(j & Hj & Hoj & Hb & Hd & Hlt & Hbefore)]);
    [discriminate|].
  injection Hb as -> ->.
  split; [lia|]. split; [exact Hoj|]. split; [reflexivity|].
  split; [exact Hd|]. split; [exact Hlt|]. split.
  - intros i Hi. apply Hall. lia.
  - intros i Hi. apply Hbefore. lia.
Qed.

(** X1.  When [closest] returns, the index it gives is the first open one
    (count at most 1) at the least squared distance among the [n] scanned:
    no open index is nearer, every open index before it is farther (or at a
    distance that is not a number), the distance is under the initial bound
    1e30, and the vector is the offset of the query point from it. *)
Theorem closest_least (n : Z) (d2 : float) (ci : Z) (v : vec3) :
  0 <= n <= len pos / 3 ->
  closest pos count x y z n = Returned (d2, ci, v) ->
  0 <= ci < n /\ open_at pos count ci /\
  v = offset pos x y z ci /\ d2 = norm2 v /\ (d2 <? 1e30)%float = true /\
  (forall i, 0 <= i < n -> open_at pos count i ->
             (norm2 (offset pos x y z i) <? d2)%float = false) /\
  (forall i, 0 <= i < ci -> open_at pos count i ->
             (norm2 (offset pos x y z i) <=? d2)%float = false).
Proof. apply closest_first_least. Qed.

End ClosestLeast.

Section NearestFacts.
Context {H : Host}.

(** X2.  When [closestBranchPoint] returns, there is a growable branch
    point [ci], the first at the least squared distance from [p]: [d] is
    that distance and is not zero, [v] is the offset of [p] from it divided
    by [d], and the index returned is [ci] when [d < self.influence] and -2
    when not. *)
Theorem closestBranchPoint_nearest (s : SCA) (p : vec3) (bi : Z) (v : vec3)
  (d : float) :
  closestBranchPoint s p = Returned (bi, v, d) ->
  exists ci,
    growable s ci /\
    d = sqrt (squared_distance s p ci) /\
    (let '(x, y, z) := p in
     let '(o0, o1, o2) := offset (bp s) x y z ci in
     v = ((o0 / d)%float, (o1 / d)%float, (o2 / d)%float)) /\
    bi = (if (d <? influence s)%float then ci else -2) /\
    (d =? 0)%float = false /\
    (forall i, growable s i ->
       (squared_distance s p i <? squared_distance s p ci)%float = false) /\
    (forall i, 0 <= i < ci -> growable s i ->
       (squared_distance s p i <=? squared_distance s p ci)%float = false).
Proof.
  destruct p as [[x y] z]. intros E.
  destruct (closest (bp s) (bpc s) x y z (len (bp s) / 3))
    as [[[d2 ci] w]| |] eqn:Ec;
    try (unfold closestBranchPoint in E; rewrite Ec in E; discriminate).
  pose proof (len_nonneg (bp s)) as Hlen.
  assert (Hn : 0 <= len (bp s) / 3 <= len (bp s) / 3)
    by (split; [apply Z.div_pos; lia | lia]).
  destruct (closest_first_least (bp s) (bpc s) x y z _ d2 ci w Hn Ec)
    as (Hci & Hopen & Hw & Hd & _ & Hall & Hbefore).
  rewrite (closestBranchPoint_bound s x y z d2 ci w Ec Hd) in E.
  destruct (sqrt d2 =? 0)%float eqn:Ez; [discriminate|].
  exists ci. unfold squared_distance. rewrite <- Hw, <- Hd.
  destruct w as [[w0 w1] w2]. injection E as <- <- <-.
  split; [exact Hopen|]. split; [reflexivity|]. split; [reflexivity|].
  split; [reflexivity|]. split; [exact Ez|]. split.
  - intros i Hi. apply Hall; [apply Hi | exact Hi].
  - intros i Hi Hoi. apply Hbefore; [exact Hi | exact Hoi].
Qed.

End NearestFacts.

(** ** Invariants that every method keeps *)

Section ResultLists.
Context {H : Host}.

(** [s'] is [s] but for the two result lists. *)
Definition results_only (s s' : SCA) : Prop :=
  exists bs es, s' = set_endpoints es (set_branchpoints bs s).

Lemma results_only_refl s : results_only s s.
Proof. exists (branchpoints s), (endpoints s). now destruct s. Qed.

Lemma results_only_trans s1 s2 s3 :
  results_only s1 s2 -> results_only s2 s3 -> results_only s1 s3.
Proof. intros (bs & es & ->) (bs' & es' & ->). now exists bs', es'. Qed.

(** A call of the process that writes the result lists only. *)
Definition fills_only {A} (m : M Proc A) : Prop :=
  forall p, results_only (self_of p) (self_of (snd (m p))).

Lemma fills_only_ret {A} (a : A) : fills_only (ret a).
Proof. intros p. apply results_only_refl. Qed.

Lemma fills_only_liftO {A} (o : outcome A) : fills_only (liftO o).
Proof. intros p. apply results_only_refl. Qed.

Lemma fills_only_get : fills_only get.
Proof. intros p. apply results_only_refl. Qed.

Lemma fills_only_diverge {A} : fills_only (@diverge Proc A).
Proof. intros p. apply results_only_refl. Qed.

Lemma fills_only_bind {A B} (m : M Proc A) (k : A -> M Proc B) :
  fills_only m -> (forall a, fills_only (k a)) -> fills_only (bind m k).
Proof.
  intros Hm Hk p. unfold bind. specialize (Hm p).
  destruct (m p) as [[a|e|] p']; cbn [snd] in *; try exact Hm.
  eapply results_only_trans; [exact Hm | apply Hk].
Qed.

Lemma fills_only_forM {A} (l : list A) (body : A -> M Proc unit) :
  (forall a, fills_only (body a)) -> fills_only (forM_ l body).
Proof.
  intros Hb. induction l as [|a rest IH]; cbn [forM_].
  - apply fills_only_ret.
  - apply fills_only_bind; auto.
Qed.

Lemma fills_only_update (f : list Branchpoint.t -> list Branchpoint.t) :
  fills_only (update_branchpoints f).
Proof.
  intros p. exists (f (branchpoints (self_of p))), (endpoints (self_of p)).
  reflexivity.
Qed.

Lemma fills_only_new pos parent gen :
  fills_only (new_Branchpoint pos parent gen).
Proof. intros p. apply results_only_refl. Qed.

Lemma fills_only_time : fills_only time.
Proof. intros p. apply results_only_refl. Qed.

Ltac fills :=
  repeat first
    [ apply fills_only_ret | apply fills_only_liftO | apply fills_only_get
    | apply fills_only_update | apply fills_only_new | apply fills_only_time
    | apply fills_only_diverge
    | apply fills_only_bind; [|intros ?] ].

Lemma fills_only_materialize bi : fills_only (materialize bi).
Proof.
  unfold materialize. fills.
  match goal with |- fills_only (match ?x with _ => _ end) => destruct x end;
    fills.
  match goal with |- fills_only (match ?x with _ => _ end) => destruct x end;
    fills.
Qed.

Lemma fills_only_count_up fuel cur : fills_only (count_up fuel cur).
Proof.
  revert cur. induction fuel as [|fuel IH]; intros cur; cbn [count_up];
    destruct (Branchpoint.parent cur); fills. apply IH.
Qed.

Lemma fills_only_count_connections k : fills_only (count_connections k).
Proof. unfold count_connections. fills. apply fills_only_count_up. Qed.

Lemma fills_only_fill_results : fills_only fill_results.
Proof.
  unfold fill_results. fills.
  - apply fills_only_forM, fills_only_materialize.
  - apply fills_only_forM, fills_only_count_connections.
  - intros p. exists (branchpoints (self_of p)), (map Vector (ep (self_of p))).
    reflexivity.
Qed.

End ResultLists.

(** What holds of [self] before a call holds after it, for every method,
    once it is kept by [growBranches], by [addEndPoint] and by the writes
    outside the growth store. *)
Section Methods.
Context {H : Host}.
Variables (Inv Err : SCA -> Prop).
Hypothesis Inv_Err : forall s, Inv s -> Err s.
Hypothesis Inv_results : forall s s', results_only s s' -> Inv s -> Inv s'.
Hypothesis Err_results : forall s s', results_only s s' -> Err s -> Err s'.
Hypothesis Inv_volumepoint : forall g s, Inv s -> Inv (set_volumepoint g s).
Hypothesis Inv_decay : forall s, Inv s -> Inv (decay s).
Hypothesis grow_keeps : forall gen,
  hoare (fun w => Inv (self w)) (growBranches gen)
        (fun _ w => Inv (self w)) (fun w => Err (self w)).
Hypothesis add_keeps : forall p, hoare Inv (addEndPoint p) (fun _ => Inv) Err.

Lemma fills_only_keeps {A} (m : M Proc A) :
  fills_only m ->
  hoare (fun p => Inv (self_of p)) m
        (fun _ p => Inv (self_of p)) (fun p => Err (self_of p)).
Proof.
  intros Hm p Hp. specialize (Hm p).
  destruct (m p) as [[a|e|] p']; cbn [snd] in Hm.
  - eapply Inv_results; eauto.
  - eapply Err_results; eauto.
  - eapply Err_results; eauto.
Qed.

Lemma next_volumepoint_keeps :
  hoare (fun w => Inv (self w)) next_volumepoint
        (fun _ w => Inv (self w)) (fun w => Err (self w)).
Proof.
  intros w Hw. unfold next_volumepoint.
  destruct (next (volumepoint (self w)) (rand w)) as [[[p g]|e|] r];
    cbn [self set_rand]; auto.
Qed.

Lemma draw_expovariate_keeps rate :
  hoare (fun w => Inv (self w)) (draw_expovariate rate)
        (fun _ w => Inv (self w)) (fun w => Err (self w)).
Proof.
  intros w Hw. unfold draw_expovariate.
  destruct (expovariate rate (rand w)). exact Hw.
Qed.

Lemma arrivals_keeps fuel rate n t :
  hoare (fun w => Inv (self w)) (arrivals fuel rate n t)
        (fun _ w => Inv (self w)) (fun w => Err (self w)).
Proof.
  revert t. induction fuel as [|fuel IH]; intros t; cbn [arrivals];
    destruct (t <? n)%float;
    try (apply hoare_ret; auto); try (apply hoare_diverge; auto).
  eapply hoare_bind; [apply next_volumepoint_keeps|]. intros p.
  eapply hoare_bind; [apply (on_self_Inv Inv Err), add_keeps|]. intros u.
  eapply hoare_bind; [apply draw_expovariate_keeps|]. intros e. apply IH.
Qed.

Lemma generations_keeps fuel gens starttime rate maxtime t n :
  hoare (fun p => Inv (self_of p))
        (generations fuel gens starttime rate maxtime t n)
        (fun _ p => Inv (self_of p)) (fun p => Err (self_of p)).
Proof.
  revert t n. induction gens as [|i rest IH]; intros t n; cbn [generations].
  - apply hoare_ret. auto.
  - eapply hoare_bind; [apply (on_st_Inv Inv Err), grow_keeps|]. intros u.
    eapply hoare_bind with (R := fun _ p => Inv (self_of p)).
    + destruct (0 <? maxtime)%float.
      * apply fills_only_keeps. apply fills_only_bind;
          [apply fills_only_time | intros; apply fills_only_ret].
      * apply hoare_ret. auto.
    + intros [|]; [apply hoare_ret; auto|].
      eapply hoare_bind with (R := fun _ p => Inv (self_of p)).
      * destruct (0 <? rate)%float.
        -- eapply hoare_bind; [apply (on_st_Inv Inv Err), arrivals_keeps|].
           intros t'. apply hoare_ret. auto.
        -- apply hoare_ret. auto.
      * intros [t' n'].
        eapply hoare_bind with (R := fun _ p => Inv (self_of p)).
        -- intros p Hp. cbn. apply Inv_decay. exact Hp.
        -- intros u'. apply IH.
Qed.

Lemma iterate_keeps newendpointsper1000 maxtime fuel :
  hoare (fun p => Inv (self_of p)) (iterate newendpointsper1000 maxtime fuel)
        (fun _ p => Inv (self_of p)) (fun p => Err (self_of p)).
Proof.
  unfold iterate.
  eapply hoare_bind; [apply fills_only_keeps, fills_only_time|]. intros t0.
  eapply hoare_bind with (R := fun _ p => Inv (self_of p)).
  { destruct (0 <? _)%float.
    - apply (on_st_Inv Inv Err), draw_expovariate_keeps.
    - apply hoare_ret. auto. }
  intros t. eapply hoare_bind with (R := fun _ p => Inv (self_of p)).
  { apply hoare_get. auto. }
  intros p0. eapply hoare_bind; [apply generations_keeps|]. intros u.
  apply fills_only_keeps, fills_only_fill_results.
Qed.

Lemma seed_endpoints_keeps n :
  hoare (fun w => Inv (self w)) (seed_endpoints n)
        (fun _ w => Inv (self w)) (fun w => Err (self w)).
Proof.
  unfold seed_endpoints. apply hoare_forM. intros i _.
  eapply hoare_bind; [apply next_volumepoint_keeps|]. intros p.
  apply (on_self_Inv Inv Err), add_keeps.
Qed.

(** The calls that grow the tree or add an endpoint. *)
Lemma perform_keeps c :
  grows c = true ->
  hoare (fun p => Inv (self_of p)) (perform c)
        (fun _ p => Inv (self_of p)) (fun p => Err (self_of p)).
Proof.
  destruct c as [gen|n m fuel|p|newbp parent gen]; cbn [grows perform];
    intros Hg; try discriminate.
  - apply (on_st_Inv Inv Err), grow_keeps.
  - apply iterate_keeps.
  - apply (on_st_Inv Inv Err), (on_self_Inv Inv Err), add_keeps.
Qed.

(** A session on an engine made without starting points. *)
Lemma session_keeps a calls :
  kw_startingpoints a = [] -> forallb grows calls = true ->
  Inv (fresh a) ->
  hoare (fun _ => True) (session a calls)
        (fun _ p => Inv (self_of p)) (fun p => Err (self_of p)).
Proof.
  intros Hsp Hcalls Hfresh. unfold session.
  eapply hoare_bind with (R := fun _ q => Inv (self_of q)).
  - intros p _. unfold new_SCA, SCA_init. rewrite Hsp.
    unfold seed_branchpoints. cbn [len length Z.of_nat Z.gtb Z.compare].
    pose proof (seed_endpoints_keeps (kw_NENDPOINTS a)
                  {| self := fresh a; rand := seed (kw_SEED a) |} Hfresh)
      as Hseed.
    unfold bind.
    destruct (seed_endpoints (kw_NENDPOINTS a) _) as [[u|e|] w]; exact Hseed.
  - intros u. apply hoare_forM. intros c Hc. apply perform_keeps.
    rewrite forallb_forall in Hcalls. now apply Hcalls.
Qed.

End Methods.

(** When [addBranchPoint] keeps it with whatever arguments, so does
    [growBranches]. *)
Section AnyParent.
Context {H : Host}.
Variables (Inv Err : SCA -> Prop).
Hypothesis Inv_Err : forall s, Inv s -> Err s.
Hypothesis branch_keeps : forall newbp parent gen,
  hoare Inv (addBranchPoint newbp parent gen) (fun _ => Inv) Err.

Lemma growBranches_keeps gen :
  hoare (fun w => Inv (self w)) (growBranches gen)
        (fun _ w => Inv (self w)) (fun w => Err (self w)).
Proof.
  intros [s r] Hs. cbn [self] in Hs. rewrite growBranches_unfold.
  destruct (snapshot_candidates s (bis_of (epb s)) r) as [[l|e|] r'];
    try (apply Inv_Err; exact Hs).
  assert (Hloop : hoare (fun w => Inv (self w)) (forM_ l (commit gen))
                    (fun _ w => Inv (self w)) (fun w => Err (self w))).
  { apply hoare_forM. intros [p q] _ [s1 r1] Hs1. cbn [self] in Hs1.
    unfold commit. mrun. cbn [self].
    destruct (exclude s1 (Vector p)); [exact Hs1|].
    rewrite on_self_unfold.
    pose proof (branch_keeps p q gen s1 Hs1) as Hadd.
    destruct (addBranchPoint p q gen s1) as [[u|e|] s2]; exact Hadd. }
  apply (Hloop {| self := s; rand := r' |} Hs).
Qed.

End AnyParent.

(** ** What [addBranchPoint] and [addEndPoint] write *)

Section Writes.
Context {H : Host}.

(** The walk up the parents writes generations only, and no new entry. *)
Lemma stamp_lineage_length fuel ppi gen s :
  exists g, snd (stamp_lineage fuel ppi gen s) = set_bpg g s /\
            length g = length (bpg s).
Proof.
  revert ppi s. induction fuel as [|fuel IH]; intros [i|] s; simpl;
    try (exists (bpg s); split; [now destruct s | reflexivity]).
  unfold bind, get, liftO, modify.
  destruct (setitem (bpg s) i gen) as [g| |] eqn:Eg; simpl;
    try (exists (bpg s); split; [now destruct s | reflexivity]).
  apply setitem_length in Eg.
  destruct (getitem (bpp s) i) as [ppi'| |]; simpl;
    try (exists g; split; [reflexivity | exact Eg]).
  destruct (IH ppi' (set_bpg g s)) as (g' & Hg' & Hlen). exists g'.
  rewrite Hg'. split; [reflexivity|]. simpl in Hlen. congruence.
Qed.

(** [s'] is [s] but for what the endpoints are tied to, entry by entry. *)
Definition ep_moved (s s' : SCA) : Prop :=
  exists v d b,
    s' = set_epb b (set_epd d (set_epv v s)) /\
    length v = length (epv s) /\ length d = length (epd s) /\
    length b = length (epb s).

Lemma ep_moved_refl s : ep_moved s s.
Proof. exists (epv s), (epd s), (epb s). now destruct s. Qed.

Lemma ep_moved_trans s1 s2 s3 : ep_moved s1 s2 -> ep_moved s2 s3 -> ep_moved s1 s3.
Proof.
  intros (v & d & b & -> & Hv & Hd & Hb) (v' & d' & b' & -> & Hv' & Hd' & Hb').
  exists v', d', b'. cbn in *. repeat split; congruence.
Qed.

Lemma ep_moved_epv s l s0 :
  ep_moved s0 s -> length l = length (epv s) -> ep_moved s0 (set_epv l s).
Proof.
  intros (v & d & b & -> & Hv & Hd & Hb) Hl. exists l, d, b. cbn in *.
  repeat split; congruence.
Qed.

Lemma ep_moved_epd s l s0 :
  ep_moved s0 s -> length l = length (epd s) -> ep_moved s0 (set_epd l s).
Proof.
  intros (v & d & b & -> & Hv & Hd & Hb) Hl. exists v, l, b. cbn in *.
  repeat split; congruence.
Qed.

Lemma ep_moved_epb s l s0 :
  ep_moved s0 s -> length l = length (epb s) -> ep_moved s0 (set_epb l s).
Proof.
  intros (v & d & b & -> & Hv & Hd & Hb) Hl. exists v, d, l. cbn in *.
  repeat split; congruence.
Qed.

Ltac moved :=
  repeat first
    [ assumption
    | apply ep_moved_epb; [|cbn; eapply setitem_length; eassumption]
    | apply ep_moved_epd; [|cbn; eapply setitem_length; eassumption]
    | apply ep_moved_epv; [|cbn; eapply setitem_length; eassumption] ].

Lemma attract_moved s0 newbp bi item s :
  ep_moved s0 s -> ep_moved s0 (snd (attract newbp bi item s)).
Proof.
  intros Hs. unfold attract.
  destruct item as [epi [[[e0 e1] e2] [d0 b0]]], newbp as [[n0 n1] n2].
  destruct (b0 =? -1); [exact Hs|].
  mrun. repeat (split_match; simpl in * ); moved.
Qed.

Lemma reassign_moved s0 parent item s :
  ep_moved s0 s -> ep_moved s0 (snd (reassign parent item s)).
Proof.
  intros Hs. unfold reassign. destruct item as [epi b0].
  destruct (b0 =? parent); [|exact Hs].
  mrun. repeat (split_match; simpl in * ); moved.
Qed.

Lemma hoare_of_snd {S A} (I : S -> Prop) (m : M S A) :
  (forall w, I w -> I (snd (m w))) -> hoare I m (fun _ => I) I.
Proof.
  intros Hm w Hw. specialize (Hm w Hw). now destruct (m w) as [[a|e|] w'].
Qed.

Lemma attract_all_moved newbp s : ep_moved s (snd (attract_all newbp s)).
Proof.
  unfold attract_all. mrun.
  apply (hoare_snd (ep_moved s) (ep_moved s)); [|apply ep_moved_refl].
  apply hoare_forM. intros item _. apply hoare_of_snd.
  intros w. apply attract_moved.
Qed.

Lemma reassign_all_moved parent s : ep_moved s (snd (reassign_all parent s)).
Proof.
  unfold reassign_all. mrun.
  destruct (getitem (bpc s) parent) as [c| |]; cbn [snd];
    try apply ep_moved_refl.
  destruct (c >? 1); [|apply ep_moved_refl].
  apply (hoare_snd (ep_moved s) (ep_moved s)); [|apply ep_moved_refl].
  apply hoare_forM. intros item _. apply hoare_of_snd.
  intros w. apply reassign_moved.
Qed.

(** The first part of [addBranchPoint], whatever its outcome: the position
    and a generation are appended; the parent, the two counts and the
    parent's count follow when the walk up the parents and the subscripts
    do not raise. *)
Lemma append_branchpoint_effect newbp parent gen s :
  let '(n0, n1, n2) := newbp in
  let '(o, s') := append_branchpoint newbp parent gen s in
  exists g p c a,
    s' = set_bpa a (set_bpc c (set_bpp p (set_bpg g
           (set_bp (bp s ++ [n0; n1; n2]) s)))) /\
    length g = S (length (bpg s)) /\
    match o with
    | Returned _ =>
        p = bpp s ++ [Some parent] /\ a = bpa s ++ [0] /\
        exists k, getitem (bpc s ++ [0]) parent = Returned k /\
                  setitem (bpc s ++ [0]) parent (k + 1) = Returned c
    | _ =>
        (p = bpp s /\ c = bpc s /\ a = bpa s) \/
        (p = bpp s ++ [Some parent] /\ c = bpc s ++ [0] /\ a = bpa s ++ [0])
    end.
Proof.
  destruct newbp as [[n0 n1] n2].
  unfold append_branchpoint, incr_bpc. mrun.
  match goal with
  | |- context [stamp_lineage ?f ?p ?g ?w] =>
      destruct (stamp_lineage_length f p g w) as (g' & Hg' & Hlen);
      destruct (stamp_lineage f p g w) as [[u|e|] w'] eqn:Est
  end; simpl in Hg', Hlen; subst w'; simpl;
    rewrite length_app in Hlen; simpl in Hlen.
  - destruct (getitem (bpc s ++ [0]) parent) as [k| |] eqn:Ek; simpl;
      try (exists g', (bpp s ++ [Some parent]), (bpc s ++ [0]),
             (bpa s ++ [0]);
           split; [reflexivity|]; split; [lia|]; now right).
    destruct (as_int (k + 1)) as [v| |] eqn:Ev; simpl;
      try (exists g', (bpp s ++ [Some parent]), (bpc s ++ [0]),
             (bpa s ++ [0]);
           split; [reflexivity|]; split; [lia|]; now right).
    apply as_int_inv in Ev as [-> _].
    destruct (setitem (bpc s ++ [0]) parent (k + 1)) as [l| |] eqn:El; simpl;
      try (exists g', (bpp s ++ [Some parent]), (bpc s ++ [0]),
             (bpa s ++ [0]);
           split; [reflexivity|]; split; [lia|]; now right).
    exists g', (bpp s ++ [Some parent]), l, (bpa s ++ [0]).
    split; [reflexivity|]. split; [lia|]. split; [reflexivity|].
    split; [reflexivity|]. now exists k.
  - exists g', (bpp s), (bpc s), (bpa s).
    split; [now destruct s|]. split; [lia|]. now left.
  - exists g', (bpp s), (bpc s), (bpa s).
    split; [now destruct s|]. split; [lia|]. now left.
Qed.

Lemma incr_bpa_effect parent s :
  let '(o, s') := incr_bpa parent s in
  match o with
  | Returned _ =>
      exists k l, getitem (bpa s) parent = Returned k /\
                  setitem (bpa s) parent (k + 1) = Returned l /\
                  s' = set_bpa l s
  | _ => s' = s
  end.
Proof.
  unfold incr_bpa. mrun.
  destruct (getitem (bpa s) parent) as [k| |]; simpl; try reflexivity.
  destruct (setitem (bpa s) parent (k + 1)) as [l| |] eqn:El; simpl;
    try reflexivity.
  now exists k, l.
Qed.

(** What a call of [addBranchPoint] has written when it ends, whatever its
    outcome. *)
Lemma addBranchPoint_effect newbp parent gen s :
  let '(n0, n1, n2) := newbp in
  let '(o, s') := addBranchPoint newbp parent gen s in
  exists g p c a s1,
    s1 = set_bpa a (set_bpc c (set_bpp p (set_bpg g
           (set_bp (bp s ++ [n0; n1; n2]) s)))) /\
    ep_moved s1 s' /\
    length g = S (length (bpg s)) /\
    match o with
    | Returned _ =>
        p = bpp s ++ [Some parent] /\
        (exists k, getitem (bpc s ++ [0]) parent = Returned k /\
                   setitem (bpc s ++ [0]) parent (k + 1) = Returned c) /\
        (exists k, getitem (bpa s ++ [0]) parent = Returned k /\
                   setitem (bpa s ++ [0]) parent (k + 1) = Returned a)
    | _ =>
        (p = bpp s \/ p = bpp s ++ [Some parent]) /\
        (length c = length p <-> length (bpc s) = length (bpp s)) /\
        (length a = length p <-> length (bpa s) = length (bpp s))
    end.
Proof.
  rewrite addBranchPoint_unfold.
  pose proof (append_branchpoint_effect newbp parent gen s) as H1.
  destruct newbp as [[n0 n1] n2].
  destruct (append_branchpoint (n0, n1, n2) parent gen s) as [o1 s1].
  destruct H1 as (g & p & c & a & Hs1 & Hg & H1).
  assert (Hfail : forall o s', ep_moved s1 s' ->
            match o with Returned _ => False | _ => True end ->
            (p = bpp s \/ p = bpp s ++ [Some parent]) ->
            (length c = length p <-> length (bpc s) = length (bpp s)) ->
            (length a = length p <-> length (bpa s) = length (bpp s)) ->
            exists g p c a s1',
              s1' = set_bpa a (set_bpc c (set_bpp p (set_bpg g
                      (set_bp (bp s ++ [n0; n1; n2]) s)))) /\
              ep_moved s1' s' /\ length g = S (length (bpg s)) /\
              match o : outcome unit with
              | Returned _ =>
                  p = bpp s ++ [Some parent] /\
                  (exists k, getitem (bpc s ++ [0]) parent = Returned k /\
                     setitem (bpc s ++ [0]) parent (k + 1) = Returned c) /\
                  (exists k, getitem (bpa s ++ [0]) parent = Returned k /\
                     setitem (bpa s ++ [0]) parent (k + 1) = Returned a)
              | _ =>
                  (p = bpp s \/ p = bpp s ++ [Some parent]) /\
                  (length c = length p <-> length (bpc s) = length (bpp s)) /\
                  (length a = length p <-> length (bpa s) = length (bpp s))
              end).
  { intros o s' Hm Ho Hp Hc Ha. exists g, p, c, a, s1.
    split; [exact Hs1|]. split; [exact Hm|]. split; [exact Hg|].
    destruct o; [destruct Ho | |]; auto. }
  assert (Hlens : match o1 with
                  | Returned _ => True
                  | _ => (p = bpp s \/ p = bpp s ++ [Some parent]) /\
                         (length c = length p <-> length (bpc s) = length (bpp s)) /\
                         (length a = length p <-> length (bpa s) = length (bpp s))
                  end).
  { destruct o1; auto;
      destruct H1 as [(-> & -> & ->)|(-> & -> & ->)];
      (split; [auto|]); rewrite ?length_app; cbn [length]; split; split; lia. }
  destruct o1 as [u1|e|];
    [| apply (Hfail (Raised e) s1 (ep_moved_refl s1) I); apply Hlens
     | apply (Hfail Diverged s1 (ep_moved_refl s1) I); apply Hlens].
  destruct H1 as (Hp & Ha & k & Hk & Hset).
  assert (Hlens' :
            (length c = length p <-> length (bpc s) = length (bpp s)) /\
            (length a = length p <-> length (bpa s) = length (bpp s))).
  { apply setitem_length in Hset. subst p a. rewrite Hset, !length_app.
    cbn [length]. split; split; lia. }
  pose proof (attract_all_moved (n0, n1, n2) s1) as H2.
  destruct (attract_all (n0, n1, n2) s1) as [o2 s2]. cbn [snd] in H2.
  destruct o2 as [u2|e|];
    [| apply (Hfail (Raised e) s2 H2 I); [right; exact Hp | apply Hlens' ..]
     | apply (Hfail Diverged s2 H2 I); [right; exact Hp | apply Hlens' ..]].
  pose proof (reassign_all_moved parent s2) as H3.
  destruct (reassign_all parent s2) as [o3 s3]. cbn [snd] in H3.
  pose proof (ep_moved_trans _ _ _ H2 H3) as H23.
  destruct o3 as [u3|e|];
    [| apply (Hfail (Raised e) s3 H23 I); [right; exact Hp | apply Hlens' ..]
     | apply (Hfail Diverged s3 H23 I); [right; exact Hp | apply Hlens' ..]].
  pose proof (incr_bpa_effect parent s3) as H4.
  destruct (incr_bpa parent s3) as [o4 s4].
  destruct o4 as [u4|e|];
    [| subst s4; apply (Hfail (Raised e) s3 H23 I);
       [right; exact Hp | apply Hlens' ..]
     | subst s4; apply (Hfail Diverged s3 H23 I);
       [right; exact Hp | apply Hlens' ..]].
  destruct H4 as (k' & l & Hk' & Hl & ->).
  destruct H23 as (v & d & b & -> & Hv & Hd & Hb).
  exists g, p, c, l, (set_bpa l s1).
  split; [rewrite Hs1; reflexivity|]. split.
  - exists v, d, b. split; [reflexivity|]. rewrite Hs1 in *. cbn in *. auto.
  - split; [exact Hg|]. split; [exact Hp|]. split; [now exists k|].
    exists k'. rewrite Hs1 in Hk', Hl. cbn in Hk', Hl. rewrite Ha in Hk', Hl.
    auto.
Qed.

(** [addEndPoint] appends the point first, so a scan that fails leaves it in
    [self.ep] with nothing beside it in the other three lists. *)
Lemma addEndPoint_unfold p s :
  addEndPoint p s =
  match closestBranchPoint s p with
  | Returned (bi, v, d) =>
      (Returned tt,
       set_epd (epd s ++ [d]) (set_epv (epv s ++ [v])
         (set_epb (epb s ++ [bi]) (set_ep (ep s ++ [p]) s))))
  | Raised e => (Raised e, set_ep (ep s ++ [p]) s)
  | Diverged => (Diverged, set_ep (ep s ++ [p]) s)
  end.
Proof.
  unfold addEndPoint. mrun.
  change (closestBranchPoint (set_ep (ep s ++ [p]) s) p)
    with (closestBranchPoint s p).
  destruct (closestBranchPoint s p) as [[[bi v] d]| |]; reflexivity.
Qed.

End Writes.

(** ** The store only grows *)

Section OnlyGrows.
Context {H : Host}.

(** [self.bp], [self.bpp] and [self.ep] of [s] are those of [s0], with
    entries added at the end. *)
Definition grown_from (s0 s : SCA) : Prop :=
  (exists t, bp s = bp s0 ++ t) /\ (exists t, bpp s = bpp s0 ++ t) /\
  (exists t, ep s = ep s0 ++ t).

Lemma grown_from_refl s : grown_from s s.
Proof. repeat split; exists []; now rewrite app_nil_r. Qed.

Lemma grown_from_step s0 s s' :
  grown_from s0 s ->
  (exists t, bp s' = bp s ++ t) -> (exists t, bpp s' = bpp s ++ t) ->
  (exists t, ep s' = ep s ++ t) -> grown_from s0 s'.
Proof.
  intros ([t1 H1] & [t2 H2] & [t3 H3]) [u1 G1] [u2 G2] [u3 G3].
  repeat split; eexists; rewrite ?G1, ?G2, ?G3, ?H1, ?H2, ?H3, <- app_assoc;
    reflexivity.
Qed.

Lemma grown_from_same s0 s s' :
  grown_from s0 s -> bp s' = bp s -> bpp s' = bpp s -> ep s' = ep s ->
  grown_from s0 s'.
Proof.
  intros Hg H1 H2 H3.
  apply (grown_from_step s0 s s' Hg); exists []; now rewrite app_nil_r.
Qed.

Lemma decay_store s :
  bp (decay s) = bp s /\ bpg (decay s) = bpg s /\ bpp (decay s) = bpp s /\
  bpc (decay s) = bpc s /\ bpa (decay s) = bpa s /\ ep (decay s) = ep s /\
  epb (decay s) = epb s /\ epv (decay s) = epv s /\ epd (decay s) = epd s.
Proof.
  unfold decay. destruct (0 <? apicaltiming s)%float; [|repeat split].
  match goal with |- context [if ?b then _ else _] => destruct b end;
    repeat split.
Qed.

Lemma addBranchPoint_grown s0 newbp parent gen :
  hoare (grown_from s0) (addBranchPoint newbp parent gen)
        (fun _ => grown_from s0) (grown_from s0).
Proof.
  apply hoare_of_snd. intros s Hs.
  pose proof (addBranchPoint_effect newbp parent gen s) as He.
  destruct newbp as [[n0 n1] n2].
  destruct (addBranchPoint (n0, n1, n2) parent gen s) as [o s'].
  destruct He as (g & p & c & a & s1 & -> & (v & d & b & -> & _) & _ & Ho).
  cbn [snd]. apply (grown_from_step s0 s _ Hs); cbn.
  - now exists [n0; n1; n2].
  - destruct o as [u|e|].
    + destruct Ho as (-> & _). now exists [Some parent].
    + destruct Ho as ([-> | ->] & _);
        [exists []; now rewrite app_nil_r | now exists [Some parent]].
    + destruct Ho as ([-> | ->] & _);
        [exists []; now rewrite app_nil_r | now exists [Some parent]].
  - exists []. now rewrite app_nil_r.
Qed.

Lemma addEndPoint_grown s0 p :
  hoare (grown_from s0) (addEndPoint p) (fun _ => grown_from s0)
        (grown_from s0).
Proof.
  apply hoare_of_snd. intros s Hs. rewrite addEndPoint_unfold.
  destruct (closestBranchPoint s p) as [[[bi v] d]| |]; cbn [snd];
    (apply (grown_from_step s0 s _ Hs); cbn;
     [exists []; now rewrite app_nil_r | exists []; now rewrite app_nil_r
     | now exists [p]]).
Qed.

Lemma perform_grown s0 c :
  hoare (fun p => grown_from s0 (self_of p)) (perform c)
        (fun _ p => grown_from s0 (self_of p))
        (fun p => grown_from s0 (self_of p)).
Proof.
  assert (Hres : forall s s', results_only s s' ->
                   grown_from s0 s -> grown_from s0 s').
  { intros s s' (bs & es & ->) Hs. now apply (grown_from_same s0 s). }
  assert (Hgrow : forall gen,
    hoare (fun w => grown_from s0 (self w)) (growBranches gen)
          (fun _ w => grown_from s0 (self w))
          (fun w => grown_from s0 (self w))).
  { intros gen. apply (growBranches_keeps (grown_from s0) (grown_from s0));
      [auto | apply addBranchPoint_grown]. }
  destruct c as [gen|n m fuel|p|newbp parent gen].
  - apply (on_st_Inv (grown_from s0) (grown_from s0)), Hgrow.
  - apply (iterate_keeps (grown_from s0) (grown_from s0) (fun s Hs => Hs)
             Hres Hres); [| |exact Hgrow|apply addEndPoint_grown].
    + intros g s Hs. now apply (grown_from_same s0 s).
    + intros s Hs. destruct (decay_store s) as (? & _ & ? & _ & _ & ? & _).
      now apply (grown_from_same s0 s).
  - apply (on_st_Inv (grown_from s0) (grown_from s0)),
      (on_self_Inv (grown_from s0) (grown_from s0)), addEndPoint_grown.
  - apply (on_st_Inv (grown_from s0) (grown_from s0)),
      (on_self_Inv (grown_from s0) (grown_from s0)), addBranchPoint_grown.
Qed.

(** X3.  No call removes or rewrites a branch point's position, a parent
    index or an endpoint's position: whatever the call ([growBranches],
    [iterate], [addEndPoint], [addBranchPoint]), its arguments, the state it
    starts from and its outcome, [self.bp], [self.bpp] and [self.ep] after
    it are what they were, with entries added at the end. *)
Theorem store_only_grows (c : call) (p : Proc) :
  (exists t, bp (self_of (snd (perform c p))) = bp (self_of p) ++ t) /\
  (exists t, bpp (self_of (snd (perform c p))) = bpp (self_of p) ++ t) /\
  (exists t, ep (self_of (snd (perform c p))) = ep (self_of p) ++ t).
Proof.
  apply (hoare_snd (fun q => grown_from (self_of p) (self_of q))
                   (fun q => grown_from (self_of p) (self_of q))
                   (perform c) (perform_grown (self_of p) c) p).
  apply grown_from_refl.
Qed.

End OnlyGrows.

(** ** The lists of the endpoints stay in step *)

Section InStep.
Context {H : Host}.

(** Each endpoint has its position, its index, its direction and its
    distance. *)
Definition aligned (s : SCA) : Prop :=
  length (epb s) = length (ep s) /\ length (epv s) = length (ep s) /\
  length (epd s) = length (ep s).

(** As [aligned], but the last position may have nothing beside it. *)
Definition dangling (s : SCA) : Prop :=
  length (epv s) = length (epb s) /\ length (epd s) = length (epb s) /\
  (length (ep s) = length (epb s) \/ length (ep s) = S (length (epb s))).

Lemma aligned_dangling s : aligned s -> dangling s.
Proof. intros (H1 & H2 & H3). repeat split; try congruence. now left. Qed.

Lemma addBranchPoint_aligned newbp parent gen :
  hoare aligned (addBranchPoint newbp parent gen) (fun _ => aligned) dangling.
Proof.
  assert (Hsnd : forall s, aligned s ->
            aligned (snd (addBranchPoint newbp parent gen s))).
  { intros s (H1 & H2 & H3).
    pose proof (addBranchPoint_effect newbp parent gen s) as He.
    destruct newbp as [[n0 n1] n2].
    destruct (addBranchPoint (n0, n1, n2) parent gen s) as [o s'].
    destruct He as (g & p & c & a & s1 & -> & (v & d & b & -> & Hv & Hd & Hb) & _).
    cbn in *. unfold aligned. cbn. repeat split; congruence. }
  intros s Hs. specialize (Hsnd s Hs).
  destruct (addBranchPoint newbp parent gen s) as [[u|e|] s'];
    [exact Hsnd | now apply aligned_dangling ..].
Qed.

Lemma addEndPoint_aligned p :
  hoare aligned (addEndPoint p) (fun _ => aligned) dangling.
Proof.
  intros s (H1 & H2 & H3). rewrite addEndPoint_unfold.
  destruct (closestBranchPoint s p) as [[[bi v] d]| |]; cbn;
    unfold aligned, dangling; cbn; rewrite ?length_app; cbn [length];
    repeat split; try lia.
Qed.

Lemma perform_aligned c :
  hoare (fun p => aligned (self_of p)) (perform c)
        (fun _ p => aligned (self_of p)) (fun p => dangling (self_of p)).
Proof.
  assert (Hgrow : forall gen,
    hoare (fun w => aligned (self w)) (growBranches gen)
          (fun _ w => aligned (self w)) (fun w => dangling (self w))).
  { intros gen. apply (growBranches_keeps aligned dangling);
      [apply aligned_dangling | apply addBranchPoint_aligned]. }
  destruct c as [gen|n m fuel|p|newbp parent gen].
  - apply (on_st_Inv aligned dangling), Hgrow.
  - apply (iterate_keeps aligned dangling aligned_dangling);
      [| | |
       |exact Hgrow|apply addEndPoint_aligned].
    + intros s s' (bs & es & ->) Hs. exact Hs.
    + intros s s' (bs & es & ->) Hs. exact Hs.
    + intros g s Hs. exact Hs.
    + intros s Hs. destruct (decay_store s)
        as (_ & _ & _ & _ & _ & He & Hb & Hv & Hd).
      unfold aligned. now rewrite He, Hb, Hv, Hd.
  - apply (on_st_Inv aligned dangling), (on_self_Inv aligned dangling),
      addEndPoint_aligned.
  - apply (on_st_Inv aligned dangling), (on_self_Inv aligned dangling),
      addBranchPoint_aligned.
Qed.

Lemma new_SCA_aligned a :
  hoare (fun _ => True) (new_SCA a)
        (fun _ p => aligned (self_of p)) (fun p => dangling (self_of p)).
Proof.
  intros p _. unfold new_SCA, SCA_init.
  assert (Hinit : hoare (fun w => aligned (self w))
            (bind (seed_endpoints (kw_NENDPOINTS a))
                  (fun _ => seed_branchpoints (kw_startingpoints a)))
            (fun _ w => aligned (self w)) (fun w => dangling (self w))).
  { eapply hoare_bind.
    - apply (seed_endpoints_keeps aligned dangling aligned_dangling);
        [intros g s Hs; exact Hs | apply addEndPoint_aligned].
    - intros u. unfold seed_branchpoints.
      destruct (len (kw_startingpoints a) >? 0); [|apply hoare_ret; auto].
      eapply hoare_bind with (R := fun _ w => aligned (self w)).
      + intros w Hw. exact Hw.
      + intros u'. apply hoare_forM. intros sp _.
        apply (on_self_Inv aligned dangling), addBranchPoint_aligned. }
  specialize (Hinit {| self := fresh a; rand := seed (kw_SEED a) |}).
  match type of Hinit with _ -> match ?m with _ => _ end =>
    destruct m as [[u|e|] w] end; apply Hinit; repeat split.
Qed.

(** X4.  The four lists of the endpoints stay in step.  From a state where
    [self.ep], [self.epb], [self.epv] and [self.epd] have the same length, a
    call that returns leaves them so; a call that raises leaves [epb],
    [epv] and [epd] of one length and [ep] of that length or one more (the
    position [addEndPoint] appended before its scan failed).  The
    constructor establishes this, so it holds all along a session. *)
Theorem endpoint_lists_in_step :
  (forall (c : call) (p : Proc),
     aligned (self_of p) ->
     match perform c p with
     | (Returned _, p') => aligned (self_of p')
     | (_, p') => dangling (self_of p')
     end) /\
  (forall (a : Args) (calls : list call) (p : Proc),
     match session a calls p with
     | (Returned _, p') => aligned (self_of p')
     | (_, p') => dangling (self_of p')
     end).
Proof.
  split.
  - intros c p. apply perform_aligned.
  - intros a calls p. unfold session.
    apply (hoare_bind (fun _ => True) (new_SCA a) (fun _ => forM_ calls perform)
             (fun _ q => aligned (self_of q)) (fun _ q => aligned (self_of q))
             (fun q => dangling (self_of q)));
      [apply new_SCA_aligned | | exact I].
    intros u. apply hoare_forM. intros c _. apply perform_aligned.
Qed.

End InStep.

(** ** The apical factor is the number of children *)

Section Factors.
Context {H : Host}.

Lemma addBranchPoint_factors newbp parent gen :
  hoare (fun s => bpa s = bpc s) (addBranchPoint newbp parent gen)
        (fun _ s => bpa s = bpc s) (fun _ => True).
Proof.
  intros s Hs.
  pose proof (addBranchPoint_effect newbp parent gen s) as He.
  destruct newbp as [[n0 n1] n2].
  destruct (addBranchPoint (n0, n1, n2) parent gen s) as [[u|e|] s']; auto.
  destruct He as (g & p & c & a & s1 & -> & (v & d & b & -> & _) & _ & Ho).
  destruct Ho as (_ & (k & Hk & Hc) & (k' & Hk' & Ha)). cbn.
  rewrite Hs in Hk', Ha. congruence.
Qed.

Lemma addEndPoint_factors p :
  hoare (fun s => bpa s = bpc s) (addEndPoint p)
        (fun _ s => bpa s = bpc s) (fun _ => True).
Proof.
  intros s Hs. rewrite addEndPoint_unfold.
  destruct (closestBranchPoint s p) as [[[bi v] d]| |]; auto.
Qed.

Lemma perform_factors c :
  hoare (fun p => bpa (self_of p) = bpc (self_of p)) (perform c)
        (fun _ p => bpa (self_of p) = bpc (self_of p)) (fun _ => True).
Proof.
  pose (Inv := fun s : SCA => bpa s = bpc s).
  pose (Err := fun _ : SCA => True).
  assert (Hgrow : forall gen,
    hoare (fun w => Inv (self w)) (growBranches gen)
          (fun _ w => Inv (self w)) (fun w => Err (self w))).
  { intros gen. apply (growBranches_keeps Inv Err);
      [intros; exact I | apply addBranchPoint_factors]. }
  destruct c as [gen|n m fuel|p|newbp parent gen].
  - apply (on_st_Inv Inv Err), Hgrow.
  - apply (iterate_keeps Inv Err (fun _ _ => I));
      [| | | |exact Hgrow|apply addEndPoint_factors].
    + intros s s' (bs & es & ->) Hs. exact Hs.
    + intros; exact I.
    + intros g s Hs. exact Hs.
    + intros s Hs. destruct (decay_store s) as (_ & _ & _ & Hc & Ha & _).
      unfold Inv. now rewrite Hc, Ha.
  - apply (on_st_Inv Inv Err), (on_self_Inv Inv Err), addEndPoint_factors.
  - apply (on_st_Inv Inv Err), (on_self_Inv Inv Err), addBranchPoint_factors.
Qed.

(** X5.  The apical control factor of a branch point is its number of
    children: from a state where [self.bpa] and [self.bpc] hold the same
    values (as the constructor leaves them when no starting points are
    given), every call that returns leaves them holding the same values, so
    [growBranches] hands [shootSupressed] the child count. *)
Theorem apical_factor_is_child_count (c : call) (p : Proc) :
  bpa (self_of p) = bpc (self_of p) ->
  match perform c p with
  | (Returned _, p') => bpa (self_of p') = bpc (self_of p')
  | _ => True
  end.
Proof.
  intros Hp. pose proof (perform_factors c p Hp) as Hc.
  destruct (perform c p) as [[u|e|] p']; auto.
Qed.

End Factors.

(** ** The branch points form a tree rooted at index 0 *)

Section Rooted.
Context {H : Host}.

(** The five lists of the branch points have an entry for each, every
    parent index is a smaller index than its child's, and only index 0 has
    no parent. *)
Definition rooted (s : SCA) : Prop :=
  len (bp s) = 3 * len (bpp s) /\
  length (bpg s) = length (bpp s) /\ length (bpc s) = length (bpp s) /\
  length (bpa s) = length (bpp s) /\
  (forall i q, nth_error (bpp s) i = Some (Some q) -> 0 <= q < Z.of_nat i) /\
  (forall i, nth_error (bpp s) i = Some None -> i = O).

Lemma nth_error_snoc {A} (l : list A) (a : A) i x :
  nth_error (l ++ [a]) i = Some x ->
  nth_error l i = Some x \/ (i = length l /\ x = a).
Proof.
  intros Hi. destruct (Nat.lt_ge_cases i (length l)) as [Hlt|Hge].
  - rewrite nth_error_app1 in Hi by exact Hlt. now left.
  - rewrite nth_error_app2 in Hi by exact Hge.
    destruct (i - length l)%nat as [|j] eqn:Ej; cbn in Hi.
    + injection Hi as <-. right. split; [lia | reflexivity].
    + destruct j; discriminate.
Qed.

Lemma addBranchPoint_rooted newbp parent gen s s' :
  rooted s -> 0 <= parent < len (bpp s) ->
  addBranchPoint newbp parent gen s = (Returned tt, s') -> rooted s'.
Proof.
  intros (Hbp & Hg & Hc & Ha & Hord & Hroot) Hp E.
  pose proof (addBranchPoint_effect newbp parent gen s) as He.
  destruct newbp as [[n0 n1] n2]. rewrite E in He.
  destruct He as (g & p & c & a & s1 & -> & (v & d & b & -> & _) & Hlg & Ho).
  destruct Ho as (-> & (k & Hk & Hsc) & (k' & Hk' & Hsa)).
  apply setitem_length in Hsc, Hsa. rewrite length_app in Hsc, Hsa.
  cbn [length] in Hsc, Hsa.
  unfold rooted.
  cbn [bp bpp bpg bpc bpa set_epb set_epd set_epv set_bpa set_bpc set_bpp
       set_bpg set_bp].
  rewrite !len_app, !length_app. cbn [length].
  change (len [n0; n1; n2]) with 3. change (len [Some parent]) with 1.
  split; [lia|]. split; [lia|]. split; [lia|]. split; [lia|]. split.
  - intros i q Hi. apply nth_error_snoc in Hi as [Hi|[-> Hi]].
    + eauto.
    + injection Hi as ->. unfold len in Hp. lia.
  - intros i Hi. apply nth_error_snoc in Hi as [Hi|[_ Hi]];
      [eauto | discriminate].
Qed.

Lemma commit_loop_rooted gen l :
  forall s r, consistent s -> rooted s -> NoDup (map snd l) ->
  (forall c, In c l -> growable s (snd c)) ->
  let '(o, w') := forM_ l (commit gen) {| self := s; rand := r |} in
  o = Returned tt -> consistent (self w') /\ rooted (self w').
Proof.
  induction l as [|[p q] rest IH]; intros s r Hcons Hroot Hnd Hgrow; simpl.
  - auto.
  - unfold bind. unfold commit at 1. mrun. cbn [self].
    inversion Hnd as [|? ? Hq Hnd']; subst.
    destruct (exclude s (Vector p)).
    + apply IH; auto. intros c Hc. apply Hgrow. now right.
    + rewrite on_self_unfold.
      pose proof (Hgrow (p, q) (or_introl eq_refl)) as Hgq. cbn [snd] in Hgq.
      pose proof (addBranchPoint_consistent p q gen s Hcons Hgq) as Hadd.
      destruct (addBranchPoint p q gen s) as [[[]|e|] s1] eqn:Eadd; simpl;
        try discriminate.
      destruct Hadd as [_ Hc]. destruct (Hc eq_refl) as [Hcons1 Hkeep].
      apply IH; auto.
      * eapply addBranchPoint_rooted; [exact Hroot | | exact Eadd].
        destruct Hcons as (Hlen & _).
        pose proof (growable_range s q Hlen Hgq) as Hr.
        destruct Hroot as (_ & _ & Hc' & _). unfold len in *. lia.
      * intros c Hin. apply Hkeep.
        -- intros Heq. apply Hq. rewrite <- Heq. now apply in_map.
        -- apply Hgrow. now right.
Qed.

Lemma growBranches_rooted gen :
  hoare (fun w => consistent (self w) /\ rooted (self w)) (growBranches gen)
        (fun _ w => consistent (self w) /\ rooted (self w)) (fun _ => True).
Proof.
  intros [s r] [Hcons Hroot]. cbn [self] in Hcons, Hroot.
  rewrite growBranches_unfold.
  destruct (snapshot_candidates s (bis_of (epb s)) r) as [[l|e|] r'] eqn:E;
    try exact I.
  destruct (snapshot_candidates_parents _ _ _ _ _ E) as [Hsub _].
  assert (Hg : forall c, In c l -> growable s (snd c)).
  { intros c Hc.
    assert (Hin : In (snd c) (bis_of (epb s)))
      by (eapply subsequence_In; [exact Hsub | now apply in_map]).
    apply bis_of_spec in Hin as (Hin & Hn1 & Hn2).
    destruct Hcons as (_ & _ & Ht). rewrite Forall_forall in Ht.
    destruct (Ht _ Hin) as [?|[?|?]]; congruence || assumption. }
  pose proof (commit_loop_rooted gen l s r' Hcons Hroot
                (subsequence_NoDup _ _ Hsub (bis_of_NoDup _)) Hg) as Hloop.
  destruct (forM_ l (commit gen) {| self := s; rand := r' |})
    as [[[]|e|] w']; auto.
Qed.

Lemma addEndPoint_rooted p :
  hoare (fun s => consistent s /\ rooted s) (addEndPoint p)
        (fun _ s => consistent s /\ rooted s) (fun _ => True).
Proof.
  intros s [Hcons Hroot]. pose proof (addEndPoint_consistent p s Hcons) as Hc.
  rewrite addEndPoint_unfold in *.
  destruct (closestBranchPoint s p) as [[[bi v] d]| |]; auto.
Qed.

Lemma fresh_rooted a : rooted (fresh a).
Proof.
  unfold rooted. cbn [fresh bp bpp bpg bpc bpa].
  split; [reflexivity|]. split; [reflexivity|]. split; [reflexivity|].
  split; [reflexivity|]. split.
  - intros i q Hi. destruct i as [|[|i]]; cbn in Hi; discriminate.
  - intros i Hi. destruct i as [|[|i]]; cbn in Hi;
      [reflexivity | discriminate ..].
Qed.

(** X6.  The branch points form a tree rooted at index 0.  In a session
    whose engine is made without starting points and whose calls are
    [growBranches], [iterate] and [addEndPoint], when every call has
    returned the lists [bp], [bpp], [bpg], [bpc], [bpa] have an entry for
    each branch point, every parent index in [bpp] is smaller than the
    index of its child (so the walk up the parents always ends, at index
    0), and index 0 alone has no parent. *)
Theorem parents_precede_children (a : Args) (calls : list call) (p : Proc) :
  kw_startingpoints a = [] -> forallb grows calls = true ->
  match session a calls p with
  | (Returned _, p') => rooted (self_of p')
  | _ => True
  end.
Proof.
  intros Hsp Hcalls.
  pose (Inv := fun s : SCA => consistent s /\ rooted s).
  pose (Err := fun _ : SCA => True).
  assert (Hs : hoare (fun _ => True) (session a calls)
                 (fun _ q => Inv (self_of q)) (fun q => Err (self_of q))).
  { assert (Hres : forall s s', results_only s s' -> Inv s -> Inv s').
    { intros s s' (bs & es & ->) [Hc Hr]. split; [|exact Hr].
      eapply consistent_core; [|exact Hc]. reflexivity. }
    assert (Hvol : forall g s, Inv s -> Inv (set_volumepoint g s)).
    { intros g s [Hc Hr]. split; [|exact Hr].
      eapply consistent_core; [|exact Hc]. reflexivity. }
    assert (Hdecay : forall s, Inv s -> Inv (decay s)).
    { intros s [Hc Hr]. split.
      - eapply consistent_core; [apply decay_core | exact Hc].
      - destruct (decay_store s) as (H1 & H2 & H3 & H4 & H5 & _).
        unfold rooted. now rewrite H1, H2, H3, H4, H5. }
    apply (session_keeps Inv Err (fun _ _ => I) Hres (fun _ _ _ _ => I)
             Hvol Hdecay growBranches_rooted addEndPoint_rooted a calls
             Hsp Hcalls).
    split; [apply fresh_consistent | apply fresh_rooted]. }
  specialize (Hs p I).
  destruct (session a calls p) as [[u|e|] p']; [apply Hs | exact I ..].
Qed.

End Rooted.

(** ** direction *)

(** The sums of the complete triples of [v], from left to right, started
    at [acc]. *)
Fixpoint sum_triples (v : list float) (acc : vec3) : vec3 :=
  match v with
  | a :: b :: c :: rest =>
      let '(x, y, z) := acc in
      sum_triples rest ((x + a)%float, (y + b)%float, (z + c)%float)
  | _ => acc
  end.

Lemma getitem_app_at {A} (pre rest : list A) (j : nat) (a : A) :
  nth_error rest j = Some a ->
  getitem (pre ++ rest) (Z.of_nat (length pre + j)) = Returned a.
Proof.
  intros Hj. apply getitem_nth_error; [lia|].
  rewrite Nat2Z.id, nth_error_app2 by lia.
  now replace (length pre + j - length pre)%nat with j by lia.
Qed.

Lemma direction_sum_chunks (m : nat) :
  forall (pre rest : list float) (k : nat) (acc : vec3),
  length pre = (3 * k)%nat -> Z.of_nat m = len rest / 3 ->
  direction_sum (pre ++ rest) (map Z.of_nat (seq k m)) acc
  = Returned (sum_triples rest acc).
Proof.
  induction m as [|m IH]; intros pre rest k acc Hpre Hm.
  - cbn [seq map direction_sum].
    destruct rest as [|a [|b [|c rest]]]; try reflexivity.
    exfalso. unfold len in Hm. cbn [length] in Hm.
    assert (1 <= Z.of_nat (S (S (S (length rest)))) / 3)
      by (apply Z.div_le_lower_bound; lia).
    lia.
  - destruct rest as [|a [|b [|c rest]]];
      try (exfalso; unfold len in Hm; cbn [length] in Hm;
           cbn in Hm; lia).
    cbn [seq map direction_sum sum_triples]. destruct acc as [[x y] z].
    replace (Z.of_nat k * 3) with (Z.of_nat (length pre + 0)) by lia.
    replace (Z.of_nat (length pre + 0) + 1)
      with (Z.of_nat (length pre + 1)) by lia.
    replace (Z.of_nat (length pre + 0) + 2)
      with (Z.of_nat (length pre + 2)) by lia.
    rewrite (getitem_app_at pre (a :: b :: c :: rest) 0 a eq_refl),
      (getitem_app_at pre (a :: b :: c :: rest) 1 b eq_refl),
      (getitem_app_at pre (a :: b :: c :: rest) 2 c eq_refl).
    cbn [obind].
    replace (pre ++ a :: b :: c :: rest)
      with ((pre ++ [a; b; c]) ++ rest) by now rewrite <- app_assoc.
    apply IH.
    + rewrite length_app. cbn [length]. lia.
    + unfold len in *. cbn [length] in Hm.
      replace (Z.of_nat (S (S (S (length rest)))))
        with (1 * 3 + Z.of_nat (length rest)) in Hm by lia.
      rewrite Z.div_add_l in Hm by lia. lia.
Qed.

(** [direction], with its loop run to the end. *)
Lemma direction_sum_all (v : list float) :
  direction v =
  Returned (let '(x, y, z) := sum_triples v (0, 0, 0)%float in
            ((x, y, z), (x * x + y * y + z * z)%float)).
Proof.
  unfold direction, range.
  pose proof (direction_sum_chunks (Z.to_nat (len v / 3)) [] v 0
                (0, 0, 0)%float eq_refl) as Hs.
  cbn [app] in Hs. rewrite Hs.
  - cbn [obind]. now destruct (sum_triples v (0, 0, 0)%float) as [[x y] z].
  - rewrite Z2Nat.id; [reflexivity|].
    apply Z.div_pos; [apply len_nonneg | lia].
Qed.

(** X7.  [direction] never raises, whatever the list: it returns the sums of
    the first, second and third entries of the complete triples, added from
    left to right starting at 0, and the sum of their squares; one or two
    entries left over at the end are ignored, and a list with no complete
    triple gives the zero vector and 0. *)
Theorem direction_sums (v : list float) :
  direction v =
  Returned (let '(x, y, z) := sum_triples v (0, 0, 0)%float in
            ((x, y, z), (x * x + y * y + z * z)%float)).
Proof. apply direction_sum_all. Qed.

(** ** growBranches: when nothing grows, and when it divides by zero *)

Section Growth.
Context {H : Host}.

Lemma bis_of_nil l :
  Forall (fun b => b = -1 \/ b = -2) l -> bis_of l = [].
Proof.
  intros Hl. destruct (bis_of l) as [|b rest] eqn:E; [reflexivity|].
  assert (Hin : In b (bis_of l)) by (rewrite E; now left).
  apply bis_of_spec in Hin as (Hin & Hn1 & Hn2).
  rewrite Forall_forall in Hl. destruct (Hl b Hin); congruence.
Qed.

(** X8.  When no endpoint is tied to a branch point (there is none, or each
    is dead or out of range), [growBranches] returns at once: nothing is
    added, nothing is changed and no random number is drawn. *)
Theorem growBranches_idle (gen : Z) (w : St) :
  Forall (fun b => b = -1 \/ b = -2) (epb (self w)) ->
  growBranches gen w = (Returned tt, w).
Proof.
  intros Hl. destruct w as [s r]. cbn [self] in Hl.
  rewrite growBranches_unfold, (bis_of_nil _ Hl). reflexivity.
Qed.

Lemma gather_epvs_returns epb_ bpi items :
  (forall epi c, In (epi, c) items -> 0 <= epi < len epb_) ->
  exists l, gather_epvs epb_ bpi items = Returned l.
Proof.
  induction items as [|[epi [[c0 c1] c2]] rest IH]; intros Hin.
  - now exists [].
  - cbn [gather_epvs].
    destruct (getitem_total epb_ epi (Hin epi _ (or_introl eq_refl)))
      as [b Hb].
    rewrite Hb. cbn [obind].
    destruct IH as [l Hl]; [intros e c Hc; eapply Hin; right; exact Hc|].
    rewrite Hl. cbn [obind]. eauto.
Qed.

Lemma gather_epvs_store s bpi :
  (length (epv s) <= length (epb s))%nat ->
  exists l, gather_epvs (epb s) bpi (enumerate (epv s)) = Returned l.
Proof.
  intros Hlen. apply gather_epvs_returns. intros epi c Hin.
  apply in_enumerate in Hin as [Hpos Hnth].
  assert (Z.to_nat epi < length (epv s))%nat
    by (apply nth_error_Some; congruence).
  unfold len. lia.
Qed.

Lemma new_position_zero_step s bpi :
  (length (epv s) <= length (epb s))%nat -> is_zero (branchlength s) ->
  new_position s bpi = Raised ZeroDivisionError.
Proof.
  intros Hlen Hz. unfold new_position.
  destruct (gather_epvs_store s bpi Hlen) as [l ->]. cbn [obind].
  rewrite direction_sum_all. cbn [obind].
  destruct (sum_triples l (0, 0, 0)%float) as [[x y] z].
  rewrite math_sqrt_sumsq. cbn [obind]. unfold truediv at 1.
  unfold is_zero in Hz. now rewrite Hz.
Qed.

Lemma shootSupressed_off af s r :
  (apicalcontrol s <=? 0)%float = true ->
  shootSupressed af {| self := s; rand := r |}
  = (Returned false, {| self := s; rand := r |}).
Proof. intros Ha. unfold shootSupressed. mrun. cbn [self]. now rewrite Ha. Qed.

(** X9.  A step length of zero makes [growBranches] divide by zero.  With
    [self.branchlength] zero and apical control off, once some endpoint
    is tied to a branch point the call raises ZeroDivisionError, before
    anything is added: the store and the state of [random] are as
    before. *)
Theorem growBranches_zero_step (gen : Z) (s : SCA) (r : rng) :
  is_zero (branchlength s) -> (apicalcontrol s <=? 0)%float = true ->
  (length (epv s) <= length (epb s))%nat ->
  (exists b, In b (epb s) /\ b <> -1 /\ b <> -2) ->
  (forall b, In b (epb s) -> b <> -1 -> b <> -2 -> 0 <= b < len (bpa s)) ->
  growBranches gen {| self := s; rand := r |}
  = (Raised ZeroDivisionError, {| self := s; rand := r |}).
Proof.
  intros Hz Ha Hlen (b & Hb & Hn1 & Hn2) Hrange.
  rewrite growBranches_unfold.
  destruct (bis_of (epb s)) as [|b0 rest] eqn:E.
  - assert (Hin : In b (bis_of (epb s))) by (apply bis_of_spec; auto).
    rewrite E in Hin. destruct Hin.
  - assert (Hin : In b0 (bis_of (epb s))) by (rewrite E; now left).
    apply bis_of_spec in Hin as (Hin & H1 & H2).
    cbn [snapshot_candidates].
    destruct (getitem_total (bpa s) b0 (Hrange b0 Hin H1 H2)) as [a ->].
    rewrite (shootSupressed_off _ s r Ha).
    now rewrite (new_position_zero_step s b0 Hlen Hz).
Qed.

(** A zero divided by a number that is neither zero nor a NaN is a zero. *)
Lemma zero_div (z d : float) :
  is_zero z -> ordered d -> ~ is_zero d -> is_zero (z / d).
Proof.
  intros Hz Hd Hnz. apply is_zero_sf in Hz. rewrite is_zero_sf in Hnz.
  apply is_zero_sf. rewrite div_spec. unfold ordered in Hd.
  unfold SF64div, SFdiv.
  destruct (Prim2SF z) as [sz|sz| |sz mz ez]; cbn in Hz; try tauto.
  destruct (Prim2SF d) as [sd|sd| |sd md ed]; cbn in *; tauto.
Qed.

(** X10.  Directions that cancel make [growBranches] divide by zero.  When
    the directions of the endpoints tied to branch point [bpi] sum to a
    vector whose squared length computes to zero (two endpoints on
    opposite sides, say), the position grown from [bpi] is not computed:
    with a step length that is a number and not zero, the division by
    [d = sqrt(d2) / self.branchlength] raises ZeroDivisionError. *)
Theorem new_position_cancelled (s : SCA) (bpi : Z) (epvs : list float) :
  gather_epvs (epb s) bpi (enumerate (epv s)) = Returned epvs ->
  (let '(x, y, z) := sum_triples epvs (0, 0, 0)%float in
   is_zero (x * x + y * y + z * z)) ->
  ordered (branchlength s) -> ~ is_zero (branchlength s) ->
  new_position s bpi = Raised ZeroDivisionError.
Proof.
  intros Hg Hsum Hord Hnz. unfold new_position. rewrite Hg. cbn [obind].
  rewrite direction_sum_all. cbn [obind].
  destruct (sum_triples epvs (0, 0, 0)%float) as [[x y] z].
  rewrite math_sqrt_sumsq. cbn [obind].
  assert (Hbl : (branchlength s =? 0)%float = false)
    by (unfold is_zero in Hnz; destruct (branchlength s =? 0)%float; congruence).
  unfold truediv at 1. rewrite Hbl. cbn [obind].
  pose proof (zero_div _ _ (is_zero_sqrt _ Hsum) Hord Hnz) as Hd.
  unfold is_zero in Hd. unfold truediv at 1. now rewrite Hd.
Qed.

End Growth.

(** ** The result lists of iterate *)

(** A loop over [range(n)] whose invariant counts the rounds done. *)
Lemma hoare_forM_range {S} (I : nat -> S -> Prop) (E : S -> Prop) (n : nat)
  (body : Z -> M S unit) :
  (forall k, (k < n)%nat ->
     hoare (I k) (body (Z.of_nat k)) (fun _ => I (Datatypes.S k)) E) ->
  hoare (I O) (forM_ (range (Z.of_nat n)) body) (fun _ => I n) E.
Proof.
  unfold range. rewrite Nat2Z.id. intros Hbody.
  assert (Hgen : forall m j, (j + m = n)%nat ->
    hoare (I j) (forM_ (map Z.of_nat (seq j m)) body) (fun _ => I n) E).
  { induction m as [|m IH]; intros j Hj; cbn [seq map forM_].
    - apply hoare_ret. intros w Hw. now replace n with j by lia.
    - eapply hoare_bind; [apply Hbody; lia|].
      intros u. apply IH. lia. }
  apply (Hgen n O). lia.
Qed.

Lemma getitem_nat {A} (l : list A) (k : nat) (d : A) :
  (k < length l)%nat -> getitem l (Z.of_nat k) = Returned (nth k l d).
Proof.
  intros Hk. apply getitem_nth_error; [lia|]. rewrite Nat2Z.id.
  now apply nth_error_nth'.
Qed.

Section Results.
Context {H : Host}.

(** The process [p] with [L] for [self.branchpoints] and [c] for
    [Branchpoint.count]. *)
Definition with_results (L : list Branchpoint.t) (c : Z) (p : Proc) : Proc :=
  {| st := {| self := set_branchpoints L (self_of p); rand := rand (st p) |};
     Branchpoint_count := c; wall := wall p; now := now p |}.

(** The record that [Branchpoint(bp, bpp, gen)] makes for branch point [k]
    when the counter is at [c]. *)
Definition blank (s : SCA) (c : Z) (k : nat) : Branchpoint.t :=
  {| Branchpoint.v :=
       Vector (nth (3 * k) (bp s) 0%float, nth (3 * k + 1) (bp s) 0%float,
               nth (3 * k + 2) (bp s) 0%float);
     Branchpoint.parent := nth k (bpp s) None;
     Branchpoint.connections := 1;
     Branchpoint.generation := nth k (bpg s) 0;
     Branchpoint.apex := None;
     Branchpoint.shoot := None;
     Branchpoint.index := c + 1 |}.

(** What the loop body does to the list when the parent is [pidx]. *)
Definition link (L : list Branchpoint.t) (pidx : Z)
  : outcome (list Branchpoint.t) :=
  (par <~ getitem L pidx ;;
   match Branchpoint.apex par with
   | None =>
       setitem L pidx (Branchpoint.set_apex (Nat.pred (length L)) par)
   | Some _ =>
       setitem L pidx (Branchpoint.set_shoot (Nat.pred (length L)) par)
   end)%outcome.

Lemma materialize_step p L c (k : nat) :
  (3 * k + 2 < length (bp (self_of p)))%nat ->
  (k < length (bpp (self_of p)))%nat -> (k < length (bpg (self_of p)))%nat ->
  materialize (Z.of_nat k) (with_results L c p) =
  match nth k (bpp (self_of p)) None with
  | None =>
      (Returned tt, with_results (L ++ [blank (self_of p) c k]) (c + 1) p)
  | Some pidx =>
      match link (L ++ [blank (self_of p) c k]) pidx with
      | Returned L' => (Returned tt, with_results L' (c + 1) p)
      | Raised e =>
          (Raised e, with_results (L ++ [blank (self_of p) c k]) (c + 1) p)
      | Diverged =>
          (Diverged, with_results (L ++ [blank (self_of p) c k]) (c + 1) p)
      end
  end.
Proof.
  intros Hbp Hbpp Hbpg. unfold materialize.
  rewrite (bind_unfold get). cbn [get].
  cbn [self_of with_results st self bp bpp bpg set_branchpoints].
  fold (self_of p).
  rewrite !getitem_nth by (unfold len; lia).
  rewrite (getitem_nat _ k None Hbpp), (getitem_nat _ k 0 Hbpg).
  replace (Z.to_nat (Z.of_nat k * 3)) with (3 * k)%nat by lia.
  replace (Z.to_nat (Z.of_nat k * 3 + 1)) with (3 * k + 1)%nat by lia.
  replace (Z.to_nat (Z.of_nat k * 3 + 2)) with (3 * k + 2)%nat by lia.
  mrun. unfold new_Branchpoint, update_branchpoints, on_st, on_self, zoom.
  mrun.
  cbn [with_results st self rand Branchpoint_count wall now set_st set_self
       self_of branchpoints set_branchpoints].
  fold (self_of p). fold (blank (self_of p) c k).
  destruct (nth k (bpp (self_of p)) None) as [pidx|]; [|reflexivity].
  unfold link.
  change (branchpoints (self_of (set_st (set_self
            (set_branchpoints (L ++ [blank (self_of p) c k])
               (set_branchpoints L (self_of p)))
            {| self := set_branchpoints L (self_of p); rand := rand (st p) |})
            {| st := {| self := set_branchpoints L (self_of p);
                        rand := rand (st p) |};
               Branchpoint_count := c + 1; wall := wall p; now := now p |})))
    with (L ++ [blank (self_of p) c k]).
  destruct (getitem (L ++ [blank (self_of p) c k]) pidx) as [par| |];
    cbn [obind]; try reflexivity.
  destruct (Branchpoint.apex par);
    match goal with
    | |- context [setitem ?l ?i ?a] => destruct (setitem l i a)
    end; reflexivity.
Qed.

End Results.

(** *** The records, read off the store *)

(** In the list [parents] of parent indices, branch point [i] has [k] for
    parent. *)
Definition is_child (parents : list (option Z)) (k i : nat) : bool :=
  match nth i parents None with
  | Some q => q =? Z.of_nat k
  | None => false
  end.

(** The children of [k] among the first [m] branch points, in order. *)
Definition children (parents : list (option Z)) (k m : nat) : list nat :=
  filter (is_child parents k) (seq 0 m).

(** The last of two children or more. *)
Definition later (l : list nat) : option nat :=
  match l with
  | _ :: (_ :: _) as t => Some (last t O)
  | _ => None
  end.

Lemma nth_parent (parents : list (option Z)) i q :
  nth i parents None = Some q -> nth_error parents i = Some (Some q).
Proof.
  intros Hi. destruct (Nat.lt_ge_cases i (length parents)) as [Hlt|Hge].
  - rewrite (nth_error_nth' _ None Hlt). now rewrite Hi.
  - rewrite nth_overflow in Hi by exact Hge. discriminate.
Qed.

Section Records.
Context {H : Host}.
Variables (s : SCA) (c0 : Z).

(** The record of branch point [k] once the first [m] branch points have
    been materialized: its apex is its first child among them and its shoot
    the last of the others. *)
Definition record_at (m k : nat) : Branchpoint.t :=
  {| Branchpoint.v :=
       Vector (nth (3 * k) (bp s) 0%float, nth (3 * k + 1) (bp s) 0%float,
               nth (3 * k + 2) (bp s) 0%float);
     Branchpoint.parent := nth k (bpp s) None;
     Branchpoint.connections := 1;
     Branchpoint.generation := nth k (bpg s) 0;
     Branchpoint.apex := hd_error (children (bpp s) k m);
     Branchpoint.shoot := later (children (bpp s) k m);
     Branchpoint.index := c0 + Z.of_nat k + 1 |}.

Definition made (m : nat) : list Branchpoint.t := map (record_at m) (seq 0 m).

Hypothesis Hord :
  forall i q, nth_error (bpp s) i = Some (Some q) -> 0 <= q < Z.of_nat i.

Lemma is_child_order k i : is_child (bpp s) k i = true -> (k < i)%nat.
Proof.
  unfold is_child. destruct (nth i (bpp s) None) as [q|] eqn:E;
    [|discriminate].
  intros Hq. apply Z.eqb_eq in Hq. apply nth_parent, Hord in E. lia.
Qed.

Lemma children_S k m :
  children (bpp s) k (S m)
  = children (bpp s) k m ++ (if is_child (bpp s) k m then [m] else []).
Proof.
  unfold children. rewrite seq_S, filter_app. cbn [filter Nat.add].
  now destruct (is_child (bpp s) k m).
Qed.

Lemma children_nil k m : (m <= S k)%nat -> children (bpp s) k m = [].
Proof.
  intros Hm. unfold children.
  induction m as [|m IH]; [reflexivity|].
  rewrite seq_S, filter_app, IH by lia. cbn [filter Nat.add app].
  destruct (is_child (bpp s) k m) eqn:E; [|reflexivity].
  apply is_child_order in E. lia.
Qed.

Lemma length_made m : length (made m) = m.
Proof. unfold made. now rewrite length_map, length_seq. Qed.

Lemma nth_error_made m j :
  nth_error (made m) j = if (j <? m)%nat then Some (record_at m j) else None.
Proof.
  unfold made. rewrite nth_error_map, nth_error_seq.
  now destruct (j <? m)%nat.
Qed.

Lemma record_at_S m k :
  is_child (bpp s) k m = false -> record_at (S m) k = record_at m k.
Proof.
  intros Hk. unfold record_at. rewrite children_S, Hk, app_nil_r. reflexivity.
Qed.

Lemma record_at_self m : record_at (S m) m = blank s (c0 + Z.of_nat m) m.
Proof.
  unfold record_at, blank. rewrite children_nil by lia. reflexivity.
Qed.

Lemma made_S_none m :
  nth m (bpp s) None = None ->
  made (S m) = made m ++ [blank s (c0 + Z.of_nat m) m].
Proof.
  intros Hm. apply nth_error_ext. intros j.
  rewrite nth_error_made.
  destruct (Nat.ltb_spec j (S m)) as [Hlt|Hge].
  - destruct (Nat.eq_dec j m) as [->|Hne].
    + rewrite nth_error_app2 by (rewrite length_made; lia).
      rewrite length_made, Nat.sub_diag. cbn [nth_error].
      now rewrite record_at_self.
    + rewrite nth_error_app1 by (rewrite length_made; lia).
      rewrite nth_error_made.
      destruct (Nat.ltb_spec j m); [|lia].
      rewrite record_at_S; [reflexivity|]. unfold is_child. now rewrite Hm.
  - symmetry. apply nth_error_None. rewrite length_app, length_made.
    cbn [length]. lia.
Qed.

Lemma later_snoc a t m : later ((a :: t) ++ [m]) = Some m.
Proof.
  cbn [app later]. destruct t as [|b t]; [reflexivity|].
  cbn [app]. f_equal.
  change (b :: t ++ [m]) with ((b :: t) ++ [m]). apply last_last.
Qed.

Lemma made_S_some m pidx :
  nth m (bpp s) None = Some pidx ->
  link (made m ++ [blank s (c0 + Z.of_nat m) m]) pidx = Returned (made (S m)).
Proof.
  intros Hm. pose proof (Hord m pidx (nth_parent _ m pidx Hm)) as Hp.
  set (q := Z.to_nat pidx).
  assert (Hq : pidx = Z.of_nat q) by (unfold q; lia).
  assert (Hqm : (q < m)%nat) by lia.
  assert (Hget : nth_error (made m ++ [blank s (c0 + Z.of_nat m) m]) q
                 = Some (record_at m q)).
  { rewrite nth_error_app1 by (rewrite length_made; lia).
    rewrite nth_error_made. now destruct (Nat.ltb_spec q m); [|lia]. }
  assert (Hchild : is_child (bpp s) q m = true)
    by (unfold is_child; rewrite Hm; apply Z.eqb_eq; exact Hq).
  assert (Hlen : Nat.pred (length (made m ++ [blank s (c0 + Z.of_nat m) m]))
                 = m)
    by (rewrite length_app, length_made; cbn [length]; lia).
  unfold link. rewrite Hq.
  rewrite (getitem_nth_error _ (Z.of_nat q) _ ltac:(lia)
             ltac:(rewrite Nat2Z.id; exact Hget)).
  cbn [obind]. rewrite Hlen.
  assert (Hnew :
    (match Branchpoint.apex (record_at m q) with
     | Some _ => Branchpoint.set_shoot m (record_at m q)
     | None => Branchpoint.set_apex m (record_at m q)
     end) = record_at (S m) q).
  { unfold record_at at 1. cbn [Branchpoint.apex].
    unfold record_at, Branchpoint.set_shoot, Branchpoint.set_apex.
    cbn [Branchpoint.v Branchpoint.parent Branchpoint.connections
         Branchpoint.generation Branchpoint.apex Branchpoint.shoot
         Branchpoint.index].
    rewrite children_S, Hchild.
    destruct (children (bpp s) q m) as [|a t].
    - reflexivity.
    - rewrite later_snoc. reflexivity. }
  assert (Hset : forall new,
    new = record_at (S m) q ->
    setitem (made m ++ [blank s (c0 + Z.of_nat m) m]) (Z.of_nat q) new
    = Returned (made (S m))).
  { intros new ->. rewrite (setitem_nat _ q _ _ Hget). f_equal.
    apply nth_error_ext. intros j.
    rewrite nth_error_replace_nth, nth_error_made.
    destruct (Nat.eqb_spec j q) as [->|Hne].
    - destruct (Nat.ltb_spec q (length (made m ++ [blank s (c0 + Z.of_nat m) m])));
        [|rewrite length_app, length_made in *; cbn [length] in *; lia].
      now destruct (Nat.ltb_spec q (S m)); [|lia].
    - destruct (Nat.ltb_spec j (S m)) as [Hlt|Hge].
      + destruct (Nat.eq_dec j m) as [->|Hjm].
        * rewrite nth_error_app2 by (rewrite length_made; lia).
          rewrite length_made, Nat.sub_diag. cbn [nth_error].
          now rewrite record_at_self.
        * rewrite nth_error_app1 by (rewrite length_made; lia).
          rewrite nth_error_made. destruct (Nat.ltb_spec j m); [|lia].
          rewrite record_at_S; [reflexivity|].
          unfold is_child. rewrite Hm. apply Z.eqb_neq. lia.
      + apply nth_error_None. rewrite length_app, length_made.
        cbn [length]. lia. }
  destruct (Branchpoint.apex (record_at m q)); apply Hset; exact Hnew.
Qed.

End Records.

(** *** The walk that counts the connections *)

(** [b] with [z] more connections. *)
Definition add_connections (z : Z) (b : Branchpoint.t) : Branchpoint.t :=
  {| Branchpoint.v := Branchpoint.v b;
     Branchpoint.parent := Branchpoint.parent b;
     Branchpoint.connections := Branchpoint.connections b + z;
     Branchpoint.generation := Branchpoint.generation b;
     Branchpoint.apex := Branchpoint.apex b;
     Branchpoint.shoot := Branchpoint.shoot b;
     Branchpoint.index := Branchpoint.index b |}.

(** One more connection for each position of [qs], in turn. *)
Definition bump (L : list Branchpoint.t) (qs : list nat) : list Branchpoint.t :=
  fold_left
    (fun l q =>
       match nth_error l q with
       | Some b => replace_nth l q (Branchpoint.incr_connections b)
       | None => l
       end) qs L.

Lemma add_connections_0 b : add_connections 0 b = b.
Proof. destruct b. unfold add_connections. cbn. now rewrite Z.add_0_r. Qed.

Lemma add_connections_incr z b :
  add_connections z (Branchpoint.incr_connections b) = add_connections (1 + z) b.
Proof.
  unfold add_connections, Branchpoint.incr_connections.
  cbn [Branchpoint.v Branchpoint.parent Branchpoint.connections
       Branchpoint.generation Branchpoint.apex Branchpoint.shoot
       Branchpoint.index].
  f_equal. lia.
Qed.

Lemma length_bump L qs : length (bump L qs) = length L.
Proof.
  revert L. induction qs as [|q qs IH]; intros L; [reflexivity|].
  cbn [bump fold_left]. fold (bump (match nth_error L q with
    | Some b => replace_nth L q (Branchpoint.incr_connections b)
    | None => L end) qs).
  rewrite IH. destruct (nth_error L q); [apply replace_nth_length | reflexivity].
Qed.

Lemma nth_error_bump L qs k :
  nth_error (bump L qs) k =
  option_map (add_connections (Z.of_nat (count_occ Nat.eq_dec qs k)))
    (nth_error L k).
Proof.
  revert L. induction qs as [|q qs IH]; intros L.
  - cbn. destruct (nth_error L k); cbn; [now rewrite add_connections_0 | reflexivity].
  - cbn [bump fold_left]. fold (bump (match nth_error L q with
      | Some b => replace_nth L q (Branchpoint.incr_connections b)
      | None => L end) qs).
    rewrite IH. cbn [count_occ].
    destruct (nth_error L q) as [b|] eqn:Eq.
    + rewrite nth_error_replace_nth.
      destruct (Nat.eqb_spec k q) as [->|Hne].
      * destruct (Nat.ltb_spec q (length L)) as [_|Hge];
          [|apply nth_error_None in Hge; congruence].
        rewrite Eq. destruct (Nat.eq_dec q q); [|congruence]. cbn [option_map].
        rewrite add_connections_incr. do 2 f_equal. lia.
      * destruct (Nat.eq_dec q k); [congruence | reflexivity].
    + destruct (Nat.eq_dec q k) as [->|Hne]; [|reflexivity].
      rewrite Eq. reflexivity.
Qed.

Section Tally.
Context {H : Host}.
Variable parents : list (option Z).
Hypothesis Hord :
  forall i q, nth_error parents i = Some (Some q) -> 0 <= q < Z.of_nat i.

(** The parent of [i], the parent's parent, and so on, for at most [fuel]
    steps. *)
Fixpoint ancestors (fuel : nat) (i : nat) : list nat :=
  match fuel with
  | O => []
  | S f =>
      match nth i parents None with
      | Some q => Z.to_nat q :: ancestors f (Z.to_nat q)
      | None => []
      end
  end.

Lemma ancestors_fuel f :
  forall g i, (i <= f)%nat -> (i <= g)%nat -> ancestors f i = ancestors g i.
Proof.
  induction f as [|f IH]; intros g i Hf Hg.
  - assert (i = O) by lia. subst i. destruct g as [|g]; [reflexivity|].
    cbn [ancestors]. destruct (nth 0 parents None) as [q|] eqn:E;
      [|reflexivity].
    apply nth_parent in E. apply Hord in E. lia.
  - destruct g as [|g].
    + assert (i = O) by lia. subst i. cbn [ancestors].
      destruct (nth 0 parents None) as [q|] eqn:E; [|reflexivity].
      apply nth_parent in E. apply Hord in E. lia.
    + cbn [ancestors]. destruct (nth i parents None) as [q|] eqn:E;
        [|reflexivity].
      apply nth_parent in E. apply Hord in E.
      f_equal. apply IH; lia.
Qed.

Lemma ancestors_lt f : forall i k, In k (ancestors f i) -> (k < i)%nat.
Proof.
  induction f as [|f IH]; intros i k; cbn [ancestors]; [intros []|].
  destruct (nth i parents None) as [q|] eqn:E; [|intros []].
  apply nth_parent in E. apply Hord in E.
  intros [<-|Hin]; [lia|]. apply IH in Hin. lia.
Qed.

Lemma ancestors_NoDup f : forall i, NoDup (ancestors f i).
Proof.
  induction f as [|f IH]; intros i; cbn [ancestors]; [constructor|].
  destruct (nth i parents None) as [q|]; [|constructor].
  constructor; [|apply IH]. intros Hin. apply ancestors_lt in Hin. lia.
Qed.

(** The lists the walk works on: one record per branch point, each with
    the parent that the store gives it. *)
Definition mirrors (L : list Branchpoint.t) : Prop :=
  length L = length parents /\
  forall k b, nth_error L k = Some b ->
              Branchpoint.parent b = nth k parents None.

Lemma mirrors_bump L qs : mirrors L -> mirrors (bump L qs).
Proof.
  intros [Hlen Hpar]. split; [now rewrite length_bump|].
  intros k b Hk. rewrite nth_error_bump in Hk.
  destruct (nth_error L k) as [b0|] eqn:E; [|discriminate].
  injection Hk as <-. cbn. eauto.
Qed.

Lemma count_up_bump p :
  forall fuel i cur L c,
  (i < fuel)%nat -> (i < length L)%nat -> mirrors L ->
  Branchpoint.parent cur = nth i parents None ->
  count_up fuel cur (with_results L c p)
  = (Returned tt, with_results (bump L (ancestors i i)) c p).
Proof.
  induction fuel as [|fuel IH]; intros i cur L c Hf Hi Hm Hcur;
    [lia|].
  cbn [count_up]. rewrite Hcur.
  destruct i as [|i'].
  { destruct (nth 0 parents None) as [q|] eqn:E; [|reflexivity].
    apply nth_parent in E. apply Hord in E. lia. }
  cbn [ancestors].
  destruct (nth (S i') parents None) as [q|] eqn:E; [|reflexivity].
  pose proof (Hord _ _ (nth_parent _ _ _ E)) as Hq.
  set (q' := Z.to_nat q).
  assert (Hqq : q = Z.of_nat q') by (unfold q'; lia).
  assert (Hq' : (q' < S i')%nat) by lia.
  destruct (nth_error L q') as [par|] eqn:Epar;
    [|apply nth_error_None in Epar; lia].
  rewrite (bind_unfold get). cbn [get].
  change (branchpoints (self_of (with_results L c p))) with L.
  rewrite Hqq.
  rewrite (getitem_nth_error L (Z.of_nat q') par ltac:(lia)
             ltac:(rewrite Nat2Z.id; exact Epar)).
  rewrite (bind_unfold (liftO _)). cbn [liftO].
  rewrite (setitem_nat L q' _ par Epar).
  rewrite (bind_unfold (liftO _)). cbn [liftO].
  rewrite (bind_unfold (update_branchpoints _)).
  change (update_branchpoints
            (fun _ => replace_nth L q' (Branchpoint.incr_connections par))
            (with_results L c p))
    with (Returned tt,
          with_results (replace_nth L q' (Branchpoint.incr_connections par))
            c p).
  cbv iota beta.
  rewrite (IH q' (Branchpoint.incr_connections par)
             (replace_nth L q' (Branchpoint.incr_connections par)) c).
  - cbn [bump fold_left]. rewrite Epar.
    rewrite (ancestors_fuel i' q' q') by lia. reflexivity.
  - lia.
  - rewrite replace_nth_length. lia.
  - destruct Hm as [Hlen Hpar]. split; [now rewrite replace_nth_length|].
    intros k b. rewrite nth_error_replace_nth.
    destruct (Nat.eqb_spec k q') as [->|Hne]; [|apply Hpar].
    destruct (q' <? length L)%nat; [|discriminate].
    intros [= <-]. cbn. now apply Hpar.
  - cbn. destruct Hm as [_ Hpar]. now apply Hpar.
Qed.

Lemma count_connections_bump p L c (j : nat) :
  (j < length L)%nat -> mirrors L ->
  count_connections (Z.of_nat j) (with_results L c p)
  = (Returned tt, with_results (bump L (ancestors j j)) c p).
Proof.
  intros Hj Hm. unfold count_connections.
  rewrite (bind_unfold get). cbn [get].
  change (branchpoints (self_of (with_results L c p))) with L.
  destruct (nth_error L j) as [b|] eqn:Eb;
    [|apply nth_error_None in Eb; lia].
  rewrite (getitem_nth_error L (Z.of_nat j) b ltac:(lia)
             ltac:(rewrite Nat2Z.id; exact Eb)).
  rewrite (bind_unfold (liftO _)). cbn [liftO].
  apply (count_up_bump p); [lia | exact Hj | exact Hm|].
  destruct Hm as [_ Hpar]. now apply Hpar.
Qed.

(** The list after the walks from the first [j] branch points. *)
Fixpoint tally (L : list Branchpoint.t) (j : nat) : list Branchpoint.t :=
  match j with
  | O => L
  | S j' => bump (tally L j') (ancestors j' j')
  end.

Lemma mirrors_tally L j : mirrors L -> mirrors (tally L j).
Proof.
  intros Hm. induction j as [|j IH]; [exact Hm|]. cbn [tally].
  now apply mirrors_bump.
Qed.

Lemma count_connections_loop p L c :
  mirrors L ->
  forall m j, (j + m = length L)%nat ->
  forM_ (map Z.of_nat (seq j m)) count_connections
    (with_results (tally L j) c p)
  = (Returned tt, with_results (tally L (length L)) c p).
Proof.
  intros Hm. induction m as [|m IH]; intros j Hj.
  - cbn [seq map forM_ ret]. now replace j with (length L) by lia.
  - cbn [seq map]. rewrite forM_cons.
    rewrite (count_connections_bump p (tally L j) c j).
    + apply (IH (S j)). lia.
    + destruct (mirrors_tally L j Hm) as [Hlen _]. destruct Hm as [HL _]. lia.
    + now apply mirrors_tally.
Qed.

(** The branch points below [k]: those that meet [k] on their way up. *)
Definition below (k i : nat) : bool := existsb (Nat.eqb k) (ancestors i i).

Definition descendants (k : nat) : nat :=
  length (filter (below k) (seq 0 (length parents))).

Lemma count_occ_below k i :
  count_occ Nat.eq_dec (ancestors i i) k = if below k i then 1%nat else 0%nat.
Proof.
  unfold below. pose proof (ancestors_NoDup i i) as Hnd.
  induction (ancestors i i) as [|a l IH]; [reflexivity|].
  inversion Hnd as [|? ? Ha Hl]; subst. cbn [count_occ existsb].
  destruct (Nat.eq_dec a k) as [->|Hne].
  - rewrite Nat.eqb_refl. cbn [orb].
    rewrite (proj1 (count_occ_not_In Nat.eq_dec l k) Ha). reflexivity.
  - destruct (Nat.eqb_spec k a); [congruence|]. cbn [orb]. now apply IH.
Qed.

Lemma nth_error_tally L j k :
  nth_error (tally L j) k =
  option_map
    (add_connections (Z.of_nat (length (filter (below k) (seq 0 j)))))
    (nth_error L k).
Proof.
  induction j as [|j IH].
  - cbn. destruct (nth_error L k); cbn;
      [now rewrite add_connections_0 | reflexivity].
  - cbn [tally]. rewrite nth_error_bump, IH, seq_S, filter_app, length_app.
    cbn [filter Nat.add]. rewrite count_occ_below.
    destruct (nth_error L k) as [b|]; [|reflexivity]. cbn [option_map].
    f_equal. unfold add_connections. cbn. f_equal.
    destruct (below k j); cbn [length]; lia.
Qed.

End Tally.

(** *** The two loops that fill [self.branchpoints] *)

Section Filled.
Context {H : Host}.

Lemma materialize_loop p c0 :
  rooted (self_of p) ->
  forall m j, (j + m = length (bpp (self_of p)))%nat ->
  forM_ (map Z.of_nat (seq j m)) materialize
    (with_results (made (self_of p) c0 j) (c0 + Z.of_nat j) p)
  = (Returned tt,
     with_results (made (self_of p) c0 (length (bpp (self_of p))))
       (c0 + Z.of_nat (length (bpp (self_of p)))) p).
Proof.
  intros (Hbp & Hg & _ & _ & Hord & _).
  induction m as [|m IH]; intros j Hj.
  - cbn [seq map forM_ ret].
    now replace j with (length (bpp (self_of p))) by lia.
  - cbn [seq map]. rewrite forM_cons.
    rewrite materialize_step by (unfold len in Hbp; lia).
    replace (c0 + Z.of_nat j + 1) with (c0 + Z.of_nat (S j)) by lia.
    destruct (nth j (bpp (self_of p)) None) as [pidx|] eqn:E.
    + rewrite (made_S_some (self_of p) c0 Hord j pidx E).
      apply (IH (S j)). lia.
    + rewrite <- (made_S_none (self_of p) c0 Hord j E).
      apply (IH (S j)). lia.
Qed.

(** The records that [iterate] leaves for a store [s] when the counter was
    at [c0]. *)
Definition records (s : SCA) (c0 : Z) : list Branchpoint.t :=
  tally (bpp s) (made s c0 (length (bpp s))) (length (bpp s)).

(** The process after the result lists are filled. *)
Definition filled (p : Proc) : Proc :=
  {| st := {| self := set_endpoints (map Vector (ep (self_of p)))
                        (set_branchpoints
                           (records (self_of p) (Branchpoint_count p))
                           (self_of p));
              rand := rand (st p) |};
     Branchpoint_count :=
       Branchpoint_count p + Z.of_nat (length (bpp (self_of p)));
     wall := wall p; now := now p |}.

Lemma mirrors_made s c0 :
  mirrors (bpp s) (made s c0 (length (bpp s))).
Proof.
  split; [apply length_made|]. intros k b Hk.
  rewrite nth_error_made in Hk.
  destruct (k <? length (bpp s))%nat; [|discriminate].
  now injection Hk as <-.
Qed.

Lemma fill_results_filled p :
  rooted (self_of p) -> fill_results p = (Returned tt, filled p).
Proof.
  intros Hroot. pose proof Hroot as (Hbp & Hg & _ & _ & Hord & _).
  unfold fill_results.
  rewrite (bind_unfold (update_branchpoints _)).
  change (update_branchpoints (fun _ => []) p)
    with (Returned tt, with_results [] (Branchpoint_count p) p).
  cbv iota beta. rewrite (bind_unfold get). cbn [get].
  change (bp (self_of (with_results [] (Branchpoint_count p) p)))
    with (bp (self_of p)).
  assert (Hn : len (bp (self_of p)) / 3 = Z.of_nat (length (bpp (self_of p)))).
  { rewrite Hbp. unfold len.
    replace (3 * Z.of_nat (length (bpp (self_of p))))
      with (Z.of_nat (length (bpp (self_of p))) * 3) by lia.
    now rewrite Z.div_mul by lia. }
  rewrite Hn. unfold range at 1. rewrite Nat2Z.id.
  rewrite (bind_unfold (forM_ _ materialize)).
  pose proof (materialize_loop p (Branchpoint_count p) Hroot
                (length (bpp (self_of p))) O eq_refl) as Hloop.
  cbn [made seq map Nat.add] in Hloop.
  replace (Branchpoint_count p + Z.of_nat 0) with (Branchpoint_count p)
    in Hloop by lia.
  rewrite Hloop. cbv iota beta.
  rewrite (bind_unfold get). cbn [get].
  change (branchpoints (self_of (with_results ?L ?c p))) with L.
  unfold len. rewrite length_made. unfold range. rewrite Nat2Z.id.
  rewrite (bind_unfold (forM_ _ count_connections)).
  pose proof (count_connections_loop (bpp (self_of p)) Hord p
                (made (self_of p) (Branchpoint_count p)
                   (length (bpp (self_of p))))
                (Branchpoint_count p + Z.of_nat (length (bpp (self_of p))))
                (mirrors_made _ _) (length (bpp (self_of p))) O) as Hcount.
  rewrite length_made in Hcount. cbn [tally] in Hcount.
  rewrite (Hcount eq_refl). reflexivity.
Qed.

End Filled.

(** *** iterate, up to the filling of the result lists *)

Lemma hoare_and {S A} (P1 P2 : S -> Prop) (m : M S A)
  (Q1 Q2 : A -> S -> Prop) (E1 E2 : S -> Prop) :
  hoare P1 m Q1 E1 -> hoare P2 m Q2 E2 ->
  hoare (fun w => P1 w /\ P2 w) m (fun a w => Q1 a w /\ Q2 a w)
        (fun w => E1 w /\ E2 w).
Proof.
  intros H1 H2 w [Hw1 Hw2]. specialize (H1 w Hw1). specialize (H2 w Hw2).
  destruct (m w) as [[a|e|] w']; auto.
Qed.

Section Iterate.
Context {H : Host}.

(** A call that makes no [Branchpoint]. *)
Definition keeps_count {A} (m : M Proc A) : Prop :=
  forall q, Branchpoint_count (snd (m q)) = Branchpoint_count q.

Lemma keeps_count_ret {A} (a : A) : keeps_count (ret a).
Proof. intros q. reflexivity. Qed.

Lemma keeps_count_time : keeps_count time.
Proof. intros q. reflexivity. Qed.

Lemma keeps_count_get : keeps_count get.
Proof. intros q. reflexivity. Qed.

Lemma keeps_count_on_st {A} (m : M St A) : keeps_count (on_st m).
Proof. intros q. now rewrite on_st_unfold. Qed.

Lemma keeps_count_bind {A B} (m : M Proc A) (k : A -> M Proc B) :
  keeps_count m -> (forall a, keeps_count (k a)) -> keeps_count (bind m k).
Proof.
  intros Hm Hk q. unfold bind. specialize (Hm q).
  destruct (m q) as [[a|e|] q']; cbn [snd] in *; try exact Hm.
  now rewrite Hk.
Qed.

Lemma keeps_count_generations fuel gens starttime rate maxtime :
  forall t n, keeps_count (generations fuel gens starttime rate maxtime t n).
Proof.
  induction gens as [|i rest IH]; intros t n; cbn [generations].
  - apply keeps_count_ret.
  - apply keeps_count_bind; [apply keeps_count_on_st|]. intros u.
    apply keeps_count_bind.
    + destruct (0 <? maxtime)%float; [|apply keeps_count_ret].
      apply keeps_count_bind; [apply keeps_count_time|].
      intros; apply keeps_count_ret.
    + intros [|]; [apply keeps_count_ret|].
      apply keeps_count_bind.
      * destruct (0 <? rate)%float; [|apply keeps_count_ret].
        apply keeps_count_bind; [apply keeps_count_on_st|].
        intros; apply keeps_count_ret.
      * intros [t' n']. apply keeps_count_bind; [apply keeps_count_on_st|].
        intros; apply IH.
Qed.

Lemma keeps_count_hoare {A} (m : M Proc A) c :
  keeps_count m ->
  hoare (fun q => Branchpoint_count q = c) m
        (fun _ q => Branchpoint_count q = c) (fun _ => True).
Proof.
  intros Hm q Hq. specialize (Hm q).
  destruct (m q) as [[a|e|] q']; cbn [snd] in Hm; auto. congruence.
Qed.

(** The store and the counter when the result lists are about to be
    filled. *)
Definition ready (c : Z) (q : Proc) : Prop :=
  (consistent (self_of q) /\ rooted (self_of q)) /\ Branchpoint_count q = c.

Lemma sound_results s s' :
  results_only s s' -> consistent s /\ rooted s -> consistent s' /\ rooted s'.
Proof.
  intros (bs & es & ->) [Hc Hr]. split; [|exact Hr].
  eapply consistent_core; [|exact Hc]. reflexivity.
Qed.

Lemma sound_decay s :
  consistent s /\ rooted s -> consistent (decay s) /\ rooted (decay s).
Proof.
  intros [Hc Hr]. split.
  - eapply consistent_core; [apply decay_core | exact Hc].
  - destruct (decay_store s) as (H1 & H2 & H3 & H4 & H5 & _).
    unfold rooted. now rewrite H1, H2, H3, H4, H5.
Qed.

Lemma sound_volumepoint g s :
  consistent s /\ rooted s ->
  consistent (set_volumepoint g s) /\ rooted (set_volumepoint g s).
Proof.
  intros [Hc Hr]. split; [|exact Hr].
  eapply consistent_core; [|exact Hc]. reflexivity.
Qed.

(** When [iterate] returns, the result lists were filled from a sound store
    that the same counter went with. *)
Lemma iterate_filled nep maxtime fuel p p' :
  consistent (self_of p) -> rooted (self_of p) ->
  iterate nep maxtime fuel p = (Returned tt, p') ->
  exists q, ready (Branchpoint_count p) q /\ p' = filled q.
Proof.
  intros Hc Hr E.
  pose (Inv := fun s : SCA => consistent s /\ rooted s).
  pose (Err := fun _ : SCA => True).
  pose (c := Branchpoint_count p).
  assert (Hstep : forall A (m : M Proc A),
            hoare (fun q => Inv (self_of q)) m (fun _ q => Inv (self_of q))
                  (fun q => Err (self_of q)) ->
            keeps_count m ->
            hoare (ready c) m (fun _ => ready c) (fun _ => True)).
  { intros A m Hm Hk. eapply hoare_conseq.
    - apply (hoare_and _ _ m _ _ _ _ Hm (keeps_count_hoare m c Hk)).
    - intros q Hq. exact Hq.
    - intros a q Hq. exact Hq.
    - auto. }
  assert (Hit : hoare (ready c) (iterate nep maxtime fuel)
                  (fun _ q' => exists q, ready c q /\ q' = filled q)
                  (fun _ => True)).
  { unfold iterate.
    eapply hoare_bind.
    { apply Hstep; [|apply keeps_count_time].
      apply (fills_only_keeps Inv Err (fun _ _ => I) sound_results
               (fun _ _ _ _ => I)), fills_only_time. }
    intros t0. eapply hoare_bind with (R := fun _ => ready c).
    { destruct (0 <? _)%float.
      - apply Hstep; [|apply keeps_count_on_st].
        apply (on_st_Inv Inv Err), (draw_expovariate_keeps Inv Err).
      - apply hoare_ret. auto. }
    intros t. eapply hoare_bind with (R := fun _ => ready c).
    { apply hoare_get. auto. }
    intros p0. eapply hoare_bind with (R := fun _ => ready c).
    { apply Hstep; [|apply keeps_count_generations].
      apply (generations_keeps Inv Err (fun _ _ => I) sound_results
               (fun _ _ _ _ => I) sound_volumepoint sound_decay
               growBranches_rooted addEndPoint_rooted). }
    intros u q Hq. rewrite (fill_results_filled q) by apply Hq.
    now exists q. }
  specialize (Hit p (conj (conj Hc Hr) eq_refl)). rewrite E in Hit.
  exact Hit.
Qed.

End Iterate.

(** *** What the records hold *)

Section RecordFacts.
Context {H : Host}.

Lemma nth_error_records s c0 k b :
  (forall i q, nth_error (bpp s) i = Some (Some q) -> 0 <= q < Z.of_nat i) ->
  nth_error (records s c0) k = Some b ->
  (k < length (bpp s))%nat /\
  b = add_connections (Z.of_nat (descendants (bpp s) k))
        (record_at s c0 (length (bpp s)) k).
Proof.
  intros Hord Hk. unfold records in Hk.
  rewrite (nth_error_tally (bpp s) Hord), nth_error_made in Hk.
  destruct (Nat.ltb_spec k (length (bpp s))) as [Hlt|Hge]; [|discriminate].
  cbn [option_map] in Hk. injection Hk as <-. split; [exact Hlt|reflexivity].
Qed.

Lemma length_records s c0 : length (records s c0) = length (bpp s).
Proof.
  unfold records.
  assert (Hlen : forall L j, length (tally (bpp s) L j) = length L).
  { intros L j. induction j as [|j IH]; [reflexivity|]. cbn [tally].
    now rewrite length_bump. }
  now rewrite Hlen, length_made.
Qed.

(** X11.  On a store that is a tree rooted at index 0, the filling of the
    result lists at the end of [iterate] returns: no subscript is out of
    range and each walk up the parents ends. *)
Theorem fill_results_returns (p : Proc) :
  rooted (self_of p) -> fst (fill_results p) = Returned tt.
Proof. intros Hr. now rewrite (fill_results_filled p Hr). Qed.

(** X12.  When [iterate] returns (started on a consistent store that is a
    tree rooted at index 0, as the constructor makes without starting
    points), [self.branchpoints] mirrors the store: it has one record per
    branch point, in the order of the store, and record [k] holds the
    position ([Vector] of the three coordinates), the parent index and the
    generation of branch point [k]; its [index] is [k + 1] more than
    [Branchpoint.count] was when [iterate] started, and the counter has
    advanced by the number of branch points.  [self.endpoints] is [Vector]
    of each endpoint position. *)
Theorem iterate_mirrors_store (nep maxtime : float) (fuel : nat)
  (p p' : Proc) :
  consistent (self_of p) -> rooted (self_of p) ->
  iterate nep maxtime fuel p = (Returned tt, p') ->
  rooted (self_of p') /\
  Branchpoint_count p'
  = Branchpoint_count p + Z.of_nat (length (bpp (self_of p'))) /\
  endpoints (self_of p') = map Vector (ep (self_of p')) /\
  length (branchpoints (self_of p')) = length (bpp (self_of p')) /\
  forall k b,
    nth_error (branchpoints (self_of p')) k = Some b ->
    Branchpoint.v b
    = Vector (nth (3 * k) (bp (self_of p')) 0%float,
              nth (3 * k + 1) (bp (self_of p')) 0%float,
              nth (3 * k + 2) (bp (self_of p')) 0%float) /\
    Branchpoint.parent b = nth k (bpp (self_of p')) None /\
    Branchpoint.generation b = nth k (bpg (self_of p')) 0 /\
    Branchpoint.index b = Branchpoint_count p + Z.of_nat k + 1.
Proof.
  intros Hc Hr E.
  destruct (iterate_filled nep maxtime fuel p p' Hc Hr E)
    as (q & [[Hcq Hrq] Hcount] & ->).
  pose proof Hrq as (_ & _ & _ & _ & Hord & _).
  unfold filled, self_of.
  cbn [st self bp bpp bpg ep endpoints branchpoints set_endpoints
       set_branchpoints Branchpoint_count].
  fold (self_of q).
  split; [exact Hrq|]. split; [now rewrite Hcount|].
  split; [reflexivity|]. split; [apply length_records|].
  intros k b Hk.
  apply (nth_error_records _ _ _ _ Hord) in Hk as [_ ->].
  rewrite Hcount. repeat split.
Qed.

(** X13.  In the records that [iterate] leaves, [connections] is the size
    of the subtree: one, plus the number of branch points that have this
    one among their ancestors. *)
Theorem connections_count_descendants (nep maxtime : float) (fuel : nat)
  (p p' : Proc) :
  consistent (self_of p) -> rooted (self_of p) ->
  iterate nep maxtime fuel p = (Returned tt, p') ->
  forall k b,
    nth_error (branchpoints (self_of p')) k = Some b ->
    Branchpoint.connections b
    = 1 + Z.of_nat (descendants (bpp (self_of p')) k).
Proof.
  intros Hc Hr E.
  destruct (iterate_filled nep maxtime fuel p p' Hc Hr E)
    as (q & [[Hcq Hrq] Hcount] & ->).
  pose proof Hrq as (_ & _ & _ & _ & Hord & _).
  unfold filled, self_of.
  cbn [st self bpp branchpoints set_endpoints set_branchpoints].
  fold (self_of q). intros k b Hk.
  apply (nth_error_records _ _ _ _ Hord) in Hk as [_ ->]. reflexivity.
Qed.

(** X14.  In the records that [iterate] leaves, [apex] refers to the first
    child of the branch point (the child with the lowest index) and
    [shoot] to the last of its other children; a branch point without
    children has neither, one with a single child has no shoot. *)
Theorem apex_and_shoot_are_children (nep maxtime : float) (fuel : nat)
  (p p' : Proc) :
  consistent (self_of p) -> rooted (self_of p) ->
  iterate nep maxtime fuel p = (Returned tt, p') ->
  forall k b,
    nth_error (branchpoints (self_of p')) k = Some b ->
    Branchpoint.apex b
    = hd_error (children (bpp (self_of p')) k (length (bpp (self_of p')))) /\
    Branchpoint.shoot b
    = later (children (bpp (self_of p')) k (length (bpp (self_of p')))).
Proof.
  intros Hc Hr E.
  destruct (iterate_filled nep maxtime fuel p p' Hc Hr E)
    as (q & [[Hcq Hrq] Hcount] & ->).
  pose proof Hrq as (_ & _ & _ & _ & Hord & _).
  unfold filled, self_of.
  cbn [st self bpp branchpoints set_endpoints set_branchpoints].
  fold (self_of q). intros k b Hk.
  apply (nth_error_records _ _ _ _ Hord) in Hk as [_ ->]. split; reflexivity.
Qed.

End RecordFacts.

(** ** One generation, and the constructor *)

Section Generation.
Context {H : Host}.

Lemma NoDup_map_filter {A B} (g : A -> B) (f : A -> bool) (l : list A) :
  NoDup (map g l) -> NoDup (map g (filter f l)).
Proof.
  induction l as [|a l IH]; cbn [map filter]; [auto|].
  intros Hnd. inversion Hnd as [|? ? Ha Hl]; subst.
  destruct (f a); [|auto]. cbn [map]. constructor; [|auto].
  intros Hin. apply Ha. apply in_map_iff in Hin as (x & Hx & Hin).
  apply filter_In in Hin as [Hin _]. apply in_map_iff. eauto.
Qed.

(** X15.  In one generation a branch point gets at most one child, and
    only a branch point that some endpoint is tied to gets one: when
    [growBranches] returns, [self.bpp] has gained the indices of distinct
    branch points, each found in [self.epb] at the start (so none of them is
    -1 or -2). *)
Theorem growBranches_one_child_each (gen : Z) (s : SCA) (r : rng) (w' : St) :
  growBranches gen {| self := s; rand := r |} = (Returned tt, w') ->
  exists parents,
    bpp (self w') = bpp s ++ map Some parents /\
    NoDup parents /\
    forall q, In q parents -> In q (epb s) /\ q <> -1 /\ q <> -2.
Proof.
  rewrite growBranches_unfold.
  destruct (snapshot_candidates s (bis_of (epb s)) r) as [[l|e|] r'] eqn:E;
    try discriminate.
  destruct (snapshot_candidates_parents _ _ _ _ _ E) as [Hsub _].
  intros Hloop. apply commit_loop_bpp in Hloop as [Hb _].
  exists (map snd (admitted s l)). split; [exact Hb|]. split.
  - apply NoDup_map_filter.
    eapply subsequence_NoDup; [exact Hsub | apply bis_of_NoDup].
  - intros q Hq. apply bis_of_spec.
    eapply subsequence_In; [exact Hsub|].
    apply in_map_iff in Hq as (c & <- & Hc). apply in_map.
    unfold admitted in Hc. now apply filter_In in Hc as [Hc _].
Qed.

(** What the constructor has made after [k] endpoints are seeded. *)
Definition seeded_with (a : Args) (k : nat) (s : SCA) : Prop :=
  length (ep s) = k /\ aligned s /\
  bp s = [0; 0; 0]%float /\ bpp s = [None] /\ bpc s = [0] /\ bpg s = [0] /\
  bpa s = [0] /\ Forall (fun b => b = 0 \/ b = -2) (epb s).

Lemma seed_step a k :
  hoare (fun w => seeded_with a k (self w))
        (bind next_volumepoint (fun p => on_self (addEndPoint p)))
        (fun _ w => seeded_with a (S k) (self w)) (fun _ => True).
Proof.
  intros w Hw. unfold bind, next_volumepoint.
  destruct (next (volumepoint (self w)) (rand w)) as [[[p g]|e|] r']; auto.
  rewrite on_self_unfold, addEndPoint_unfold. cbn [fst snd self].
  destruct Hw as (Hep & (Ha1 & Ha2 & Ha3) & Hbp & Hbpp & Hbpc & Hbpg & Hbpa & Hepb).
  change (closestBranchPoint (set_volumepoint g (self w)) p)
    with (closestBranchPoint (self w) p).
  destruct (closestBranchPoint (self w) p) as [[[bi v] d]| |] eqn:Ec;
    cbn [fst snd self]; auto.
  unfold seeded_with, aligned. cbn. rewrite !length_app. cbn [length].
  repeat split; try lia; try assumption.
  apply Forall_app. split; [exact Hepb|]. constructor; [|constructor].
  apply closestBranchPoint_sound in Ec as [->|(Hr & _)]; [now right|].
  rewrite Hbp in Hr. change (len [0%float; 0%float; 0%float] / 3) with 1 in Hr.
  left. lia.
Qed.

(** X16.  Without starting points, when the constructor returns it has made
    a store with the single root at the origin (no parent, no child,
    generation 0) and exactly [NENDPOINTS] endpoints (none when
    [NENDPOINTS] is zero or less), each with its index, direction and
    distance, and each tied to the root or out of range. *)
Theorem constructor_seeds (a : Args) (w : St) :
  kw_startingpoints a = [] ->
  SCA_init a = (Returned tt, w) ->
  length (ep (self w)) = Z.to_nat (kw_NENDPOINTS a) /\
  aligned (self w) /\
  bp (self w) = [0; 0; 0]%float /\ bpp (self w) = [None] /\
  bpc (self w) = [0] /\ bpg (self w) = [0] /\ bpa (self w) = [0] /\
  Forall (fun b => b = 0 \/ b = -2) (epb (self w)).
Proof.
  intros Hsp E. unfold SCA_init in E. rewrite Hsp in E.
  unfold seed_branchpoints in E.
  cbn [len length Z.of_nat Z.gtb Z.compare] in E.
  pose proof (hoare_forM_range (fun k w => seeded_with a k (self w))
                (fun _ => True) (Z.to_nat (kw_NENDPOINTS a))
                (fun _ => bind next_volumepoint
                            (fun p => on_self (addEndPoint p)))
                (fun k _ => seed_step a k)
                {| self := fresh a; rand := seed (kw_SEED a) |}) as Hloop.
  assert (Hrange : range (Z.of_nat (Z.to_nat (kw_NENDPOINTS a)))
                   = range (kw_NENDPOINTS a))
    by (unfold range; now rewrite Nat2Z.id).
  rewrite Hrange in Hloop. fold (seed_endpoints (kw_NENDPOINTS a)) in Hloop.
  rewrite bind_unfold in E.
  destruct (seed_endpoints (kw_NENDPOINTS a) _) as [[u|e|] w1];
    try discriminate.
  cbn [ret] in E. injection E as <-. apply Hloop.
  unfold seeded_with, aligned. cbn. repeat split; constructor.
Qed.

End Generation.

(** ** The generation stamps *)

(** [gen] written at each position of [qs], in turn. *)
Definition stamp (g : list Z) (qs : list nat) (gen : Z) : list Z :=
  fold_left (fun l q => replace_nth l q gen) qs g.

Lemma length_stamp g qs gen : length (stamp g qs gen) = length g.
Proof.
  revert g. induction qs as [|q qs IH]; intros g; [reflexivity|].
  cbn [stamp fold_left]. fold (stamp (replace_nth g q gen) qs gen).
  now rewrite IH, replace_nth_length.
Qed.

Lemma nth_error_stamp g qs gen k :
  nth_error (stamp g qs gen) k =
  if existsb (Nat.eqb k) qs
  then (if (k <? length g)%nat then Some gen else None)
  else nth_error g k.
Proof.
  revert g. induction qs as [|q qs IH]; intros g; [reflexivity|].
  cbn [stamp fold_left]. fold (stamp (replace_nth g q gen) qs gen).
  rewrite IH, replace_nth_length, nth_error_replace_nth. cbn [existsb].
  destruct (Nat.eqb_spec k q) as [->|Hne]; cbn [orb]; [|reflexivity].
  now destruct (existsb (Nat.eqb q) qs).
Qed.

Section Stamps.
Context {H : Host}.

Lemma stamp_lineage_writes parents gen :
  (forall i q, nth_error parents i = Some (Some q) -> 0 <= q < Z.of_nat i) ->
  forall fuel i s,
    bpp s = parents -> (i < fuel)%nat ->
    (i < length (bpg s))%nat -> (i < length parents)%nat ->
    stamp_lineage fuel (Some (Z.of_nat i)) gen s
    = (Returned tt,
       set_bpg (stamp (bpg s) (i :: ancestors parents i i) gen) s).
Proof.
  intros Hord. induction fuel as [|fuel IH]; intros i s Hs Hf Hg Hp; [lia|].
  cbn [stamp_lineage].
  rewrite (bind_unfold get). cbn [get].
  destruct (nth_error (bpg s) i) as [old|] eqn:Eold;
    [|apply nth_error_None in Eold; lia].
  rewrite (setitem_nat (bpg s) i gen old Eold).
  rewrite (bind_unfold (liftO _)). cbn [liftO].
  rewrite (bind_unfold (modify _)). cbn [modify].
  rewrite (bind_unfold get). cbn [get].
  change (bpp (set_bpg (replace_nth (bpg s) i gen) s)) with (bpp s).
  rewrite Hs, (getitem_nat parents i None Hp).
  rewrite (bind_unfold (liftO _)). cbn [liftO].
  assert (Hanc : ancestors parents i i
                 = match nth i parents None with
                   | Some q => Z.to_nat q :: ancestors parents (Z.to_nat q) (Z.to_nat q)
                   | None => []
                   end).
  { destruct i as [|i'].
    - cbn [ancestors]. destruct (nth 0 parents None) as [q|] eqn:E;
        [|reflexivity].
      apply nth_parent, Hord in E. lia.
    - cbn [ancestors]. destruct (nth (S i') parents None) as [q|] eqn:E;
        [|reflexivity].
      pose proof (Hord _ _ (nth_parent _ _ _ E)) as Hq.
      f_equal. apply (ancestors_fuel parents Hord); lia. }
  rewrite Hanc.
  destruct (nth i parents None) as [q|] eqn:E.
  - pose proof (Hord _ _ (nth_parent _ _ _ E)) as Hq.
    replace q with (Z.of_nat (Z.to_nat q)) at 1 by lia.
    rewrite (IH (Z.to_nat q) (set_bpg (replace_nth (bpg s) i gen) s));
      [reflexivity | exact Hs | lia | cbn; rewrite replace_nth_length; lia
      | lia].
  - destruct fuel; reflexivity.
Qed.

(** The generation list is written by the first part of [addBranchPoint]
    only. *)
Lemma addBranchPoint_bpg newbp parent gen s s' :
  addBranchPoint newbp parent gen s = (Returned tt, s') ->
  let '(n0, n1, n2) := newbp in
  exists s1,
    stamp_lineage (S (length (bpp s))) (Some parent) gen
      (set_bpg (bpg s ++ [gen]) (set_bp (bp s ++ [n0; n1; n2]) s))
    = (Returned tt, s1) /\
    bpg s' = bpg s1.
Proof.
  rewrite addBranchPoint_unfold. destruct newbp as [[n0 n1] n2].
  destruct (append_branchpoint (n0, n1, n2) parent gen s) as [[u1|e|] s1]
    eqn:E1; try discriminate.
  pose proof (attract_all_moved (n0, n1, n2) s1) as H2.
  destruct (attract_all (n0, n1, n2) s1) as [[u2|e|] s2]; try discriminate.
  pose proof (reassign_all_moved parent s2) as H3.
  destruct (reassign_all parent s2) as [[u3|e|] s3]; try discriminate.
  pose proof (incr_bpa_effect parent s3) as H4.
  destruct (incr_bpa parent s3) as [[u4|e|] s4]; try discriminate.
  destruct u4. intros [= <-]. cbn [snd] in H2, H3.
  destruct H4 as (k & l & _ & _ & ->).
  destruct H2 as (v2 & d2 & b2 & -> & _).
  destruct H3 as (v3 & d3 & b3 & -> & _).
  cbn [bpg set_bpa set_epb set_epd set_epv].
  unfold append_branchpoint, incr_bpc in E1.
  rewrite (bind_unfold (modify _)) in E1. cbn [modify] in E1.
  rewrite (bind_unfold (modify _)) in E1. cbn [modify] in E1.
  rewrite (bind_unfold get) in E1. cbn [get] in E1.
  rewrite (bind_unfold (stamp_lineage _ _ _)) in E1.
  change (bpp (set_bpg (bpg (set_bp (bp s ++ [n0; n1; n2]) s) ++ [gen])
                 (set_bp (bp s ++ [n0; n1; n2]) s)))
    with (bpp s) in E1.
  change (bpg (set_bp (bp s ++ [n0; n1; n2]) s)) with (bpg s) in E1.
  destruct (stamp_lineage (S (length (bpp s))) (Some parent) gen _)
    as [[u|e|] w] eqn:Est; try discriminate.
  destruct u. exists w. split; [reflexivity|].
  destruct u1. revert E1. mrun.
  repeat (split_match; try discriminate).
  intros [= <-]. reflexivity.
Qed.

(** X17.  On a store that is a tree rooted at index 0, a call
    [addBranchPoint(bp, pi, generation)] with [pi] the index of a branch
    point, when it returns, has appended one generation and written
    [generation] at the new branch point, at [pi] and at every ancestor of
    [pi]; every other generation is as it was. *)
Theorem addBranchPoint_stamps (newbp : vec3) (parent gen : Z) (s s' : SCA) :
  rooted s -> 0 <= parent < len (bpp s) ->
  addBranchPoint newbp parent gen s = (Returned tt, s') ->
  length (bpg s') = S (length (bpg s)) /\
  forall k, (k < length (bpg s'))%nat ->
    nth k (bpg s') 0 =
    if (k =? length (bpp s))%nat || (k =? Z.to_nat parent)%nat
       || below (bpp s) k (Z.to_nat parent)
    then gen else nth k (bpg s) 0.
Proof.
  intros (_ & Hg & _ & _ & Hord & _) Hp E.
  apply addBranchPoint_bpg in E. destruct newbp as [[n0 n1] n2].
  destruct E as (s1 & Est & ->). unfold len in Hp.
  replace parent with (Z.of_nat (Z.to_nat parent)) in Est by lia.
  rewrite (stamp_lineage_writes (bpp s) gen Hord) in Est;
    [| reflexivity | lia | cbn; rewrite length_app; cbn [length]; lia | lia].
  injection Est as <-.
  cbn [bpg set_bpg set_bp].
  change (stamp (replace_nth (bpg s ++ [gen]) (Z.to_nat parent) gen)
            (ancestors (bpp s) (Z.to_nat parent) (Z.to_nat parent)) gen)
    with (stamp (bpg s ++ [gen])
            (Z.to_nat parent
             :: ancestors (bpp s) (Z.to_nat parent) (Z.to_nat parent)) gen).
  rewrite length_stamp, length_app. cbn [length]. split; [lia|].
  intros k Hk.
  assert (Hnth : forall l : list Z, (k < length l)%nat ->
                   forall x, nth_error l k = Some x -> nth k l 0 = x).
  { intros l _ x Hx. now apply nth_error_nth. }
  apply Hnth; [rewrite length_stamp, length_app; cbn [length]; lia|].
  rewrite nth_error_stamp. cbn [existsb]. fold (below (bpp s) k (Z.to_nat parent)).
  rewrite length_app. cbn [length].
  destruct (Nat.ltb_spec k (length (bpg s) + 1)) as [_|]; [|lia].
  destruct (Nat.eqb_spec k (Z.to_nat parent)) as [->|Hne]; cbn [orb].
  - now rewrite Bool.orb_true_r.
  - rewrite Bool.orb_false_r.
    destruct (below (bpp s) k (Z.to_nat parent)) eqn:Eb.
    + now rewrite Bool.orb_true_r.
    + rewrite Bool.orb_false_r.
      destruct (Nat.eqb_spec k (length (bpp s))) as [->|Hk'].
      * rewrite nth_error_app2 by lia. rewrite Hg, Nat.sub_diag. reflexivity.
      * rewrite nth_error_app1 by lia. apply nth_error_nth'. lia.
Qed.

End Stamps.

(** ** The loop of [iterate] at its edges *)

Section Edges.
Context {H : Host}.

(** The draw of the time to the first new endpoint. *)
Definition first_arrival (nep : float) : M Proc float :=
  if (0 <? nep / 1000)%float then on_st (draw_expovariate (nep / 1000))
  else ret 1%float.

Lemma first_arrival_frame nep p :
  self_of (snd (first_arrival nep p)) = self_of p /\
  wall (snd (first_arrival nep p)) = wall p /\
  now (snd (first_arrival nep p)) = now p.
Proof.
  unfold first_arrival. destruct (0 <? nep / 1000)%float; [|auto].
  rewrite on_st_unfold. unfold draw_expovariate.
  destruct (expovariate _ _) as [x r]; cbn; auto.
Qed.

Lemma growBranches_clock gen p :
  wall (snd (on_st (growBranches gen) p)) = wall p /\
  now (snd (on_st (growBranches gen) p)) = now p.
Proof.
  rewrite on_st_unfold.
  destruct (growBranches gen (st p)) as [[u|e|] w]; cbn; auto.
Qed.

(** X18.  The time budget of [iterate] is looked at only after a
    generation has grown.  With [maxiterations] zero or less no generation
    runs: the call reads the clock, draws the first arrival and fills the
    result lists.  With a positive [maxtime] that the second reading of the
    clock already exceeds, exactly one generation runs (numbered 0), without
    new endpoints and without the reduction of apical control. *)
Theorem iterate_edges (nep maxtime : float) (fuel : nat) (p : Proc) :
  (maxiterations (self_of p) <= 0 ->
   iterate nep maxtime fuel p
   = bind time (fun _ => bind (first_arrival nep) (fun _ => fill_results))
       p) /\
  (1 <= maxiterations (self_of p) ->
   (0 <? maxtime)%float = true ->
   (maxtime <? wall p (S (now p)) - wall p (now p))%float = true ->
   iterate nep maxtime fuel p
   = bind time (fun _ => bind (first_arrival nep) (fun _ =>
       bind (on_st (growBranches 0)) (fun _ =>
       bind time (fun _ => fill_results)))) p).
Proof.
  unfold iterate. fold (first_arrival nep).
  rewrite !(bind_unfold time). cbn [time].
  set (p1 := {| st := st p; Branchpoint_count := Branchpoint_count p;
                wall := wall p; now := S (now p) |}).
  rewrite !(bind_unfold (first_arrival nep)).
  destruct (first_arrival_frame nep p1) as (Hself & Hwall & Hnow).
  destruct (first_arrival nep p1) as [[t|e|] p2]; cbn [snd] in *;
    [|split; reflexivity ..].
  rewrite (bind_unfold get). cbn [get]. rewrite Hself.
  change (self_of p1) with (self_of p).
  split.
  - intros Hm. unfold range. replace (Z.to_nat (maxiterations (self_of p)))
      with O by lia.
    cbn [seq map generations]. rewrite (bind_unfold (ret tt)). reflexivity.
  - intros Hm Hmax Hlate. unfold range.
    destruct (Z.to_nat (maxiterations (self_of p))) as [|n] eqn:En; [lia|].
    cbn [seq map generations]. rewrite Hmax.
    change (Z.of_nat 0) with 0.
    rewrite (bind_unfold (bind (on_st (growBranches 0)) _)).
    rewrite !(bind_unfold (on_st (growBranches 0))).
    destruct (growBranches_clock 0 p2) as (Hw3 & Hn3).
    destruct (on_st (growBranches 0) p2) as [[u|e|] p3]; cbn [snd] in *;
      [|reflexivity ..].
    rewrite (bind_unfold (bind time _)).
    rewrite !(bind_unfold time). cbn [time ret].
    rewrite Hw3, Hn3, Hwall, Hnow. cbn [wall now p1]. rewrite Hlate.
    reflexivity.
Qed.

End Edges.

(** ** Examples on the engine that [two_attractors] makes *)

(** The engine right after its attributes are set: one root at the origin,
    no endpoint. *)
Definition root_only : @SCA plain := fresh two_attractors.

(** C10, as stated, fails: the root is growable and lies at distance 2e15
    from the query point, not zero, yet the scan binds nothing (the squared
    distance is not under its initial bound 1e30) and the call raises
    UnboundLocalError. *)
Lemma closestBranchPoint_far_point_fails :
  nth_error (bpc root_only) 0 = Some 0 /\
  squared_distance root_only (2e15, 0, 0)%float 0 = 4e30%float /\
  (sqrt 4e30 =? 0)%float = false /\
  closestBranchPoint root_only (2e15, 0, 0)%float = Raised UnboundLocalError.
Proof. repeat split. Qed.

Lemma root_only_counted : store_counted root_only.
Proof.
  intros i Hi. change (len (bp root_only) / 3) with 1 in Hi.
  assert (i = 0) as -> by lia. now exists 0.
Qed.

Lemma root_only_growable i : growable root_only i <-> i = 0.
Proof.
  split.
  - intros (Hi & _). change (len (bp root_only) / 3) with 1 in Hi. lia.
  - intros ->. split; [now vm_compute|]. exists 0. split; [reflexivity | lia].
Qed.

(** A query point at distance 3 from the root: the call returns. *)
Lemma closestBranchPoint_defined_witness :
  exists bi v d,
    closestBranchPoint root_only (3, 0, 0)%float = Returned (bi, v, d).
Proof.
  apply (closestBranchPoint_defined root_only (3, 0, 0)%float).
  - exact root_only_counted.
  - exists 0. split; [now apply root_only_growable | reflexivity].
  - intros i Hi. apply root_only_growable in Hi. subst i. reflexivity.
Defined.

Lemma closestBranchPoint_never_full_witness :
  exists bi v d,
    closestBranchPoint root_only (3, 0, 0)%float = Returned (bi, v, d).
Proof.
  apply (closestBranchPoint_never_full root_only (3, 0, 0)%float).
  - exact root_only_counted.
  - exists 0. split; [now apply root_only_growable | reflexivity].
  - intros i Hi. apply root_only_growable in Hi. subst i. reflexivity.
Defined.

(** With control 0.25 and falloff 1, a branch point with one shoot is
    suppressed when the draw exceeds 0.75. *)
Definition controlled (tape : list float) : @St (example_host tape) :=
  {| self := @Build_SCA (example_host tape) 0 1 6 0 1e16 0.25 1 0 0
               [0; 0; 0]%float [0] [None] [0] [0] [] [] [] [] []
               (fun _ => false) [] [];
     rand := tape |}.

Lemma shootSupressed_cases_witness :
  shootSupressed 1 (controlled [0.875%float]) =
  (Returned true,
   @set_rand (example_host [0.875%float]) [] (controlled [0.875%float])).
Proof.
  pose proof (shootSupressed_cases 1%float (controlled [0.875%float]))
    as Hcases.
  cbv zeta in Hcases. destruct Hcases as [_ Hcases].
  destruct (Hcases eq_refl) as (_ & Hpos & _).
  exact (Hpos eq_refl 0.75%float eq_refl).
Defined.

(** A process in which nothing has run yet. *)
Definition boot : @Proc plain :=
  {| st := {| self := root_only; rand := ([] : list float) |};
     Branchpoint_count := 0; wall := fun _ => 0%float; now := O |}.

Lemma children_never_exceed_two_witness :
  Forall (fun c => c <= 2)
    (bpc (self_of (snd (session two_attractors [Iterate 0 0 O] boot)))).
Proof.
  apply (children_never_exceed_two two_attractors [Iterate 0 0 O] boot);
    reflexivity.
Defined.

(** One attractor at distance 3, steps of length 1, kill distance 2.5: the
    first generation puts a branch point at distance 2 of the attractor,
    which dies. *)
Definition one_attractor : @Args plain :=
  @Build_Args plain 1 1%float 6 2.5%float 0%float 42
    [(3%float, 0%float, 0%float)]
    0%float (fun _ => false) [] 0%float 1%float 0%float.

Definition after_first : @Proc plain :=
  snd (session one_attractor [GrowBranches 0] boot).

Lemma dead_stays_dead_witness :
  nth_error (epb (self_of after_first)) 0 = Some (-1) /\
  nth_error (epb (self_of (snd (perform (GrowBranches 1) after_first)))) 0
  = Some (-1).
Proof.
  split; [reflexivity|].
  apply (dead_stays_dead (GrowBranches 1) after_first 0). reflexivity.
Defined.

(** One starting point: the constructor raises IndexError. *)
Definition with_startingpoint : @Args plain :=
  @Build_Args plain 0 1%float 6 0%float 0%float 42 []
    0%float (fun _ => false) [(0%float, 0%float, 1%float)]
    0%float 1%float 0%float.

Lemma startingpoints_raise_witness :
  fst (SCA_init with_startingpoint) = Raised IndexError.
Proof.
  apply (startingpoints_raise with_startingpoint); [discriminate | reflexivity].
Defined.

(** C5, as stated, fails: a step length of -1, a seed count of -5, a kill
    distance of -1 and an influence radius of -1 are accepted, the
    constructor returns, and [iterate] runs on the engine it made. *)
Definition invalid_settings : @Args plain :=
  @Build_Args plain (-5) (-1)%float 6 (-1)%float (-1)%float 42 []
    0%float (fun _ => false) [] 0%float 1%float 0%float.

Lemma invalid_settings_accepted :
  fst (SCA_init invalid_settings) = Returned tt /\
  branchlength (self (snd (SCA_init invalid_settings))) = (-1)%float /\
  killdistance (self (snd (SCA_init invalid_settings))) = (-1)%float /\
  ep (self (snd (SCA_init invalid_settings))) = [] /\
  fst (session invalid_settings [Iterate 0 0 O] boot) = Returned tt.
Proof. repeat split. Qed.

Lemma constructor_validates_nothing_witness :
  SCA_init invalid_settings =
  (Returned tt, {| self := fresh invalid_settings; rand := ([] : list float) |}).
Proof.
  apply (constructor_validates_nothing invalid_settings);
    [vm_compute; discriminate | reflexivity].
Defined.

(** C2, as stated, fails on the order of the commits.  After five
    generations on [two_attractors] the endpoints are tied to the branch
    points 9 and 2; the set of these two indices is enumerated as 9, 2, and
    the sixth generation commits the child of 9 before the child of 2. *)
Definition after_five : @Proc plain :=
  snd (session two_attractors
         [GrowBranches 0; GrowBranches 1; GrowBranches 2; GrowBranches 3;
          GrowBranches 4] boot).

Lemma growBranches_commits_out_of_order :
  fst (session two_attractors
         [GrowBranches 0; GrowBranches 1; GrowBranches 2; GrowBranches 3;
          GrowBranches 4] boot) = Returned tt /\
  epb (self_of after_five) = [9; 2] /\
  map snd (admitted (self_of after_five)
             match fst (snapshot_candidates (self_of after_five)
                          (@bis_of plain (epb (self_of after_five)))
                          (rand (st after_five))) with
             | Returned l => l
             | _ => []
             end) = [9; 2] /\
  fst (perform (GrowBranches 5) after_five) = Returned tt /\
  bpp (self_of (snd (perform (GrowBranches 5) after_five)))
  = bpp (self_of after_five) ++ [Some 9; Some 2].
Proof. repeat split. Qed.

(** A complete run in the process [boot], and a second one in the process
    as the first leaves it. *)
Definition first_run := run two_attractors 0 0 O boot.
Definition second_run := run two_attractors 0 0 O (snd first_run).

(** A process whose clock has moved on by ten seconds at its second
    reading. *)
Definition late : @Proc plain :=
  {| st := st boot; Branchpoint_count := 0;
     wall := fun k => match k with O => 0%float | _ => 10%float end;
     now := O |}.

(** C9, as stated, fails: the second run numbers its records from 13, and
    with a time budget of one second the run in [late] stops after its
    first generation. *)
Lemma second_run_differs :
  map_outcome (fun r => map Branchpoint.index (fst r)) (fst first_run)
  = Returned [1; 2; 3; 4; 5; 6; 7; 8; 9; 10; 11; 12] /\
  map_outcome (fun r => map Branchpoint.index (fst r)) (fst second_run)
  = Returned [13; 14; 15; 16; 17; 18; 19; 20; 21; 22; 23; 24] /\
  fst first_run <> fst second_run /\
  map_outcome (fun r => length (fst r)) (fst (run two_attractors 0 1 O boot))
  = Returned 12%nat /\
  map_outcome (fun r => length (fst r)) (fst (run two_attractors 0 1 O late))
  = Returned 2%nat.
Proof.
  split; [reflexivity|]. split; [reflexivity|]. split; [|split; reflexivity].
  intros Heq.
  assert (Hi : map_outcome (fun r => map Branchpoint.index (fst r))
                 (fst first_run)
               = map_outcome (fun r => map Branchpoint.index (fst r))
                   (fst second_run)) by now rewrite Heq.
  vm_compute in Hi. discriminate Hi.
Qed.

Lemma runs_agree_up_to_index_witness :
  fst second_run = map_outcome (shifted 12) (fst first_run).
Proof.
  exact (proj1 (runs_agree_up_to_index two_attractors 0 0 O boot
                  (snd first_run) eq_refl)).
Defined.

(** The engine of [two_attractors] after its first generation: the root
    has one child, the first endpoint is tied to the child and the second,
    at distance 0.125 of the root, to the root. *)
Definition once : @SCA plain :=
  self_of (snd (session two_attractors [GrowBranches 0] boot)).

Lemma once_lineage_ok : lineage_ok once.
Proof.
  split; [reflexivity|]. split; [reflexivity|].
  intros i q Hi. vm_compute in Hi.
  destruct i as [|[|[|i]]]; try discriminate Hi.
  injection Hi as <-. lia.
Qed.

(** C3, as stated, fails.  A second child of the root is added at
    (0, 0, 5), at distance 5.0015... of the second endpoint, which is not
    smaller than the recorded 0.125: the claim's words leave that endpoint
    as it is.  The call returns with the endpoint tied to branch point 1,
    with another direction and the distance 0.9158...: the root has become
    full, and the second loop of the call re-resolved the endpoint. *)
Lemma addBranchPoint_moves_farther_endpoint :
  tie once 1 = (Some (0, 1, 0)%float, Some 0.125%float, Some 0) /\
  nth_error (ep once) 1 = Some (0, 0.125, 0)%float /\
  (sqrt ((0 - 0) * (0 - 0) + (0.125 - 0) * (0.125 - 0) + (0 - 5) * (0 - 5))
   <? 0.125)%float = false /\
  attracted (killdistance once) (influence once) (0, 0, 5)%float
    (len (bp once) / 3) (0, 0.125, 0)%float ((0, 1, 0)%float, 0.125%float, 0)
  = ((0, 1, 0)%float, 0.125%float, 0) /\
  fst (addBranchPoint (0, 0, 5)%float 0 1 once) = Returned tt /\
  tie (snd (addBranchPoint (0, 0, 5)%float 0 1 once)) 1
  = (Some ((-0.77204619442648248)%float, (-0.63556641955942417)%float,
           0%float),
     Some 0.91588662218822858%float, Some 1).
Proof. repeat split. Qed.

Lemma addBranchPoint_attracts_witness :
  exists s1,
    append_branchpoint (0, 0, 5)%float 0 1 once = (Returned tt, s1) /\
    forall s',
      addBranchPoint (0, 0, 5)%float 0 1 once = (Returned tt, s') ->
      forall j e v0 d0 b0,
        nth_error (ep once) j = Some e -> nth_error (epv once) j = Some v0 ->
        nth_error (epd once) j = Some d0 -> nth_error (epb once) j = Some b0 ->
        tie s' j =
        let '(v, d, b) :=
          re_resolved s1 0 e
            (attracted (killdistance once) (influence once) (0, 0, 5)%float
               (len (bp once) / 3) e (v0, d0, b0)) in
        (Some v, Some d, Some b).
Proof.
  destruct (addBranchPoint_attracts (0, 0, 5)%float 0 1 once)
    as (s1 & s2 & E1 & _ & _ & _ & Hfinal & _).
  - exact once_lineage_ok.
  - vm_compute. split; [discriminate | reflexivity].
  - vm_compute. split; [discriminate | reflexivity].
  - reflexivity.
  - reflexivity.
  - reflexivity.
  - reflexivity.
  - exists s1. split; [exact E1 | exact Hfinal].
Defined.

(** The two other preconditions of C3 as amended.  A parent whose count is
    the largest C int makes the call raise OverflowError at
    [self.bpc[pi] += 1], before the loop over the endpoints; with a negative
    kill distance, an endpoint at the very place of the new branch point is
    not killed, and its direction is divided by the distance 0. *)
Lemma addBranchPoint_overflow_example :
  fst (addBranchPoint (1, 0, 0)%float 0 0 (set_bpc [INT_MAX] root_only))
  = Raised OverflowError /\
  bpc (snd (addBranchPoint (1, 0, 0)%float 0 0 (set_bpc [INT_MAX] root_only)))
  = [INT_MAX; 0].
Proof. split; reflexivity. Qed.

Lemma addBranchPoint_negative_kill_example :
  killdistance (retune 1 (-1) once) = (-1)%float /\
  fst (addBranchPoint (0, 0.125, 0)%float 0 1
         (retune 1 (-1) once))
  = Raised ZeroDivisionError.
Proof. split; reflexivity. Qed.

(** ** Examples for the further properties *)

(** [rooted], as a check that runs. *)
Definition rootedb {H : Host} (s : SCA) : bool :=
  (len (bp s) =? 3 * len (bpp s)) &&
  (length (bpg s) =? length (bpp s))%nat &&
  (length (bpc s) =? length (bpp s))%nat &&
  (length (bpa s) =? length (bpp s))%nat &&
  forallb (fun item : Z * option Z =>
             match snd item with
             | Some q => (0 <=? q) && (q <? fst item)
             | None => fst item =? 0
             end) (enumerate (bpp s)).

Lemma rootedb_rooted {H : Host} (s : SCA) : rootedb s = true -> rooted s.
Proof.
  unfold rootedb. rewrite !andb_true_iff, forallb_forall.
  intros [[[[Hbp Hg] Hc] Ha] Hall].
  apply Z.eqb_eq in Hbp. apply Nat.eqb_eq in Hg, Hc, Ha.
  assert (Hin : forall i o, nth_error (bpp s) i = Some o ->
                  In (Z.of_nat i, o) (enumerate (bpp s))).
  { intros i o Hi. apply (nth_error_In _ i).
    now rewrite nth_error_enumerate, Hi. }
  repeat (split; [assumption|]). split.
  - intros i q Hi. apply Hin, Hall in Hi. cbn [fst snd] in Hi.
    apply andb_true_iff in Hi as [H1 H2]. lia.
  - intros i Hi. apply Hin, Hall in Hi. cbn [fst snd] in Hi. lia.
Qed.

(** What holds of the state a call returned in. *)
Lemma on_return {S A} (r : outcome A * S) (Q : S -> Prop) :
  (exists a, fst r = Returned a) ->
  match r with
  | (Returned _, s') => Q s'
  | _ => True
  end ->
  Q (snd r).
Proof.
  destruct r as [[a|e|] s]; cbn [fst snd]; intros [a' Ha] Hr;
    [exact Hr | discriminate Ha ..].
Qed.

Lemma hoare_returned {S A} (P : S -> Prop) (m : M S A) (Q : A -> S -> Prop)
  (E : S -> Prop) (w : S) :
  hoare P m Q E -> P w ->
  forall a, fst (m w) = Returned a -> Q a (snd (m w)).
Proof.
  intros Hm Hw a Ha. specialize (Hm w Hw).
  destruct (m w) as [[a'|e|] w']; cbn [fst snd] in *;
    [injection Ha as <-; exact Hm | discriminate Ha ..].
Qed.

(** Two open branch points on the first axis and the query point (3, 0, 0):
    the second one is nearer. *)
Lemma closest_least_witness :
  closest [0; 0; 0; 1; 0; 0]%float [0; 0] 3 0 0 2
  = Returned (4%float, 1, (2, 0, 0)%float) /\
  0 <= 1 < 2 /\ open_at [0; 0; 0; 1; 0; 0]%float [0; 0] 1 /\
  (2, 0, 0)%float = offset [0; 0; 0; 1; 0; 0]%float 3 0 0 1 /\
  4%float = norm2 (2, 0, 0)%float /\ (4 <? 1e30)%float = true /\
  (forall i, 0 <= i < 2 -> open_at [0; 0; 0; 1; 0; 0]%float [0; 0] i ->
     (norm2 (offset [0; 0; 0; 1; 0; 0]%float 3 0 0 i) <? 4)%float = false) /\
  (forall i, 0 <= i < 1 -> open_at [0; 0; 0; 1; 0; 0]%float [0; 0] i ->
     (norm2 (offset [0; 0; 0; 1; 0; 0]%float 3 0 0 i) <=? 4)%float = false).
Proof.
  split; [reflexivity|].
  apply (closest_least [0; 0; 0; 1; 0; 0]%float [0; 0] 3 0 0 2 4 1
           (2, 0, 0)%float); [|reflexivity].
  change (len [0; 0; 0; 1; 0; 0]%float / 3) with 2. lia.
Defined.

(** The root alone and the query point (3, 0, 0). *)
Lemma closestBranchPoint_nearest_witness :
  closestBranchPoint root_only (3, 0, 0)%float
  = Returned (0, (1, 0, 0)%float, 3%float) /\
  exists ci,
    growable root_only ci /\
    3%float = sqrt (squared_distance root_only (3, 0, 0)%float ci) /\
    0 = (if (3 <? influence root_only)%float then ci else -2) /\
    forall i, growable root_only i ->
      (squared_distance root_only (3, 0, 0)%float i
       <? squared_distance root_only (3, 0, 0)%float ci)%float = false.
Proof.
  split; [reflexivity|].
  destruct (closestBranchPoint_nearest root_only (3, 0, 0)%float 0
              (1, 0, 0)%float 3%float eq_refl)
    as (ci & Hg & Hd & _ & Hbi & _ & Hmin & _).
  exists ci. split; [exact Hg|]. split; [exact Hd|].
  split; [exact Hbi | exact Hmin].
Defined.

(** The engine that the constructor makes of [two_attractors], and the
    process after [iterate] has run on it. *)
Definition planted : @Proc plain := snd (new_SCA two_attractors boot).
Definition grown : @Proc plain := snd (iterate 0 0 O planted).

Lemma planted_consistent : consistent (self_of planted).
Proof.
  unfold planted.
  apply (hoare_returned (fun _ => True) (new_SCA two_attractors)
           (fun _ p => consistent (self_of p)) (fun p => bounded (self_of p))
           boot (new_SCA_consistent two_attractors eq_refl) I tt).
  reflexivity.
Qed.

Lemma planted_rooted : rooted (self_of planted).
Proof. now apply rootedb_rooted. Qed.

Lemma apical_factor_is_child_count_witness :
  bpa (self_of planted) = bpc (self_of planted) /\
  bpa (self_of (snd (perform (Iterate 0 0 O) planted)))
  = bpc (self_of (snd (perform (Iterate 0 0 O) planted))).
Proof.
  split; [reflexivity|].
  apply (on_return (perform (Iterate 0 0 O) planted)
           (fun p' => bpa (self_of p') = bpc (self_of p'))).
  - now exists tt.
  - apply (apical_factor_is_child_count (Iterate 0 0 O) planted).
    reflexivity.
Defined.

Lemma parents_precede_children_witness :
  bpp (self_of (snd (session two_attractors [Iterate 0 0 O] boot)))
  = [None; Some 0; Some 0; Some 1; Some 2; Some 3; Some 4; Some 5; Some 4;
     Some 7; Some 9; Some 2] /\
  rooted (self_of (snd (session two_attractors [Iterate 0 0 O] boot))).
Proof.
  split; [reflexivity|].
  apply (on_return (session two_attractors [Iterate 0 0 O] boot)
           (fun p' => rooted (self_of p'))).
  - now exists tt.
  - apply (parents_precede_children two_attractors [Iterate 0 0 O] boot);
      reflexivity.
Defined.

(** In [after_first] the one endpoint is dead: a generation does nothing. *)
Lemma growBranches_idle_witness :
  epb (self_of after_first) = [-1] /\
  growBranches 1 (st after_first) = (Returned tt, st after_first).
Proof.
  split; [reflexivity|].
  apply (growBranches_idle 1 (st after_first)).
  change (epb (self (st after_first))) with [-1].
  constructor; [now left | constructor].
Defined.

(** One attractor and a step length of zero. *)
Definition zero_step : @Args plain :=
  @Build_Args plain 1 0%float 6 0%float 0%float 42
    [(3%float, 0%float, 0%float)]
    0%float (fun _ => false) [] 0%float 1%float 0%float.

Lemma growBranches_zero_step_witness :
  fst (SCA_init zero_step) = Returned tt /\
  growBranches 0 {| self := self (snd (SCA_init zero_step));
                    rand := ([] : list float) |}
  = (Raised ZeroDivisionError,
     {| self := self (snd (SCA_init zero_step)); rand := ([] : list float) |}).
Proof.
  split; [reflexivity|].
  apply (growBranches_zero_step 0 (self (snd (SCA_init zero_step)))
           ([] : list float)).
  - reflexivity.
  - reflexivity.
  - change (length (epv (self (snd (SCA_init zero_step))))) with 1%nat.
    change (length (epb (self (snd (SCA_init zero_step))))) with 1%nat. lia.
  - exists 0. split; [now left | split; discriminate].
  - intros b Hb _ _.
    change (epb (self (snd (SCA_init zero_step)))) with [0] in Hb.
    change (len (bpa (self (snd (SCA_init zero_step))))) with 1.
    destruct Hb as [<-|[]]. lia.
Defined.

(** Two attractors on opposite sides of the root: their directions
    cancel. *)
Definition opposite : @Args plain :=
  @Build_Args plain 2 1%float 6 0%float 0%float 42
    [(3%float, 0%float, 0%float); ((-3)%float, 0%float, 0%float)]
    0%float (fun _ => false) [] 0%float 1%float 0%float.

Lemma new_position_cancelled_witness :
  epv (self (snd (SCA_init opposite)))
  = [(1, 0, 0)%float; ((-1)%float, 0%float, 0%float)] /\
  new_position (self (snd (SCA_init opposite))) 0 = Raised ZeroDivisionError.
Proof.
  split; [reflexivity|].
  apply (new_position_cancelled (self (snd (SCA_init opposite))) 0
           [1; 0; 0; -1; 0; 0]%float).
  - reflexivity.
  - reflexivity.
  - discriminate.
  - discriminate.
Defined.

Lemma after_five_rooted : rooted (self_of after_five).
Proof. now apply rootedb_rooted. Qed.

Lemma fill_results_returns_witness :
  length (bpp (self_of after_five)) = 10%nat /\
  fst (fill_results after_five) = Returned tt.
Proof.
  split; [reflexivity|].
  apply (fill_results_returns after_five). exact after_five_rooted.
Defined.

Lemma iterate_mirrors_store_witness :
  iterate 0 0 O planted = (Returned tt, grown) /\
  rooted (self_of grown) /\
  Branchpoint_count grown
  = Branchpoint_count planted + Z.of_nat (length (bpp (self_of grown))) /\
  endpoints (self_of grown) = map (@Vector plain) (ep (self_of grown)) /\
  length (branchpoints (self_of grown)) = length (bpp (self_of grown)) /\
  forall k b,
    nth_error (branchpoints (self_of grown)) k = Some b ->
    Branchpoint.v b
    = @Vector plain
        (nth (3 * k) (bp (self_of grown)) 0%float,
         nth (3 * k + 1) (bp (self_of grown)) 0%float,
         nth (3 * k + 2) (bp (self_of grown)) 0%float) /\
    Branchpoint.parent b = nth k (bpp (self_of grown)) None /\
    Branchpoint.generation b = nth k (bpg (self_of grown)) 0 /\
    Branchpoint.index b = Branchpoint_count planted + Z.of_nat k + 1.
Proof.
  split; [vm_compute; reflexivity|].
  apply (iterate_mirrors_store 0 0 O planted grown planted_consistent
           planted_rooted).
  vm_compute; reflexivity.
Defined.

Lemma connections_count_descendants_witness :
  map Branchpoint.connections (branchpoints (self_of grown))
  = [12; 6; 5; 5; 3; 4; 1; 3; 1; 2; 1; 1] /\
  forall k b,
    nth_error (branchpoints (self_of grown)) k = Some b ->
    Branchpoint.connections b
    = 1 + Z.of_nat (descendants (bpp (self_of grown)) k).
Proof.
  split; [vm_compute; reflexivity|].
  apply (connections_count_descendants 0 0 O planted grown planted_consistent
           planted_rooted).
  vm_compute; reflexivity.
Defined.

Lemma apex_and_shoot_are_children_witness :
  map (fun b => (Branchpoint.apex b, Branchpoint.shoot b))
    (firstn 3 (branchpoints (self_of grown)))
  = [(Some 1%nat, Some 2%nat); (Some 3%nat, None); (Some 4%nat, Some 11%nat)]
  /\
  forall k b,
    nth_error (branchpoints (self_of grown)) k = Some b ->
    Branchpoint.apex b
    = hd_error (children (bpp (self_of grown)) k
                  (length (bpp (self_of grown)))) /\
    Branchpoint.shoot b
    = later (children (bpp (self_of grown)) k
               (length (bpp (self_of grown)))).
Proof.
  split; [vm_compute; reflexivity|].
  apply (apex_and_shoot_are_children 0 0 O planted grown planted_consistent
           planted_rooted).
  vm_compute; reflexivity.
Defined.

(** In [after_five] the two endpoints are tied to the branch points 9 and
    2: the sixth generation gives each of the two a child. *)
Lemma growBranches_one_child_each_witness :
  epb (self_of after_five) = [9; 2] /\
  exists parents,
    bpp (self (snd (growBranches 5 (st after_five))))
    = bpp (self_of after_five) ++ map Some parents /\
    NoDup parents /\
    forall q, In q parents ->
      In q (epb (self_of after_five)) /\ q <> -1 /\ q <> -2.
Proof.
  split; [vm_compute; reflexivity|].
  apply (growBranches_one_child_each 5 (self_of after_five)
           (rand (st after_five)) (snd (growBranches 5 (st after_five)))).
  vm_compute; reflexivity.
Defined.

Lemma constructor_seeds_witness :
  length (ep (self (snd (SCA_init two_attractors)))) = 2%nat /\
  aligned (self (snd (SCA_init two_attractors))) /\
  bp (self (snd (SCA_init two_attractors))) = [0; 0; 0]%float /\
  bpp (self (snd (SCA_init two_attractors))) = [None] /\
  bpc (self (snd (SCA_init two_attractors))) = [0] /\
  bpg (self (snd (SCA_init two_attractors))) = [0] /\
  bpa (self (snd (SCA_init two_attractors))) = [0] /\
  Forall (fun b => b = 0 \/ b = -2)
    (epb (self (snd (SCA_init two_attractors)))).
Proof.
  apply (constructor_seeds two_attractors (snd (SCA_init two_attractors)));
    vm_compute; reflexivity.
Defined.

(** A branch point added in [after_five] under branch point 9, whose
    ancestors are 7, 5, 3, 1 and 0. *)
Lemma addBranchPoint_stamps_witness :
  bpg (self_of after_five) = [4; 4; 4; 4; 4; 4; 3; 4; 4; 4] /\
  bpg (snd (addBranchPoint (0, 0, 5)%float 9 7 (self_of after_five)))
  = [7; 7; 4; 7; 4; 7; 3; 7; 4; 7; 7] /\
  length (bpg (snd (addBranchPoint (0, 0, 5)%float 9 7 (self_of after_five))))
  = S (length (bpg (self_of after_five))) /\
  forall k,
    (k < length (bpg (snd (addBranchPoint (0, 0, 5)%float 9 7
                             (self_of after_five)))))%nat ->
    nth k (bpg (snd (addBranchPoint (0, 0, 5)%float 9 7
                       (self_of after_five)))) 0 =
    if (k =? length (bpp (self_of after_five)))%nat || (k =? Z.to_nat 9)%nat
       || below (bpp (self_of after_five)) k (Z.to_nat 9)
    then 7 else nth k (bpg (self_of after_five)) 0.
Proof.
  split; [vm_compute; reflexivity|]. split; [vm_compute; reflexivity|].
  apply (addBranchPoint_stamps (0, 0, 5)%float 9 7 (self_of after_five)
           (snd (addBranchPoint (0, 0, 5)%float 9 7 (self_of after_five)))
           after_five_rooted).
  - change (len (bpp (self_of after_five))) with 10. lia.
  - vm_compute; reflexivity.
Defined.

(** The engine of [two_attractors] in a process whose clock has moved on by
    ten seconds at its second reading, and a budget of one second. *)
Definition planted_late : @Proc plain := snd (new_SCA two_attractors late).

Lemma iterate_edges_witness :
  iterate 0 1 O planted_late
  = bind time
      (fun _ => bind (first_arrival 0)
         (fun _ => bind (on_st (growBranches 0))
            (fun _ => bind time (fun _ => fill_results)))) planted_late /\
  length (bpp (self_of (snd (iterate 0 1 O planted_late)))) = 2%nat.
Proof.
  split; [|vm_compute; reflexivity].
  apply (proj2 (iterate_edges 0 1 O planted_late)).
  - change (maxiterations (self_of planted_late)) with 6. lia.
  - vm_compute; reflexivity.
  - vm_compute; reflexivity.
Defined.
